(** * Mem0: an in-process memory store with similarity de-duplication

    A shallow embedding of the JavaScript classes [Memory],
    [SimpleEmbedding] and [Mem0], and the properties of the store that
    follow from the code.

    Conventions of the embedding.
    - A JavaScript number that the program computes with (term counts,
      weights, similarities, the merge threshold) is a binary64 [float];
      arithmetic is the primitive IEEE arithmetic.  Counters and sizes
      (the id counter, the capacity, a map's size) are integers and are
      carried as [Z], the integer that the binary64 number is.  The sum
      [nextId++] is the binary64 sum, [increment]: it is [n + 1] on a
      counter from -2^53 to below 2^53 and is rounded beyond.  An id is
      printed as a numeral, which is how a template literal prints an
      integer of magnitude up to 2^53.
    - A string is a [string] whose characters are code units 0..255.
    - An object used as a dictionary is a property list in enumeration
      order: array-index keys ascending, then the other keys in creation
      order.
    - A [Map] is an association list in insertion order.  Its keys are
      strings: [add] makes no other key.  [import] stores the key that
      the snapshot gives, which may be any JSON value; on a snapshot
      with a key that is no string the embedding gives no answer.
    - An operation that may throw returns a [result]; a mutation that
      happened before the throw stays in the returned store.
    - The wall clock and [Date] parsing are an interface, [Clock]. *)

From Stdlib Require Import ZArith List String Ascii Bool Lia Floats.
From Stdlib Require Import DecimalString DecimalZ.
From Stdlib Require Import Permutation Sorted.
Import ListNotations.

Local Open Scope bool_scope.

(** ** JavaScript data *)

(** An object as a dictionary: its own enumerable properties. *)
Definition obj (V : Type) : Type := list (string * V).

(** The data that metadata, tags and snapshots are made of. *)
#[local] Unset Elimination Schemes.
Inductive value : Type :=
| VNull
| VBool (b : bool)
| VInt (n : Z)                     (* a number that is an integer *)
| VNum (x : float)                 (* any number *)
| VStr (s : string)
| VArr (l : list value)
| VObj (o : list (string * value)).
#[local] Set Elimination Schemes.

Module JS.

(** *** Numbers *)

(** [!x] for a number: zero of either sign and NaN are falsy. *)
Definition falsy_num (x : float) : bool := is_zero x || is_nan x.

(** [x || 0] for a number. *)
Definition or_zero (x : float) : float := if falsy_num x then 0%float else x.

(** The number that an integer denotes. *)
Definition float_of_Z (n : Z) : float :=
  SF2Prim (binary_normalize prec emax n 0 false).

(** The integer that a number is, for a number that is an integer. *)
Definition Z_of_float (x : float) : Z :=
  match Prim2SF x with
  | S754_finite s m e => cond_Zopp s (Z.shiftl (Zpos m) e)
  | _ => 0%Z
  end.

(** The value that [n++] leaves in a variable that holds the integer
    [n]: the number nearest to [n + 1]. *)
Definition increment (n : Z) : Z := Z_of_float (float_of_Z n + 1).

(** The double nearest to 0.7, which the literal [0.7] denotes. *)
Definition seven_tenths : float := 0x1.6666666666666p-1%float.

(** [Math.max] of two arguments: NaN wins, and +0 is above -0. *)
Definition max2 (a b : float) : float :=
  if is_nan a then a
  else if is_nan b then b
  else if (a =? b)%float && is_zero a then (a + b)%float
  else if (a <? b)%float then b else a.

(** [Math.max(...xs)]; it is [-Infinity] without arguments. *)
Definition Math_max (xs : list float) : float := fold_left max2 xs neg_infinity.

(** Truthiness. *)
Definition truthy (v : value) : bool :=
  match v with
  | VNull => false
  | VBool b => b
  | VInt n => negb (n =? 0)%Z
  | VNum x => negb (falsy_num x)
  | VStr s => negb (String.eqb s "")
  | VArr _ | VObj _ => true
  end.

(** *** Property keys *)

Definition digit_of (c : ascii) : option N :=
  let n := N_of_ascii c in
  if ((48 <=? n) && (n <=? 57))%N then Some (n - 48)%N else None.

Fixpoint digits_value (s : string) (acc : N) : option N :=
  match s with
  | EmptyString => Some acc
  | String c r =>
      match digit_of c with
      | Some d => digits_value r (10 * acc + d)%N
      | None => None
      end
  end.

(** A key is an array index when it is the canonical numeral of an
    integer in 0 .. 2^32 - 2. *)
Definition array_index (s : string) : option N :=
  match s with
  | EmptyString => None
  | String "0"%char EmptyString => Some 0%N
  | String "0"%char _ => None
  | _ =>
      match digits_value s 0 with
      | Some n => if (n <=? 4294967294)%N then Some n else None
      | None => None
      end
  end.

(** Whether a key that is being created goes before the existing key
    [k'] in the enumeration order. *)
Definition key_before (k k' : string) : bool :=
  match array_index k, array_index k' with
  | Some n, Some n' => (n <? n')%N
  | Some _, None => true
  | None, _ => false
  end.

Section Objects.
Context {V : Type}.

(** [o[k]] restricted to own properties. *)
Fixpoint oget (o : obj V) (k : string) : option V :=
  match o with
  | [] => None
  | (k', v) :: r => if String.eqb k k' then Some v else oget r k
  end.

Fixpoint oreplace (k : string) (v : V) (o : obj V) : obj V :=
  match o with
  | [] => []
  | (k', v') :: r =>
      if String.eqb k k' then (k', v) :: r else (k', v') :: oreplace k v r
  end.

Fixpoint oinsert (k : string) (v : V) (o : obj V) : obj V :=
  match o with
  | [] => [(k, v)]
  | (k', v') :: r =>
      if key_before k k' then (k, v) :: (k', v') :: r
      else (k', v') :: oinsert k v r
  end.

(** [o[k] = v] on a plain data property: an existing key keeps its
    place, a new key is created at its place in the order. *)
Definition oset (k : string) (v : V) (o : obj V) : obj V :=
  match oget o k with
  | Some _ => oreplace k v o
  | None => oinsert k v o
  end.

(** [Object.keys(o)]. *)
Definition okeys (o : obj V) : list string := map fst o.

(** [Object.values(o)]. *)
Definition ovalues (o : obj V) : list V := map snd o.

(** [{...a, ...b}]: the properties of [b] are copied over a copy of
    [a] in their enumeration order. *)
Definition ospread (a b : obj V) : obj V :=
  fold_left (fun acc kv => oset (fst kv) (snd kv) acc) b a.

(** The value that copying the properties of [b] in order leaves
    under [k]: the last one listed. *)
Definition last_value (b : obj V) (k : string) : option V := oget (rev b) k.
End Objects.

(** The members every object inherits from [Object.prototype].  A read
    [o[k]] of a key that [o] does not own finds them. *)
Definition Object_prototype : list string :=
  [ "constructor"; "__defineGetter__"; "__defineSetter__"; "hasOwnProperty";
    "__lookupGetter__"; "__lookupSetter__"; "isPrototypeOf";
    "propertyIsEnumerable"; "toString"; "valueOf"; "__proto__";
    "toLocaleString" ]%string.

Definition inherited (k : string) : bool :=
  existsb (String.eqb k) Object_prototype.

(** *** Strings *)

Definition code (c : ascii) : nat := nat_of_ascii c.

Definition between (lo hi n : nat) : bool := (lo <=? n)%nat && (n <=? hi)%nat.

(** [toLowerCase] on one code unit.  Only A-Z are mapped: a code unit
    above 127 is no word character in either case. *)
Definition lower (c : ascii) : ascii :=
  if between 65 90 (code c) then ascii_of_nat (code c + 32) else c.

(** The class [\w]. *)
Definition is_word (c : ascii) : bool :=
  between 97 122 (code c) || between 65 90 (code c)
  || between 48 57 (code c) || (code c =? 95)%nat.

(** The class [\s] among the code units 0..255. *)
Definition is_space (c : ascii) : bool :=
  between 9 13 (code c) || (code c =? 32)%nat || (code c =? 160)%nat.

(** [s.split(/\s+/)]: the pieces between the maximal runs of white
    space; a run at either end leaves an empty piece there. *)
Fixpoint split_ws (cs cur : list ascii) (in_run : bool) : list string :=
  match cs with
  | [] => [string_of_list_ascii (rev cur)]
  | c :: r =>
      if is_space c then
        if in_run then split_ws r cur true
        else string_of_list_ascii (rev cur) :: split_ws r [] true
      else split_ws r (c :: cur) false
  end.

(** [array.slice(0, limit)] for an integer [limit]. *)
Definition slice0 {A : Type} (limit : Z) (l : list A) : list A :=
  if (limit <? 0)%Z
  then firstn (Z.to_nat (Z.max (Z.of_nat (List.length l) + limit) 0)) l
  else firstn (Z.to_nat limit) l.

(** The numeral of an integer, as template literals print an integer
    of magnitude up to 2^53. *)
Definition numeral (n : Z) : string := NilZero.string_of_int (Z.to_int n).

End JS.

Import JS.

(** ** SimpleEmbedding *)

(** A sparse vector: token to weight. *)
Definition embedding : Type := obj float.

Module SimpleEmbedding.

(** [tokenize(text)] *)
Definition tokenize (text : string) : list string :=
  let lowered := map lower (list_ascii_of_string text) in
  let kept := filter (fun c => is_word c || is_space c) lowered in
  filter (fun word => (0 <? String.length word)%nat) (split_ws kept [] false).

(** A value held in the [freq] dictionary: a count, or the text that
    [+ 1] makes of an inherited member. *)
Inductive fval : Type :=
| FNum (x : float)
| FStr.

Definition to_number (v : fval) : float :=
  match v with FNum x => x | FStr => nan end.

(** [freq[token] = (freq[token] || 0) + 1].  The read finds inherited
    members, which are truthy and not numbers; the write to
    [__proto__] goes to the inherited setter, which ignores a string. *)
Definition count_token (freq : obj fval) (token : string) : obj fval :=
  let next :=
    match oget freq token with
    | Some (FNum x) => FNum (or_zero x + 1)%float
    | Some FStr => FStr
    | None => if inherited token then FStr else FNum (0 + 1)%float
    end in
  if String.eqb token "__proto__" then freq else oset token next freq.

(** [computeEmbedding(text)] *)
Definition computeEmbedding (text : string) : embedding :=
  let tokens := tokenize text in
  let freq := fold_left count_token tokens [] in
  let maxFreq := Math_max (map to_number (ovalues freq)) in
  fold_left
    (fun (emb : embedding) token =>
       match oget freq token with
       | Some v => oset token (to_number v / maxFreq)%float emb
       | None => emb
       end)
    (okeys freq) [].

(** [embedding[key] || 0].  A key the vector does not own but inherits
    yields a truthy non-number, which every product turns into NaN. *)
Definition weight (e : embedding) (key : string) : float :=
  match oget e key with
  | Some x => or_zero x
  | None => if inherited key then nan else 0%float
  end.

(** [new Set([...keys1, ...keys2])] in iteration order. *)
Fixpoint union_keys (seen : list string) (ks : list string) : list string :=
  match ks with
  | [] => []
  | k :: r =>
      if existsb (String.eqb k) seen then union_keys seen r
      else k :: union_keys (k :: seen) r
  end.

Definition allKeys (e1 e2 : embedding) : list string :=
  union_keys [] (okeys e1 ++ okeys e2).

(** The three accumulators of the loop. *)
Record sums : Type := { dotProduct : float; norm1 : float; norm2 : float }.

Definition accumulate (e1 e2 : embedding) (acc : sums) (key : string) : sums :=
  let val1 := weight e1 key in
  let val2 := weight e2 key in
  {| dotProduct := (dotProduct acc + val1 * val2)%float;
     norm1 := (norm1 acc + val1 * val1)%float;
     norm2 := (norm2 acc + val2 * val2)%float |}.

Definition loop (e1 e2 : embedding) : sums :=
  fold_left (accumulate e1 e2) (allKeys e1 e2)
    {| dotProduct := 0%float; norm1 := 0%float; norm2 := 0%float |}.

(** The divisor of the final quotient. *)
Definition divisor (s : sums) : float := (sqrt (norm1 s) * sqrt (norm2 s))%float.

(** [cosineSimilarity(embedding1, embedding2)] on two objects. *)
Definition cosineSimilarity (e1 e2 : embedding) : float :=
  let s := loop e1 e2 in
  if (norm1 s =? 0)%float || (norm2 s =? 0)%float then 0%float
  else (dotProduct s / divisor s)%float.

End SimpleEmbedding.

(** ** The clock *)

(** [new Date()] reads an instant, in milliseconds since the epoch; it
    is an argument [now] of every operation that reads the clock.
    [toISOString] prints an instant and [Date_getTime v] is
    [new Date(v).getTime()], where [None] is NaN.  The one law the
    store relies on: an instant printed by [toISOString] parses back. *)
Record Clock : Type := {
  toISOString : Z -> string;
  Date_getTime : value -> option Z;
  getTime_toISOString :
    forall t : Z, Date_getTime (VStr (toISOString t)) = Some t
}.

(** ** Memory *)

Record Memory : Type := {
  id : string;
  content : string;
  metadata : obj value;
  embeddings : option embedding;      (* [None] is [null] *)
  tags : value
}.

Definition set_metadata (md : obj value) (m : Memory) : Memory :=
  {| id := id m; content := content m; metadata := md;
     embeddings := embeddings m; tags := tags m |}.

Definition set_embeddings (e : option embedding) (m : Memory) : Memory :=
  {| id := id m; content := content m; metadata := metadata m;
     embeddings := e; tags := tags m |}.

Definition set_tags (t : value) (m : Memory) : Memory :=
  {| id := id m; content := content m; metadata := metadata m;
     embeddings := embeddings m; tags := t |}.

(** [v || []] *)
Definition or_empty_array (v : option value) : value :=
  match v with
  | Some x => if truthy x then x else VArr []
  | None => VArr []
  end.

(** [new Memory(id, content, metadata)]; [tagsOf] is [metadata.tags]. *)
Definition Memory_new (clk : Clock) (now : Z) (id0 content0 : string)
    (props : obj value) (tagsOf : option value) : Memory :=
  {| id := id0;
     content := content0;
     metadata := ospread [("timestamp"%string, VStr (toISOString clk now))] props;
     embeddings := None;
     tags := or_empty_array tagsOf |}.

(** [memory.updateContent(newContent)] *)
Definition updateContent (clk : Clock) (now : Z) (newContent : string)
    (m : Memory) : Memory :=
  {| id := id m;
     content := newContent;
     metadata := oset "lastUpdated"%string (VStr (toISOString clk now)) (metadata m);
     embeddings := None;
     tags := tags m |}.

(** [new Date(memory.metadata.timestamp).getTime()] *)
Definition time_of (clk : Clock) (m : Memory) : option Z :=
  match oget (metadata m) "timestamp"%string with
  | Some v => Date_getTime clk v
  | None => None
  end.

(** ** Mem0 *)

Record Config : Type := {
  maxMemories : Z;
  similarityThreshold : option float;      (* [None] is [null] *)
  autoExpire : bool;
  expireAfterDays : Z
}.

(** The argument of the constructor: every field may be left out. *)
Record Options : Type := {
  opt_maxMemories : option Z;
  opt_similarityThreshold : option float;
  opt_autoExpire : option bool;
  opt_expireAfterDays : option Z
}.

Definition no_options : Options :=
  {| opt_maxMemories := None; opt_similarityThreshold := None;
     opt_autoExpire := None; opt_expireAfterDays := None |}.

Record Mem0 : Type := {
  memories : list (string * Memory);
  config : Config;
  nextId : Z
}.

Inductive error : Type := TypeError | NotFound.

Inductive result (A : Type) : Type :=
| Ret (a : A)
| Throw (e : error).
Arguments Ret {A} a.
Arguments Throw {A} e.

(** One element of a search result.  [ref] is the key under which the
    store holds the record that the field [memory] refers to. *)
Record Hit : Type := {
  ref : string;
  memory : Memory;
  similarity : float;
  hit_id : string
}.

Module Store.

Import SimpleEmbedding.

(** *** The Map of records *)

Fixpoint mget (ms : list (string * Memory)) (k : string) : option Memory :=
  match ms with
  | [] => None
  | (k', m) :: r => if String.eqb k k' then Some m else mget r k
  end.

(** [map.set(k, m)]: an existing key keeps its place. *)
Fixpoint mset (k : string) (m : Memory) (ms : list (string * Memory))
    : list (string * Memory) :=
  match ms with
  | [] => [(k, m)]
  | (k', m') :: r =>
      if String.eqb k k' then (k', m) :: r else (k', m') :: mset k m r
  end.

(** [map.delete(k)] *)
Definition mdelete (k : string) (ms : list (string * Memory))
    : list (string * Memory) :=
  filter (fun entry => negb (String.eqb k (fst entry))) ms.

Definition mhas (ms : list (string * Memory)) (k : string) : bool :=
  match mget ms k with Some _ => true | None => false end.

Definition size (s : Mem0) : Z := Z.of_nat (List.length (memories s)).

Definition with_memories (ms : list (string * Memory)) (s : Mem0) : Mem0 :=
  {| memories := ms; config := config s; nextId := nextId s |}.

Definition with_nextId (n : Z) (s : Mem0) : Mem0 :=
  {| memories := memories s; config := config s; nextId := n |}.

Definition with_config (c : Config) (s : Mem0) : Mem0 :=
  {| memories := memories s; config := c; nextId := nextId s |}.

(** *** Construction *)

(** [new Mem0(config)]: a falsy setting falls back to the default. *)
Definition Mem0_new (o : Options) : Mem0 :=
  {| memories := [];
     config :=
       {| maxMemories :=
            match opt_maxMemories o with
            | Some n => if (n =? 0)%Z then 1000%Z else n
            | None => 1000%Z
            end;
          similarityThreshold :=
            Some match opt_similarityThreshold o with
                 | Some x => if falsy_num x then seven_tenths else x
                 | None => seven_tenths
                 end;
          autoExpire :=
            match opt_autoExpire o with Some b => b | None => false end;
          expireAfterDays :=
            match opt_expireAfterDays o with
            | Some n => if (n =? 0)%Z then 30%Z else n
            | None => 30%Z
            end |};
     nextId := 1 |}.

(** *** Search *)

(** The loop of [search]: [cosineSimilarity] calls [Object.keys] on the
    record's vector, which throws a TypeError on [null]. *)
Fixpoint scan (queryEmbedding : embedding) (entries : list (string * Memory))
    : result (list Hit) :=
  match entries with
  | [] => Ret []
  | (k, m) :: r =>
      match embeddings m with
      | None => Throw TypeError
      | Some e =>
          let sim := cosineSimilarity queryEmbedding e in
          match scan queryEmbedding r with
          | Throw err => Throw err
          | Ret hits =>
              if (0 <? sim)%float
              then Ret ({| ref := k; memory := m; similarity := sim;
                           hit_id := id m |} :: hits)
              else Ret hits
          end
      end
  end.

(** The comparator [(a, b) => b.similarity - a.similarity]. *)
Definition compare_hits (a b : Hit) : float :=
  (similarity b - similarity a)%float.

(** [sort] is stable: an element moves behind the elements that the
    comparator puts strictly before it, and behind no other. *)
Fixpoint insert_hit (x : Hit) (l : list Hit) : list Hit :=
  match l with
  | [] => [x]
  | y :: r =>
      if (0 <? compare_hits x y)%float then y :: insert_hit x r
      else x :: y :: r
  end.

Definition sort_hits (l : list Hit) : list Hit := fold_right insert_hit [] l.

(** [search(query, limit)] *)
Definition search (query : string) (limit : Z) (s : Mem0) : result (list Hit) :=
  match scan (computeEmbedding query) (memories s) with
  | Throw err => Throw err
  | Ret results => Ret (slice0 limit (sort_hits results))
  end.

(** [findSimilar(content, limit)] *)
Definition findSimilar (content0 : string) (limit : Z) (s : Mem0)
    : result (list Hit) :=
  search content0 limit s.

(** *** Eviction *)

(** One round of the loop of [evictOldest] on the pair
    [(oldestId, oldestTime)]; the time [None] is [Infinity].  A
    timestamp that is no date gives NaN, and [NaN < t] is false. *)
Definition older (clk : Clock) (acc : option string * option Z)
    (entry : string * Memory) : option string * option Z :=
  match time_of clk (snd entry) with
  | None => acc
  | Some time =>
      match snd acc with
      | None => (Some (fst entry), Some time)
      | Some oldestTime =>
          if (time <? oldestTime)%Z then (Some (fst entry), Some time)
          else acc
      end
  end.

Definition oldest (clk : Clock) (ms : list (string * Memory))
    : option string * option Z :=
  fold_left (older clk) ms (None, None).

(** [evictOldest()]; the guard [if (oldestId)] is false on [null] and,
    of the keys that are strings, on the empty string. *)
Definition evictOldest (clk : Clock) (s : Mem0) : Mem0 :=
  match fst (oldest clk (memories s)) with
  | Some oldestId =>
      if String.eqb oldestId "" then s
      else with_memories (mdelete oldestId (memories s)) s
  | None => s
  end.

(** *** Mutation *)

(** The branch of [add] that folds the content into the record found. *)
Definition merge_into (clk : Clock) (now : Z) (content0 : string)
    (props : obj value) (existingMemory : Memory) : Memory :=
  let updated := updateContent clk now content0 existingMemory in
  set_metadata (ospread (metadata updated) props) updated.

(** The branch of [add] that stores a new record and enforces the
    limit. *)
Definition insert_record (clk : Clock) (k : string) (m : Memory) (s : Mem0)
    : Mem0 :=
  let s2 := with_memories (mset k m (memories s)) s in
  if (maxMemories (config s2) <? size s2)%Z then evictOldest clk s2 else s2.

(** The number that [similarity > this.config.similarityThreshold]
    compares with: [null] converts to [0]. *)
Definition threshold (c : Config) : float :=
  match similarityThreshold c with
  | Some x => x
  | None => 0%float
  end.

(** [add(content, metadata)] *)
Definition add (clk : Clock) (now : Z) (content0 : string) (props : obj value)
    (s : Mem0) : result string * Mem0 :=
  let id0 := ("mem_" ++ numeral (nextId s))%string in
  let s1 := with_nextId (increment (nextId s)) s in
  let memory0 :=
    set_embeddings (Some (computeEmbedding content0))
      (Memory_new clk now id0 content0 props (oget props "tags"%string)) in
  match findSimilar content0 1 s1 with
  | Throw err => (Throw err, s1)
  | Ret similar =>
      match similar with
      | hit :: _ =>
          if (threshold (config s1) <? similarity hit)%float
          then
            let merged := merge_into clk now content0 props (memory hit) in
            (Ret (id merged),
             with_memories (mset (ref hit) merged (memories s1)) s1)
          else (Ret id0, insert_record clk id0 memory0 s1)
      | [] => (Ret id0, insert_record clk id0 memory0 s1)
      end
  end.

(** [get(id)]; [None] is [null]. *)
Definition get (k : string) (s : Mem0) : option Memory := mget (memories s) k.

(** [update(id, content, metadata)] *)
Definition update (clk : Clock) (now : Z) (k : string) (content0 : string)
    (props : obj value) (s : Mem0) : result Memory * Mem0 :=
  match mget (memories s) k with
  | None => (Throw NotFound, s)
  | Some m =>
      let updated := updateContent clk now content0 m in
      let merged := set_metadata (ospread (metadata updated) props) updated in
      let final := set_embeddings (Some (computeEmbedding content0)) merged in
      (Ret final, with_memories (mset k final (memories s)) s)
  end.

(** [delete(id)] *)
Definition delete (k : string) (s : Mem0) : bool * Mem0 :=
  (mhas (memories s) k, with_memories (mdelete k (memories s)) s).

(** [clear()] *)
Definition clear (s : Mem0) : Mem0 :=
  {| memories := []; config := config s; nextId := 1 |}.

(** [cleanupExpired()]; [cutoff] is the instant that the calendar
    arithmetic on [new Date()] yields. *)
Definition cleanupExpired (clk : Clock) (cutoff : Z) (s : Mem0) : Mem0 :=
  if negb (autoExpire (config s)) then s
  else
    with_memories
      (filter
         (fun entry =>
            match time_of clk (snd entry) with
            | Some t => negb (t <? cutoff)%Z
            | None => true
            end)
         (memories s))
      s.

End Store.

(** ** Snapshots *)

(** A snapshot text is represented by the data that [JSON.parse] reads
    from it; a text that [JSON.parse] rejects is [None].  The store is
    typed, so [import] is modelled on the snapshots whose stored parts
    have the types that the store itself writes: keys, ids and contents
    are strings, counters integers, the weights numbers or [null], the
    threshold a number or [null] (what a threshold that is not finite
    is written as), the flag a boolean.  On any other snapshot the
    model gives no answer ([None]). *)

Module Snapshot.

Import SimpleEmbedding Store.

(** What [JSON.parse] reads back from what [JSON.stringify] wrote: a
    number that is not finite is written as [null], and a negative zero
    as [0]. *)
Definition number_JSON (x : float) : value :=
  if is_finite x
  then (if is_zero x && get_sign x then VNum 0%float else VNum x)
  else VNull.

Fixpoint to_JSON (v : value) : value :=
  match v with
  | VNum x => number_JSON x
  | VArr l => VArr (map to_JSON l)
  | VObj o => VObj (map (fun kv => (fst kv, to_JSON (snd kv))) o)
  | _ => v
  end.

Definition object_JSON (o : obj value) : obj value :=
  map (fun kv => (fst kv, to_JSON (snd kv))) o.

Definition embeddings_JSON (e : option embedding) : value :=
  match e with
  | None => VNull
  | Some w => VObj (map (fun kv => (fst kv, number_JSON (snd kv))) w)
  end.

Definition memory_JSON (m : Memory) : value :=
  VObj [ ("id", VStr (id m));
         ("content", VStr (content m));
         ("metadata", VObj (object_JSON (metadata m)));
         ("embeddings", embeddings_JSON (embeddings m));
         ("tags", to_JSON (tags m)) ]%string.

Definition config_JSON (c : Config) : value :=
  VObj [ ("maxMemories", VInt (maxMemories c));
         ("similarityThreshold",
          match similarityThreshold c with
          | Some x => number_JSON x
          | None => VNull
          end);
         ("autoExpire", VBool (autoExpire c));
         ("expireAfterDays", VInt (expireAfterDays c)) ]%string.

(** [export()], read back by [JSON.parse]. *)
Definition export (clk : Clock) (now : Z) (s : Mem0) : value :=
  VObj [ ("memories",
          VArr (map (fun entry => VArr [VStr (fst entry); memory_JSON (snd entry)])
                  (memories s)));
         ("config", config_JSON (config s));
         ("nextId", VInt (nextId s));
         ("exportDate", VStr (toISOString clk now)) ]%string.

Definition one_char (c : ascii) : value := VStr (String c EmptyString).

Fixpoint indexed (i : Z) (l : list value) : obj value :=
  match l with
  | [] => []
  | v :: r => (numeral i, v) :: indexed (i + 1) r
  end.

(** The own enumerable properties that [{...v}] copies. *)
Definition spread_value (v : option value) : obj value :=
  match v with
  | Some (VObj o) => o
  | Some (VArr l) => indexed 0 l
  | Some (VStr s) => indexed 0 (map one_char (list_ascii_of_string s))
  | _ => []
  end.

(** The elements that [for ... of v] and [[a, b] = v] run through;
    [None] when [v] is not iterable, which throws a TypeError. *)
Definition iterate (v : option value) : option (list value) :=
  match v with
  | Some (VArr l) => Some l
  | Some (VStr s) => Some (map one_char (list_ascii_of_string s))
  | _ => None
  end.

(** [v.k] for the names that [import] reads ([config], [nextId],
    [memories], [id], [content], [metadata], [embeddings], [tags]),
    none of which a string, an array or [Object.prototype] has; the
    value [v] is not [null]. *)
Definition prop (v : value) (k : string) : option value :=
  match v with
  | VObj o => oget o k
  | _ => None
  end.

(** One property copied by [{...this.config, ...data.config}]. *)
Definition merge_setting (c : option Config) (kv : string * value)
    : option Config :=
  match c with
  | None => None
  | Some c =>
      let k := fst kv in
      if String.eqb k "maxMemories" then
        match snd kv with
        | VInt n =>
            Some {| maxMemories := n;
                    similarityThreshold := similarityThreshold c;
                    autoExpire := autoExpire c;
                    expireAfterDays := expireAfterDays c |}
        | _ => None
        end
      else if String.eqb k "similarityThreshold" then
        match snd kv with
        | VNum x =>
            Some {| maxMemories := maxMemories c;
                    similarityThreshold := Some x;
                    autoExpire := autoExpire c;
                    expireAfterDays := expireAfterDays c |}
        | VInt n =>
            Some {| maxMemories := maxMemories c;
                    similarityThreshold := Some (float_of_Z n);
                    autoExpire := autoExpire c;
                    expireAfterDays := expireAfterDays c |}
        | VNull =>
            Some {| maxMemories := maxMemories c;
                    similarityThreshold := None;
                    autoExpire := autoExpire c;
                    expireAfterDays := expireAfterDays c |}
        | _ => None
        end
      else if String.eqb k "autoExpire" then
        match snd kv with
        | VBool b =>
            Some {| maxMemories := maxMemories c;
                    similarityThreshold := similarityThreshold c;
                    autoExpire := b;
                    expireAfterDays := expireAfterDays c |}
        | _ => None
        end
      else if String.eqb k "expireAfterDays" then
        match snd kv with
        | VInt n =>
            Some {| maxMemories := maxMemories c;
                    similarityThreshold := similarityThreshold c;
                    autoExpire := autoExpire c;
                    expireAfterDays := n |}
        | _ => None
        end
      else None
  end.

Definition merge_config (c : Config) (v : option value) : option Config :=
  fold_left merge_setting (spread_value v) (Some c).

(** [data.nextId || 1] *)
Definition read_nextId (v : option value) : option Z :=
  match v with
  | None => Some 1%Z
  | Some x =>
      if truthy x then match x with VInt n => Some n | _ => None end
      else Some 1%Z
  end.

(** A weight read from a snapshot; [null] is what a NaN was written as,
    and [null || 0] is [0] as [NaN || 0] is. *)
Definition read_weight (w : option embedding) (kv : string * value)
    : option embedding :=
  match w with
  | None => None
  | Some e =>
      match snd kv with
      | VNum x => Some (e ++ [(fst kv, x)])
      | VInt n => Some (e ++ [(fst kv, float_of_Z n)])
      | VNull => Some (e ++ [(fst kv, nan)])
      | _ => None
      end
  end.

(** [memoryData.embeddings]: outer [None] is a value that is no vector. *)
Definition read_embeddings (v : option value) : option (option embedding) :=
  match v with
  | None | Some VNull => Some None
  | Some (VObj o) =>
      match fold_left read_weight o (Some []) with
      | Some e => Some (Some e)
      | None => None
      end
  | _ => None
  end.

Inductive reading : Type :=
| Read (m : Memory)
| Thrown                     (* a TypeError, caught by [import] *)
| Untyped.                   (* a record that the typed store cannot hold *)

(** The body of the loop of [import] for one [memoryData] that is
    neither [undefined] nor [null]. *)
Definition read_memory (clk : Clock) (now : Z) (memoryData : value) : reading :=
  match prop memoryData "metadata" with
  | Some VNull => Thrown                       (* [metadata.tags] on [null] *)
  | md =>
      match prop memoryData "id", prop memoryData "content",
            read_embeddings (prop memoryData "embeddings") with
      | Some (VStr id0), Some (VStr content0), Some e =>
          let tagsOf := match md with Some v => prop v "tags" | None => None end in
          let m := Memory_new clk now id0 content0 (spread_value md) tagsOf in
          Read (set_tags (or_empty_array (prop memoryData "tags"))
                  (set_embeddings e m))
      | _, _, _ => Untyped
      end
  end.

(** The loop [for (const [id, memoryData] of data.memories)]. *)
Fixpoint import_entries (clk : Clock) (now : Z) (entries : list value)
    (s : Mem0) : option (bool * Mem0) :=
  match entries with
  | [] => Some (true, s)
  | entry :: rest =>
      match iterate (Some entry) with
      | None => Some (false, s)
      | Some parts =>
          match nth_error parts 1 with
          | None | Some VNull => Some (false, s)
          | Some memoryData =>
              match read_memory clk now memoryData with
              | Thrown => Some (false, s)
              | Untyped => None
              | Read m =>
                  match nth_error parts 0 with
                  | Some (VStr k) =>
                      import_entries clk now rest
                        (with_memories (mset k m (memories s)) s)
                  | _ => None
                  end
              end
          end
      end
  end.

(** [import(jsonData)]: the flag returned and the store left behind. *)
Definition import (clk : Clock) (now : Z) (jsonData : option value) (s : Mem0)
    : option (bool * Mem0) :=
  match jsonData with
  | None => Some (false, s)
  | Some data =>
      let s1 := with_memories [] s in
      match data with
      | VNull => Some (false, s1)                 (* [data.config] on [null] *)
      | _ =>
          match merge_config (config s1) (prop data "config") with
          | None => None
          | Some c =>
              let s2 := with_config c s1 in
              match read_nextId (prop data "nextId") with
              | None => None
              | Some n =>
                  let s3 := with_nextId n s2 in
                  match iterate (prop data "memories") with
                  | None => Some (false, s3)
                  | Some entries => import_entries clk now entries s3
                  end
              end
          end
      end
  end.

End Snapshot.

(** ** States that the public operations reach *)

(** The stores that a sequence of public operations leaves behind,
    starting from the constructor.  An operation that throws still
    leaves a store.  With [with_import = false] the sequence does not
    use [import]. *)
Inductive reachable (clk : Clock) (with_import : bool) : Mem0 -> Prop :=
| reach_new (o : Options) :
    reachable clk with_import (Store.Mem0_new o)
| reach_add (s : Mem0) (now : Z) (content0 : string) (props : obj value) :
    reachable clk with_import s ->
    reachable clk with_import (snd (Store.add clk now content0 props s))
| reach_update (s : Mem0) (now : Z) (k content0 : string) (props : obj value) :
    reachable clk with_import s ->
    reachable clk with_import (snd (Store.update clk now k content0 props s))
| reach_delete (s : Mem0) (k : string) :
    reachable clk with_import s ->
    reachable clk with_import (snd (Store.delete k s))
| reach_clear (s : Mem0) :
    reachable clk with_import s ->
    reachable clk with_import (Store.clear s)
| reach_sweep (s : Mem0) (cutoff : Z) :
    reachable clk with_import s ->
    reachable clk with_import (Store.cleanupExpired clk cutoff s)
| reach_import (s : Mem0) (now : Z) (jsonData : option value)
    (flag : bool) (s' : Mem0) :
    with_import = true ->
    reachable clk with_import s ->
    Snapshot.import clk now jsonData s = Some (flag, s') ->
    reachable clk with_import s'.

(** ** The properties in question *)

Module Props.

Import SimpleEmbedding Store Snapshot.

(** The vector of a record is absent or is the vector of its content. *)
Definition fresh_vector (m : Memory) : Prop :=
  embeddings m = None \/ embeddings m = Some (computeEmbedding (content m)).

Definition fresh_vectors (s : Mem0) : Prop :=
  forall k m, In (k, m) (memories s) -> fresh_vector m.

(** A timestamp given in the metadata of a call, if any, is a date. *)
Definition dated (clk : Clock) (v : option value) : bool :=
  match v with
  | Some x => match Date_getTime clk x with Some _ => true | None => false end
  | None => true
  end.

Definition keys_nonempty (ms : list (string * Memory)) : bool :=
  forallb (fun entry => negb (String.eqb (fst entry) "")) ms.

(** [m] is a record of [ms] that carries a date, and no record of [ms]
    carries an earlier one. *)
Definition is_oldest (clk : Clock) (ms : list (string * Memory))
    (k : string) (m : Memory) : Prop :=
  In (k, m) ms /\
  exists t, time_of clk m = Some t /\
    forall k' m' t', In (k', m') ms -> time_of clk m' = Some t' -> (t <= t')%Z.









(** Data that JSON text carries unchanged. *)
Fixpoint json_data (v : value) : bool :=
  match v with
  | VNum x => is_finite x && negb (is_zero x && get_sign x)
  | VArr l => forallb json_data l
  | VObj o => forallb (fun kv => json_data (snd kv)) o
  | _ => true
  end.

Fixpoint distinct (ks : list string) : bool :=
  match ks with
  | [] => true
  | k :: r => negb (existsb (String.eqb k) r) && distinct r
  end.

Definition has_timestamp (m : Memory) : bool :=
  match oget (metadata m) "timestamp" with Some _ => true | None => false end.

Definition exportable_memory (m : Memory) : bool :=
  json_data (tags m) && truthy (tags m) && has_timestamp m
  && distinct (okeys (metadata m))
  && forallb (fun kv => json_data (snd kv)) (metadata m).

(** A store that a snapshot can carry: its keys are distinct, as are
    the keys of every metadata object; every record has a timestamp,
    tags that are truthy and metadata and tags that are JSON data; the
    counter is not zero. *)
Definition exportable (s : Mem0) : bool :=
  distinct (map fst (memories s))
  && forallb (fun entry => exportable_memory (snd entry)) (memories s)
  && negb (nextId s =? 0)%Z.

(** The shape that the operations of the store keep: truthy tags, a
    timestamp, metadata with distinct keys; distinct keys and a
    positive counter. *)
Definition well_formed_memory (m : Memory) : bool :=
  truthy (tags m) && has_timestamp m && distinct (okeys (metadata m)).

Definition well_formed (s : Mem0) : bool :=
  distinct (map fst (memories s))
  && forallb (fun entry => well_formed_memory (snd entry)) (memories s)
  && (0 <? nextId s)%Z.


(** A fresh store of the configuration of [s]. *)
Definition fresh_like (s : Mem0) : Mem0 :=
  {| memories := []; config := config s; nextId := 1 |}.

Definition same_metadata (a b : obj value) : Prop :=
  forall k, oget a k = oget b k.

Definition same_record (m m' : Memory) : Prop :=
  id m = id m' /\ content m = content m' /\ tags m = tags m' /\
  same_metadata (metadata m) (metadata m').

(** The same keys in the same order, holding the same records. *)
Definition same_records (s s' : Mem0) : Prop :=
  Forall2 (fun e e' => fst e = fst e' /\ same_record (snd e) (snd e'))
    (memories s) (memories s').

Definition whitespace (text : string) : bool :=
  forallb is_space (list_ascii_of_string text).

(** No key of the vector names a member of [Object.prototype]. *)
Definition plain_keys (e : embedding) : bool :=
  forallb (fun k => negb (inherited k)) (okeys e).

Definition finite_weights (e : embedding) : bool :=
  forallb (fun kv => is_finite (snd kv)) e.

Definition disjoint_keys (e1 e2 : embedding) : bool :=
  forallb (fun k => negb (existsb (String.eqb k) (okeys e2))) (okeys e1).

(** In the dictionary of counts, an inherited member is never counted
    as a number. *)
Definition uncounted (freq : obj fval) : Prop :=
  forall k, inherited k = true -> oget freq k = None \/ oget freq k = Some FStr.

(** The squared norm that the loop accumulates for a vector against
    itself. *)
Definition squared_norm (e : embedding) : float := norm1 (loop e e).

End Props.

(** ** Classes of numbers *)

(** A number that is at least 2^-537: an infinity, or a mantissa and an
    exponent of that magnitude. *)
Definition big (sf : spec_float) : Prop :=
  sf = S754_infinity false
  \/ exists m e,
       sf = S754_finite false m e /\ (-536 <= Zpos (digits2_pos m) + e)%Z.

(** Zero, a positive number or the positive infinity. *)
Definition nonneg (sf : spec_float) : Prop :=
  match sf with
  | S754_zero false | S754_finite false _ _ | S754_infinity false => True
  | _ => False
  end.

(** A positive number or the positive infinity. *)
Definition positive (sf : spec_float) : Prop :=
  match sf with
  | S754_finite false _ _ | S754_infinity false => True
  | _ => False
  end.

(** Zero or a finite number, of either sign. *)
Definition finite_class (sf : spec_float) : Prop :=
  match sf with
  | S754_zero _ | S754_finite _ _ _ => True
  | _ => False
  end.

(** ** A clock and stores for the worked examples *)

Module Example.

Import SimpleEmbedding Store Snapshot.

(** A clock whose date text is the numeral of the instant. *)
Definition numeral_time (v : value) : option Z :=
  match v with
  | VStr s => option_map Z.of_int (NilZero.int_of_string s)
  | _ => None
  end.

Definition clock : Clock.
Proof.
  refine {| toISOString := numeral; Date_getTime := numeral_time |}.
  intro t. unfold numeral_time, numeral.
  rewrite <- (DecimalZ.of_to t) at 2.
  destruct (Z.to_int t) as [u | u]; destruct u;
    try reflexivity; rewrite NilZero.isi; try reflexivity; discriminate.
Defined.

Definition fresh : Mem0 := Mem0_new no_options.

(** [add("hello world")] on a fresh store. *)
Definition one_record : Mem0 :=
  snd (add clock 1000 "hello world" [] fresh).

(** Then [add("hello world", {category: "c"})]: a merge. *)
Definition merged : Mem0 :=
  snd (add clock 2000 "hello world" [("category", VStr "c")]%string one_record).

(** Then [update("mem_1", "hello there")] and [add("zebra crossing")]. *)
Definition repaired : Mem0 :=
  snd (update clock 3000 "mem_1" "hello there" [] merged).

Definition two_records : Mem0 :=
  snd (add clock 4000 "zebra crossing" [] repaired).

(** A store of capacity one. *)
Definition small : Mem0 :=
  Mem0_new {| opt_maxMemories := Some 1%Z; opt_similarityThreshold := None;
              opt_autoExpire := None; opt_expireAfterDays := None |}.

Definition record_JSON (k text token stamp : string) : value :=
  VArr [ VStr k;
         VObj [ ("id", VStr k); ("content", VStr text);
                ("metadata", VObj [("timestamp", VStr stamp)]);
                ("embeddings", VObj [(token, VInt 1)]);
                ("tags", VArr []) ] ]%string.

(** A snapshot of two records. *)
Definition two_record_snapshot : value :=
  VObj [ ("memories",
          VArr [ record_JSON "a" "apple" "apple" "100";
                 record_JSON "b" "banana" "banana" "200" ]);
         ("nextId", VInt 3) ]%string.

(** The store of capacity one after [add("apple pie")]. *)
Definition small_full : Mem0 := snd (add clock 1000 "apple pie" [] small).

(** A snapshot that gives a capacity and a counter, without records. *)
Definition headless_snapshot : value :=
  VObj [ ("config", VObj [("maxMemories", VInt 5)]); ("nextId", VInt 7) ]%string.

(** A snapshot whose second entry is [null]. *)
Definition broken_snapshot : value :=
  VObj [ ("memories", VArr [ record_JSON "a" "apple" "apple" "100"; VNull ]);
         ("nextId", VInt 3) ]%string.

(** A snapshot whose record has the empty string as its key. *)
Definition empty_key_snapshot : value :=
  VObj [ ("memories", VArr [ record_JSON "" "apple" "apple" "100" ]);
         ("nextId", VInt 2) ]%string.

(** [import] of it into the store of capacity one. *)
Definition keyless : Mem0 :=
  match import clock 500 (Some empty_key_snapshot) small with
  | Some (_, s) => s
  | None => small
  end.

(** A snapshot whose record carries the vector of another text. *)
Definition stale_snapshot : value :=
  VObj [ ("memories", VArr [ record_JSON "a" "apple" "banana" "100" ]);
         ("nextId", VInt 2) ]%string.

(** [import] of the two records into the store of capacity one. *)
Definition overfull : Mem0 :=
  match import clock 500 (Some two_record_snapshot) small with
  | Some (_, s) => s
  | None => small
  end.

(** [import] of the stale record into a fresh store. *)
Definition stale : Mem0 :=
  match import clock 500 (Some stale_snapshot) fresh with
  | Some (_, s) => s
  | None => fresh
  end.

(** A snapshot without records whose counter is 2^53. *)
Definition counter_snapshot : value :=
  VObj [ ("memories", VArr []); ("nextId", VInt 9007199254740992) ]%string.

(** [import] of it into a fresh store. *)
Definition saturated : Mem0 :=
  match import clock 500 (Some counter_snapshot) fresh with
  | Some (_, s) => s
  | None => fresh
  end.

(** A store whose threshold is [Infinity], after [add("apple")]. *)
Definition unbounded : Mem0 :=
  snd (add clock 1000 "apple" []
         (Mem0_new {| opt_maxMemories := None;
                      opt_similarityThreshold := Some infinity;
                      opt_autoExpire := None; opt_expireAfterDays := None |})).


End Example.

(** ** Tags of a record *)

(** The methods [addTag] and [removeTag] of [Memory], for a tag that
    is a string, as functions of the value that the field [tags]
    holds.  [push] extends the array in place, so that every other
    reference to the same array (the constructor takes the array from
    [metadata.tags]) shows the new element as well; [removeTag] assigns
    a new array to the field. *)

Module Tags.

(** [s.includes(t)] on strings: [t] occurs in [s]. *)
Fixpoint occurs (t s : string) : bool :=
  String.prefix t s
  || match s with
     | EmptyString => false
     | String _ r => occurs t r
     end.

(** [x === tag] *)
Definition is_tag (tag : string) (x : value) : bool :=
  match x with
  | VStr s => String.eqb s tag
  | _ => false
  end.

(** [tags.includes(tag)]: an array and a string have the method; on any
    other value the call throws a TypeError. *)
Definition includes (tags0 : value) (tag : string) : result bool :=
  match tags0 with
  | VArr l => Ret (existsb (is_tag tag) l)
  | VStr s => Ret (occurs tag s)
  | _ => Throw TypeError
  end.

(** [memory.addTag(tag)]: the value of [memory.tags] afterwards.  A
    string has no [push]. *)
Definition addTag (tag : string) (tags0 : value) : result value :=
  match includes tags0 tag with
  | Throw err => Throw err
  | Ret true => Ret tags0
  | Ret false =>
      match tags0 with
      | VArr l => Ret (VArr (l ++ [VStr tag]))
      | _ => Throw TypeError
      end
  end.

(** [memory.removeTag(tag)]: the value of [memory.tags] afterwards.
    Only an array has [filter]. *)
Definition removeTag (tag : string) (tags0 : value) : result value :=
  match tags0 with
  | VArr l => Ret (VArr (filter (fun t => negb (is_tag tag t)) l))
  | _ => Throw TypeError
  end.

End Tags.

(** ** Queries *)

Module Queries.

Import SimpleEmbedding Store Snapshot Tags.

(** *** Sorting *)

(** [array.sort(compare)], which is stable: an element moves behind
    the elements that the comparator puts strictly before it, and
    behind no other.  [after x y] is [compare(x, y) > 0]. *)
Fixpoint insert_by {A : Type} (after : A -> A -> bool) (x : A) (l : list A)
    : list A :=
  match l with
  | [] => [x]
  | y :: r => if after x y then y :: insert_by after x r else x :: y :: r
  end.

Definition sort_by {A : Type} (after : A -> A -> bool) (l : list A) : list A :=
  fold_right (insert_by after) [] l.

(** The comparator
    [(a, b) => new Date(b.metadata.timestamp) - new Date(a.metadata.timestamp)]
    is positive when [b] carries the later instant.  With a timestamp
    that is no date the difference is NaN, which [sort] takes for 0;
    the comparator is then no consistent order and the language leaves
    the order of the result to the implementation. *)
Definition later (clk : Clock) (a b : Memory) : bool :=
  match time_of clk a, time_of clk b with
  | Some ta, Some tb => (ta <? tb)%Z
  | _, _ => false
  end.

(** *** Search by tags *)

(** [tags.every(tag => memoryTags.includes(tag))] *)
Fixpoint every (memoryTags : value) (tags0 : list string) : result bool :=
  match tags0 with
  | [] => Ret true
  | tag :: r =>
      match includes memoryTags tag with
      | Throw err => Throw err
      | Ret true => every memoryTags r
      | Ret false => Ret false
      end
  end.

(** [tags.some(tag => memoryTags.includes(tag))] *)
Fixpoint some (memoryTags : value) (tags0 : list string) : result bool :=
  match tags0 with
  | [] => Ret false
  | tag :: r =>
      match includes memoryTags tag with
      | Throw err => Throw err
      | Ret true => Ret true
      | Ret false => some memoryTags r
      end
  end.

(** The loop of [searchByTags]. *)
Fixpoint tagged (tags0 : list string) (matchAll : bool)
    (entries : list (string * Memory)) : result (list Memory) :=
  match entries with
  | [] => Ret []
  | (_, m) :: r =>
      let memoryTags := or_empty_array (Some (tags m)) in
      match (if matchAll then every memoryTags tags0 else some memoryTags tags0) with
      | Throw err => Throw err
      | Ret matches =>
          match tagged tags0 matchAll r with
          | Throw err => Throw err
          | Ret results => Ret (if matches then m :: results else results)
          end
      end
  end.

(** [searchByTags(tags, matchAll)] for an array of strings. *)
Definition searchByTags (tags0 : list string) (matchAll : bool) (s : Mem0)
    : result (list Memory) :=
  tagged tags0 matchAll (memories s).

(** *** Dates *)

(** [memoryDate >= start && memoryDate <= end]; a comparison with NaN
    is false. *)
Definition in_range (start end_ : option Z) (memoryDate : option Z) : bool :=
  match memoryDate, start, end_ with
  | Some t, Some a, Some b => (a <=? t)%Z && (t <=? b)%Z
  | _, _, _ => false
  end.

(** [getByDateRange(startDate, endDate)] *)
Definition getByDateRange (clk : Clock) (startDate endDate : value) (s : Mem0)
    : list Memory :=
  let start := Date_getTime clk startDate in
  let end_ := Date_getTime clk endDate in
  sort_by (later clk)
    (map snd
       (filter (fun entry => in_range start end_ (time_of clk (snd entry)))
          (memories s))).

(** [getAll()].  With a record whose timestamp is no date the order is
    that of a stable insertion sort, which need not be an engine's. *)
Definition getAll (clk : Clock) (s : Mem0) : list Memory :=
  sort_by (later clk) (map snd (memories s)).

(** *** Statistics *)

(** A date as a number: [None] is NaN, which [Math.min] and [Math.max]
    return as soon as one argument is NaN. *)
Definition earlier (a b : option Z) : option Z :=
  match a, b with
  | Some x, Some y => Some (Z.min x y)
  | _, _ => None
  end.

Definition latest (a b : option Z) : option Z :=
  match a, b with
  | Some x, Some y => Some (Z.max x y)
  | _, _ => None
  end.

(** [length > 0 ? Math.min(...dates) : null] and the same with
    [Math.max]; the outer [None] is [null]. *)
Definition Math_min_dates (dates : list (option Z)) : option (option Z) :=
  match dates with
  | [] => None
  | t :: r => Some (fold_left earlier r t)
  end.

Definition Math_max_dates (dates : list (option Z)) : option (option Z) :=
  match dates with
  | [] => None
  | t :: r => Some (fold_left latest r t)
  end.

(** [memories.flatMap(m => m.tags)]: an array gives its elements, any
    other value gives itself. *)
Definition flat_tags (m : Memory) : list value :=
  match tags m with
  | VArr l => l
  | v => [v]
  end.

(** A [Set] compares an object or an array by identity, which the
    embedding does not carry; the other values by [SameValueZero]. *)
Definition primitive (v : value) : bool :=
  match v with
  | VArr _ | VObj _ => false
  | _ => true
  end.

Definition number_of (v : value) : option float :=
  match v with
  | VInt n => Some (float_of_Z n)
  | VNum x => Some x
  | _ => None
  end.

Definition SameValueZero (a b : value) : bool :=
  match a, b with
  | VNull, VNull => true
  | VBool x, VBool y => Bool.eqb x y
  | VStr x, VStr y => String.eqb x y
  | _, _ =>
      match number_of a, number_of b with
      | Some x, Some y => (x =? y)%float || (is_nan x && is_nan y)
      | _, _ => false
      end
  end.

(** The elements of [new Set(elements)] in insertion order. *)
Definition Set_add (members : list value) (v : value) : list value :=
  if existsb (SameValueZero v) members then members else members ++ [v].

Definition Set_of (elements : list value) : list value :=
  fold_left Set_add elements [].

Record Stats : Type := {
  totalMemories : Z;
  memoryLimit : Z;
  oldestMemory : option (option Z);
  newestMemory : option (option Z);
  totalTags : option Z;     (* [None]: a tag is an object or an array *)
  averageContentLength : float
}.

(** [getStats()] *)
Definition getStats (clk : Clock) (s : Mem0) : Stats :=
  let memories0 := map snd (memories s) in
  let dates := map (time_of clk) memories0 in
  let elements := flat_map flat_tags memories0 in
  {| totalMemories := Z.of_nat (List.length memories0);
     memoryLimit := maxMemories (config s);
     oldestMemory := Math_min_dates dates;
     newestMemory := Math_max_dates dates;
     totalTags :=
       if forallb primitive elements
       then Some (Z.of_nat (List.length (Set_of elements)))
       else None;
     averageContentLength :=
       match memories0 with
       | [] => 0%float
       | _ =>
           (fold_left
              (fun sum m => sum + float_of_Z (Z.of_nat (String.length (content m))))
              memories0 0
            / float_of_Z (Z.of_nat (List.length memories0)))%float
       end |}.

End Queries.

(** ** The order of the numbers *)

(** An integer that grows with the number: the numbers other than NaN
    are ordered as their ranks are. *)
Definition rank (sf : spec_float) : Z :=
  match sf with
  | S754_zero _ | S754_nan => 0
  | S754_finite s m e =>
      cond_Zopp s ((e + 1075) * 9007199254740992 + Zpos m)
  | S754_infinity s => cond_Zopp s (2047 * 9007199254740992)
  end.

(** ** Conditions on stores *)

Module Conditions.

Import SimpleEmbedding Store Snapshot Tags Queries.

(** Every record has a vector. *)
Definition vectors_present (s : Mem0) : bool :=
  forallb
    (fun entry =>
       match embeddings (snd entry) with Some _ => true | None => false end)
    (memories s).

(** The similarity of a record to a query; a record without a vector
    has none. *)
Definition score (query : string) (m : Memory) : option float :=
  option_map (cosineSimilarity (computeEmbedding query)) (embeddings m).

(** Each record is held under its own id, and the ids are among the
    ones that the counter has handed out. *)
Definition keyed (s : Mem0) : Prop :=
  forall k m, In (k, m) (memories s) ->
    id m = k
    /\ exists n, (1 <= n < nextId s)%Z /\ k = ("mem_" ++ numeral n)%string.

(** Every record carries a timestamp that is a date. *)
Definition all_dated (clk : Clock) (s : Mem0) : bool :=
  forallb
    (fun entry =>
       match time_of clk (snd entry) with Some _ => true | None => false end)
    (memories s).

(** [a] and [b] carry dates, and [b] is not the later one. *)
Definition newest_first (clk : Clock) (a b : Memory) : Prop :=
  match time_of clk a, time_of clk b with
  | Some ta, Some tb => (tb <= ta)%Z
  | _, _ => False
  end.

(** The record carries the instant [t]. *)
Definition at_instant (clk : Clock) (t : Z) (m : Memory) : bool :=
  match time_of clk m with
  | Some t' => (t' =? t)%Z
  | None => false
  end.

(** The tags of the record are an array, a string or a falsy value,
    so that the test for a tag does not throw. *)
Definition listed_tags (m : Memory) : bool :=
  match or_empty_array (Some (tags m)) with
  | VArr _ | VStr _ => true
  | _ => false
  end.

(** The tags of every record are listed. *)
Definition tags_listed (s : Mem0) : bool :=
  forallb (fun entry => listed_tags (snd entry)) (memories s).

(** The record carries the tag: as an element of its array of tags,
    or as a part of its string of tags. *)
Definition has_tag (m : Memory) (tag : string) : bool :=
  match or_empty_array (Some (tags m)) with
  | VArr l => existsb (is_tag tag) l
  | VStr str => occurs tag str
  | _ => false
  end.

(** The timestamp that the constructor gives a record: the one of the
    metadata of the call, or else the instant of the call. *)
Definition stamp (clk : Clock) (now : Z) (props : obj value) : value :=
  match last_value props "timestamp" with
  | Some v => v
  | None => VStr (toISOString clk now)
  end.

(** [typeof v === "string"] *)
Definition is_string (v : value) : bool :=
  match v with
  | VStr _ => true
  | _ => false
  end.

(** Every tag of every record is a string. *)
Definition string_tags (s : Mem0) : bool :=
  forallb (fun entry => forallb is_string (flat_tags (snd entry))) (memories s).

(** A character of a token: a lower-case letter, a digit or the
    underscore. *)
Definition token_char (c : ascii) : bool :=
  between 97 122 (code c) || between 48 57 (code c) || (code c =? 95)%nat.

End Conditions.

(** ** The demonstration *)

(** The function [demo()], with the instants at which the clock is
    read; what the function prints is left out.  An exception of a
    call ends the function. *)

Module Demo.

Import SimpleEmbedding Store Queries.

(** The double nearest to 0.6. *)
Definition six_tenths : float := 0x1.3333333333333p-1%float.

Definition options : Options :=
  {| opt_maxMemories := Some 100%Z;
     opt_similarityThreshold := Some six_tenths;
     opt_autoExpire := Some false;
     opt_expireAfterDays := None |}.

Definition labels (category : string) (tags0 : list string) : obj value :=
  [ ("category", VStr category);
    ("tags", VArr (map VStr tags0)) ]%string.

(** The rest of a function after a call that may throw. *)
Definition and_then {A B : Type} (r : result A) (rest : A -> result B)
    : result B :=
  match r with
  | Ret a => rest a
  | Throw err => Throw err
  end.

(** The three calls of [add]: the ids returned and the store. *)
Definition added (clk : Clock) (t1 t2 t3 : Z)
    : result (string * string * string * Mem0) :=
  let mem := Mem0_new options in
  let r1 := add clk t1 "The user likes pizza and Italian food"
              (labels "preferences" ["food"; "preferences"]%string) mem in
  and_then (fst r1) (fun id1 =>
  let r2 := add clk t2 "User mentioned they are learning JavaScript"
              (labels "skills" ["programming"; "learning"]%string) (snd r1) in
  and_then (fst r2) (fun id2 =>
  let r3 := add clk t3 "The user enjoys cooking pasta dishes"
              (labels "preferences" ["food"; "cooking"]%string) (snd r2) in
  and_then (fst r3) (fun id3 => Ret (id1, id2, id3, snd r3)))).

(** [demo()]: the store that it returns. *)
Definition demo (clk : Clock) (t1 t2 t3 t4 : Z) : result Mem0 :=
  and_then (added clk t1 t2 t3) (fun '(id1, _, _, mem) =>
  and_then (search "food and cooking" 10 mem) (fun _ =>
  and_then (searchByTags ["food"%string] false mem) (fun _ =>
  let stats := getStats clk mem in
  let r := update clk t4 id1
             "The user loves pizza, pasta, and all Italian cuisine"
             (labels "preferences" ["food"; "preferences"; "italian"]%string)
             mem in
  and_then (fst r) (fun _ =>
  and_then (search "italian food" 10 (snd r)) (fun _ => Ret (snd r)))))).

(** The demonstration with the clock of the examples, read at the
    instants 10, 20, 30 and 40: the store after the three calls of
    [add], and the store returned. *)
Definition three_records : Mem0 :=
  match added Example.clock 10 20 30 with
  | Ret (_, _, _, mem) => mem
  | Throw _ => Mem0_new options
  end.

Definition returned : Mem0 :=
  match demo Example.clock 10 20 30 40 with
  | Ret mem => mem
  | Throw _ => Mem0_new options
  end.

(** A store that expires records, after two calls of [add]. *)
Definition expiring : Mem0 :=
  let mem :=
    Mem0_new {| opt_maxMemories := None; opt_similarityThreshold := None;
                opt_autoExpire := Some true; opt_expireAfterDays := Some 7%Z |} in
  let mem := snd (add Example.clock 1000 "apple pie" [] mem) in
  snd (add Example.clock 5000 "car truck" [] mem).

(** Three records, of which the first two are of one instant. *)
Definition same_instant : Mem0 :=
  let mem := Mem0_new no_options in
  let mem := snd (add Example.clock 7 "apple pie" [] mem) in
  let mem := snd (add Example.clock 7 "car truck" [] mem) in
  snd (add Example.clock 9 "zebra crossing" [] mem).

End Demo.

(** * Properties *)

(** ** Objects and maps *)

Section ObjectFacts.
Context {V : Type}.
Implicit Types (o a b : obj V) (k : string) (v : V).

Lemma oget_app o o' k :
  oget (o ++ o') k = match oget o k with Some v => Some v | None => oget o' k end.
Proof.
  induction o as [| [k' v'] o IH]; simpl; [reflexivity |].
  destruct (String.eqb k k'); [reflexivity | exact IH].
Qed.

Lemma oget_oreplace k v o k' :
  oget (oreplace k v o) k' =
  if String.eqb k k' then option_map (fun _ => v) (oget o k') else oget o k'.
Proof.
  induction o as [| [k0 v0] o IH]; simpl.
  - destruct (String.eqb k k'); reflexivity.
  - destruct (String.eqb_spec k k0) as [-> | Hk0]; simpl.
    + rewrite String.eqb_sym.
      destruct (String.eqb_spec k0 k'); reflexivity.
    + rewrite IH.
      destruct (String.eqb_spec k' k0) as [-> | Hk'].
      * destruct (String.eqb_spec k k0); [contradiction | reflexivity].
      * reflexivity.
Qed.

Lemma oget_oinsert k v o k' :
  oget o k = None ->
  oget (oinsert k v o) k' = if String.eqb k k' then Some v else oget o k'.
Proof.
  induction o as [| [k0 v0] o IH]; simpl; intro Hnone.
  - rewrite String.eqb_sym. reflexivity.
  - destruct (String.eqb_spec k k0) as [-> | Hk0]; [discriminate |].
    destruct (key_before k k0); simpl.
    + rewrite (String.eqb_sym k' k). destruct (String.eqb_spec k k'); reflexivity.
    + rewrite (IH Hnone).
      destruct (String.eqb_spec k' k0) as [-> | Hk'].
      * destruct (String.eqb_spec k k0); [contradiction | reflexivity].
      * reflexivity.
Qed.

(** Reading after writing. *)
Lemma oget_oset k v o k' :
  oget (oset k v o) k' = if String.eqb k k' then Some v else oget o k'.
Proof.
  unfold oset. destruct (oget o k) eqn:Hk.
  - rewrite oget_oreplace.
    destruct (String.eqb_spec k k') as [<- | _]; [rewrite Hk |]; reflexivity.
  - apply oget_oinsert. exact Hk.
Qed.

(** Reading a spread object: the properties of [b] win. *)
Lemma oget_ospread b : forall a k,
  oget (ospread a b) k =
  match last_value b k with Some v => Some v | None => oget a k end.
Proof.
  unfold ospread, last_value.
  induction b as [| [k0 v0] b IH]; intros a k; simpl; [reflexivity |].
  rewrite IH, oget_app, oget_oset. simpl.
  destruct (oget (rev b) k); [reflexivity |].
  rewrite (String.eqb_sym k k0). destruct (String.eqb k0 k); reflexivity.
Qed.

Lemma oget_In o k : oget o k = None -> forall v, ~ In (k, v) o.
Proof.
  induction o as [| [k0 v0] o IH]; simpl; intros Hnone v Hin.
  - exact Hin.
  - destruct (String.eqb_spec k k0) as [-> | Hk0]; [discriminate |].
    destruct Hin as [Heq | Hin].
    + inversion Heq; subst. contradiction.
    + exact (IH Hnone v Hin).
Qed.
End ObjectFacts.

Module MapFacts.

Import Store.

Lemma mget_mset k m ms k' :
  mget (mset k m ms) k' = if String.eqb k k' then Some m else mget ms k'.
Proof.
  induction ms as [| [k0 m0] ms IH]; simpl.
  - rewrite String.eqb_sym. reflexivity.
  - destruct (String.eqb_spec k k0) as [-> | Hk0]; simpl.
    + rewrite String.eqb_sym. destruct (String.eqb k0 k'); reflexivity.
    + rewrite IH. destruct (String.eqb_spec k' k0) as [-> | Hk'].
      * destruct (String.eqb_spec k k0); [contradiction | reflexivity].
      * reflexivity.
Qed.

Lemma mget_mdelete k ms k' :
  mget (mdelete k ms) k' = if String.eqb k k' then None else mget ms k'.
Proof.
  unfold mdelete.
  induction ms as [| [k0 m0] ms IH]; simpl.
  - destruct (String.eqb k k'); reflexivity.
  - destruct (String.eqb_spec k k0) as [-> | Hk0]; simpl; rewrite ?IH.
    + destruct (String.eqb_spec k0 k') as [-> | Hne]; [reflexivity |].
      destruct (String.eqb_spec k' k0) as [-> | _]; [contradiction | reflexivity].
    + destruct (String.eqb_spec k' k0) as [-> | Hk'].
      * destruct (String.eqb_spec k k0); [contradiction | reflexivity].
      * reflexivity.
Qed.

(** Replacing a record under a key that is present keeps the keys. *)
Lemma keys_mset_present k m ms :
  mget ms k <> None -> map fst (mset k m ms) = map fst ms.
Proof.
  induction ms as [| [k0 m0] ms IH]; simpl; intro Hin.
  - contradiction.
  - destruct (String.eqb k k0); simpl; [reflexivity |].
    rewrite (IH Hin). reflexivity.
Qed.

Lemma length_mset k m ms :
  List.length (mset k m ms) =
  match mget ms k with Some _ => List.length ms | None => S (List.length ms) end.
Proof.
  induction ms as [| [k0 m0] ms IH]; simpl; [reflexivity |].
  destruct (String.eqb k k0); simpl; [reflexivity |].
  rewrite IH. destruct (mget ms k); reflexivity.
Qed.

Lemma In_mset k m ms k' m' :
  In (k', m') (mset k m ms) -> (k', m') = (k, m) \/ In (k', m') ms.
Proof.
  induction ms as [| [k0 m0] ms IH]; simpl.
  - intros [H | []]. left. symmetry. exact H.
  - destruct (String.eqb_spec k k0) as [-> | Hk0]; simpl.
    + intros [H | H]; [left; symmetry; exact H | right; right; exact H].
    + intros [H | H]; [right; left; exact H |].
      destruct (IH H) as [H' | H']; [left; exact H' | right; right; exact H'].
Qed.

Lemma In_mdelete k ms e : In e (mdelete k ms) -> In e ms.
Proof. unfold mdelete. intro H. apply filter_In in H. apply H. Qed.

Lemma mget_In ms k m : mget ms k = Some m -> In (k, m) ms.
Proof.
  induction ms as [| [k0 m0] ms IH]; simpl; [discriminate |].
  destruct (String.eqb_spec k k0) as [-> | Hk0].
  - intros [= ->]. left. reflexivity.
  - intro H. right. exact (IH H).
Qed.

End MapFacts.

(** ** Rounding *)

Module Rounding.

Local Open Scope Z_scope.

Lemma digits2_size p : digits2_pos p = Pos.size p.
Proof. induction p as [p IH | p IH |]; simpl; rewrite ?IH; reflexivity. Qed.

(** The number of digits is one more than the binary logarithm. *)
Lemma digits2_log2 p : Zpos (digits2_pos p) = Z.log2 (Zpos p) + 1.
Proof.
  destruct p as [p | p |]; simpl; rewrite ?digits2_size; lia.
Qed.

Lemma Zdigits2_log2 m : 0 < m -> Zdigits2 m = Z.log2 m + 1.
Proof.
  destruct m as [| p | p]; try lia. intros _. simpl Zdigits2. apply digits2_log2.
Qed.

Lemma shr_m_shr_1 mrs : 0 <= shr_m mrs -> shr_m (shr_1 mrs) = Z.div2 (shr_m mrs).
Proof.
  destruct mrs as [m r s]. simpl.
  destruct m as [| [p | p |] | p]; simpl; intro H; try reflexivity; lia.
Qed.

(** [n] rounds of [shr_1] shift the mantissa by [n] bits. *)
Lemma shr_m_iter p : forall mrs,
  0 <= shr_m mrs ->
  shr_m (iter_pos shr_1 p mrs) = Z.shiftr (shr_m mrs) (Zpos p).
Proof.
  induction p as [p IH | p IH |]; intros mrs Hm; simpl iter_pos.
  - assert (H1 : 0 <= shr_m (shr_1 mrs))
      by (rewrite shr_m_shr_1 by exact Hm; apply Z.div2_nonneg; exact Hm).
    assert (H2 : 0 <= shr_m (iter_pos shr_1 p (shr_1 mrs)))
      by (rewrite IH by exact H1; apply Z.shiftr_nonneg; exact H1).
    rewrite IH by exact H2. rewrite IH by exact H1.
    rewrite shr_m_shr_1 by exact Hm. rewrite Z.div2_spec.
    rewrite !Z.shiftr_shiftr by lia. f_equal. lia.
  - assert (H2 : 0 <= shr_m (iter_pos shr_1 p mrs))
      by (rewrite IH by exact Hm; apply Z.shiftr_nonneg; exact Hm).
    rewrite IH by exact H2. rewrite IH by exact Hm.
    rewrite Z.shiftr_shiftr by lia. f_equal. lia.
  - rewrite shr_m_shr_1 by exact Hm. apply Z.div2_spec.
Qed.

Lemma shr_m_of_loc m l : shr_m (shr_record_of_loc m l) = m.
Proof. destruct l as [| []]; reflexivity. Qed.

(** The shift of [shr_fexp] keeps a mantissa positive, and keeps the
    sum of its number of digits and the exponent, when the value is
    above the least subnormal. *)
Lemma shr_fexp_positive mx ex lx :
  0 < mx -> -1074 < Zdigits2 mx + ex ->
  0 < shr_m (fst (shr_fexp prec emax mx ex lx))
  /\ Zdigits2 (shr_m (fst (shr_fexp prec emax mx ex lx)))
     + snd (shr_fexp prec emax mx ex lx) = Zdigits2 mx + ex.
Proof.
  intros Hm Hbig. unfold shr_fexp, shr.
  rewrite (Zdigits2_log2 _ Hm) in Hbig |- *.
  assert (Hfexp : fexp prec emax (Z.log2 mx + 1 + ex)
                  = Z.max (Z.log2 mx + 1 + ex - 53) (-1074)) by reflexivity.
  rewrite Hfexp. clear Hfexp.
  destruct (Z.max (Z.log2 mx + 1 + ex - 53) (-1074) - ex) as [| p | p] eqn:Hn;
    simpl fst; simpl snd; rewrite ?shr_m_of_loc;
    try (split; [exact Hm | rewrite (Zdigits2_log2 _ Hm); reflexivity]).
  assert (Hm0 : 0 <= shr_m (shr_record_of_loc mx lx))
    by (rewrite shr_m_of_loc; lia).
  rewrite (shr_m_iter p _ Hm0), shr_m_of_loc.
  assert (Hp : Zpos p <= Z.log2 mx) by lia.
  assert (Hpos : 0 < Z.shiftr mx (Zpos p)).
  { assert (Hnn : 0 <= Z.shiftr mx (Zpos p)) by (apply Z.shiftr_nonneg; lia).
    assert (Hne : Z.shiftr mx (Zpos p) <> 0).
    { intro H0. apply Z.shiftr_eq_0_iff in H0. lia. }
    lia. }
  split; [exact Hpos |].
  rewrite (Zdigits2_log2 _ Hpos), (Z.log2_shiftr _ _ Hm). lia.
Qed.

Lemma round_nearest_even_bounds m l :
  m <= round_nearest_even m l <= m + 1.
Proof.
  destruct l as [| []]; simpl; try lia. destruct (Z.even m); lia.
Qed.

(** Rounding a positive mantissa whose value is above the least
    subnormal gives a finite number that is no smaller in magnitude,
    or an infinity; it does not give zero. *)
Lemma binary_round_aux_big s mx ex lx :
  0 < mx -> -1074 < Zdigits2 mx + ex ->
  (exists m' e',
      binary_round_aux prec emax s mx ex lx = S754_finite s m' e'
      /\ Zdigits2 mx + ex <= Zpos (digits2_pos m') + e')
  \/ binary_round_aux prec emax s mx ex lx = S754_infinity s.
Proof.
  intros Hm Hbig. unfold binary_round_aux.
  destruct (shr_fexp_positive mx ex lx Hm Hbig) as [Hm1 Hsum1].
  destruct (shr_fexp prec emax mx ex lx) as [mrs1 e1]. simpl fst in *. simpl snd in *.
  pose proof (round_nearest_even_bounds (shr_m mrs1) (loc_of_shr_record mrs1)) as Hr.
  set (m1' := round_nearest_even (shr_m mrs1) (loc_of_shr_record mrs1)) in *.
  assert (Hm1' : 0 < m1') by lia.
  assert (Hd1' : Zdigits2 (shr_m mrs1) <= Zdigits2 m1').
  { rewrite (Zdigits2_log2 _ Hm1), (Zdigits2_log2 _ Hm1').
    pose proof (Z.log2_le_mono (shr_m mrs1) m1'). lia. }
  destruct (shr_fexp_positive m1' e1 loc_Exact Hm1') as [Hm2 Hsum2]; [lia |].
  destruct (shr_fexp prec emax m1' e1 loc_Exact) as [mrs2 e2].
  simpl fst in *. simpl snd in *.
  destruct (shr_m mrs2) as [| m2 | m2] eqn:Hm2eq; try lia.
  destruct (e2 <=? emax - prec); [| right; reflexivity].
  left. exists m2, e2. split; [reflexivity |]. simpl Zdigits2 in Hsum2. lia.
Qed.

End Rounding.

(** ** The order of the numbers *)

Module Order.

Import Rounding.
Local Open Scope Z_scope.

(** A mantissa and an exponent of a number: the mantissa has at most
    53 digits, and the exponent is in range. *)
Lemma bounded_range m e :
  bounded prec emax m e = true ->
  Zpos m < 9007199254740992 /\ -1074 <= e <= 971
  /\ (-1074 < e -> 4503599627370496 <= Zpos m).
Proof.
  unfold bounded, canonical_mantissa, fexp. intro H.
  apply andb_prop in H. destruct H as [Hc He].
  apply Z.eqb_eq in Hc. apply Z.leb_le in He.
  change (SpecFloat.emin prec emax) with (-1074) in Hc.
  change (emax - prec) with 971 in He. change prec with 53 in Hc.
  rewrite digits2_log2 in Hc.
  assert (Hlog : 0 <= Z.log2 (Zpos m)) by apply Z.log2_nonneg.
  split; [| split; [lia |]].
  - change 9007199254740992 with (2 ^ 53).
    apply Z.log2_lt_pow2; lia.
  - intro Hbig. change 4503599627370496 with (2 ^ 52).
    transitivity (2 ^ Z.log2 (Zpos m)).
    + apply Z.pow_le_mono_r; lia.
    + apply Z.log2_spec. lia.
Qed.

(** Two numbers other than NaN compare as their ranks do. *)
Lemma SFcompare_rank (a b : spec_float) :
  valid_binary a = true -> valid_binary b = true ->
  a <> S754_nan -> b <> S754_nan ->
  SFcompare a b = Some (rank a ?= rank b).
Proof.
  destruct a as [sa | sa | | sa ma ea]; destruct b as [sb | sb | | sb mb eb];
    simpl valid_binary; intros Ha Hb Hna Hnb; try contradiction;
    try (apply bounded_range in Ha; destruct Ha as (Ha1 & Ha2 & _));
    try (apply bounded_range in Hb; destruct Hb as (Hb1 & Hb2 & _));
    unfold SFcompare, rank, cond_Zopp; f_equal;
    try (destruct sa); try (destruct sb); try reflexivity;
    try (symmetry; apply Z.compare_lt_iff; lia);
    try (symmetry; apply Z.compare_gt_iff; lia).
  - rewrite Z.compare_opp.
    destruct (Z.compare_spec ea eb) as [-> | Hlt | Hgt].
    + rewrite Z.add_compare_mono_l.
      change (Pos.compare_cont Eq ma mb) with (Zpos ma ?= Zpos mb).
      symmetry. apply Z.compare_antisym.
    + symmetry. apply Z.compare_gt_iff. lia.
    + symmetry. apply Z.compare_lt_iff. lia.
  - destruct (Z.compare_spec ea eb) as [-> | Hlt | Hgt].
    + rewrite Z.add_compare_mono_l. reflexivity.
    + symmetry. apply Z.compare_lt_iff. lia.
    + symmetry. apply Z.compare_gt_iff. lia.
Qed.

(** Aligning a mantissa to a lower exponent keeps the value. *)
Lemma shl_align_value m e ez :
  ez <= e -> Zpos (fst (shl_align m e ez)) = Zpos m * 2 ^ (e - ez).
Proof.
  intro H. unfold shl_align.
  destruct (ez - e) as [| p | p] eqn:Hd; simpl fst; try lia.
  - replace (e - ez) with 0 by lia. lia.
  - change (Pos.iter xO m p) with (shift_pos p m).
    rewrite shift_pos_correct. replace (e - ez) with (Zpos p) by lia.
    rewrite Z.pow_pos_fold. lia.
Qed.

(** A mantissa at an exponent of the format does not round to zero,
    and keeps its sign. *)
Lemma binary_round_sign s m e :
  -1074 <= e ->
  (exists m' e', binary_round prec emax s m e = S754_finite s m' e')
  \/ binary_round prec emax s m e = S754_infinity s.
Proof.
  intro He. unfold binary_round.
  destruct (shl_align m e (fexp prec emax (Zpos (digits2_pos m) + e)))
    as [mz ez] eqn:Hal.
  assert (Hez : -1074 <= ez).
  { unfold shl_align in Hal.
    assert (Hf : -1074 <= fexp prec emax (Zpos (digits2_pos m) + e))
      by (unfold fexp; change (SpecFloat.emin prec emax) with (-1074); lia).
    destruct (fexp prec emax (Zpos (digits2_pos m) + e) - e);
      injection Hal as _ <-; first [lia | exact Hf]. }
  assert (Hd : 0 <= Z.log2 (Zpos mz)) by apply Z.log2_nonneg.
  destruct (binary_round_aux_big s (Zpos mz) ez loc_Exact)
    as [(m' & e' & H & _) | H]; try lia.
  - rewrite Zdigits2_log2 by lia. lia.
  - left. exists m', e'. exact H.
  - right. exact H.
Qed.

(** The difference of two positive numbers is above zero exactly when
    the first is the larger. *)
Lemma SFsub_sign (a b : spec_float) :
  valid_binary a = true -> valid_binary b = true ->
  positive a -> positive b ->
  SFltb (S754_zero false) (SFsub prec emax b a) = (rank a <? rank b).
Proof.
  destruct a as [sa | [|] | | [|] ma ea]; destruct b as [sb | [|] | | [|] mb eb];
    simpl valid_binary; intros Ha Hb Hpa Hpb; try contradiction;
    try reflexivity.
  - apply bounded_range in Hb. destruct Hb as (Hb1 & Hb2 & _).
    unfold SFsub, SFltb, SFcompare, rank, cond_Zopp. simpl negb.
    symmetry. apply Z.ltb_ge. lia.
  - apply bounded_range in Ha. destruct Ha as (Ha1 & Ha2 & _).
    unfold SFsub, SFltb, SFcompare, rank, cond_Zopp.
    symmetry. apply Z.ltb_lt. lia.
  - apply bounded_range in Ha. destruct Ha as (Ha1 & Ha2 & Ha3).
    apply bounded_range in Hb. destruct Hb as (Hb1 & Hb2 & Hb3).
    unfold SFsub, cond_Zopp.
    rewrite !shl_align_value by lia.
    set (d := Zpos mb * 2 ^ (eb - Z.min eb ea) - Zpos ma * 2 ^ (ea - Z.min eb ea)).
    assert (Hd : (0 < d /\ rank (S754_finite false ma ea) < rank (S754_finite false mb eb))
                 \/ (d <= 0 /\ rank (S754_finite false mb eb) <= rank (S754_finite false ma ea))).
    { unfold rank, cond_Zopp, d.
      destruct (Z.lt_trichotomy ea eb) as [Hlt | [-> | Hgt]].
      - left. rewrite Z.min_r by lia. rewrite Z.sub_diag, Z.mul_1_r.
        assert (Hp : 2 ^ 1 <= 2 ^ (eb - ea)) by (apply Z.pow_le_mono_r; lia).
        change (2 ^ 1) with 2 in Hp. specialize (Hb3 ltac:(lia)). nia.
      - rewrite Z.min_id, Z.sub_diag, !Z.mul_1_r. lia.
      - right. rewrite Z.min_l by lia. rewrite Z.sub_diag, Z.mul_1_r.
        assert (Hp : 2 ^ 1 <= 2 ^ (ea - eb)) by (apply Z.pow_le_mono_r; lia).
        change (2 ^ 1) with 2 in Hp. specialize (Ha3 ltac:(lia)). nia. }
    clearbody d. unfold binary_normalize.
    destruct Hd as [[Hd Hr] | [Hd Hr]].
    + destruct d as [| p | p]; try lia.
      destruct (binary_round_sign false p (Z.min eb ea) ltac:(lia))
        as [(m' & e' & ->) | ->]; symmetry; apply Z.ltb_lt; exact Hr.
    + destruct d as [| p | p]; try lia.
      * symmetry. apply Z.ltb_ge. exact Hr.
      * destruct (binary_round_sign true p (Z.min eb ea) ltac:(lia))
          as [(m' & e' & ->) | ->]; symmetry; apply Z.ltb_ge; exact Hr.
Qed.

End Order.

(** ** The sum of a counter and one *)

Module Increment.

Import Rounding Order.
Local Open Scope Z_scope.

(** A shift of a mantissa whose lowest digit is zero loses nothing. *)
Lemma shr_1_double x :
  0 <= x ->
  shr_1 {| shr_m := 2 * x; shr_r := false; shr_s := false |}
  = {| shr_m := x; shr_r := false; shr_s := false |}.
Proof. destruct x as [| p | p]; intro H; reflexivity. Qed.

Lemma iter_shr_exact p : forall k,
  0 <= k ->
  iter_pos shr_1 p {| shr_m := k * 2 ^ Zpos p; shr_r := false; shr_s := false |}
  = {| shr_m := k; shr_r := false; shr_s := false |}.
Proof.
  induction p as [p IH | p IH |]; intros k Hk; cbn [iter_pos].
  - replace (k * 2 ^ Zpos p~1) with (2 * ((k * 2 ^ Zpos p) * 2 ^ Zpos p)).
    + rewrite shr_1_double by (apply Z.mul_nonneg_nonneg; [apply Z.mul_nonneg_nonneg |]; lia).
      rewrite IH by (apply Z.mul_nonneg_nonneg; lia).
      apply IH. exact Hk.
    + replace (Z.pos p~1) with (1 + Z.pos p + Z.pos p) by lia.
      rewrite !Z.pow_add_r by lia. change (2 ^ 1) with 2. ring.
  - replace (k * 2 ^ Zpos p~0) with ((k * 2 ^ Zpos p) * 2 ^ Zpos p).
    + rewrite IH by (apply Z.mul_nonneg_nonneg; lia).
      apply IH. exact Hk.
    + replace (Z.pos p~0) with (Z.pos p + Z.pos p) by lia.
      rewrite Z.pow_add_r by lia. ring.
  - change (2 ^ 1) with 2. rewrite Z.mul_comm. apply shr_1_double. exact Hk.
Qed.

(** A mantissa of the format at its exponent is not rounded. *)
Lemma binary_round_aux_canonical s M E :
  0 < M -> fexp prec emax (Zdigits2 M + E) = E -> E <= 971 ->
  binary_round_aux prec emax s M E loc_Exact = S754_finite s (Z.to_pos M) E.
Proof.
  intros HM Hc HE. unfold binary_round_aux, shr_fexp.
  rewrite Hc, Z.sub_diag. cbn [shr shr_record_of_loc shr_m loc_of_shr_record round_nearest_even].
  rewrite Hc, Z.sub_diag. cbn [shr shr_record_of_loc shr_m].
  destruct M as [| p | p]; try lia.
  change (emax - prec) with 971.
  destruct (E <=? 971) eqn:Hle; [reflexivity | apply Z.leb_gt in Hle; lia].
Qed.

(** A mantissa with [p] more digits than the format has, all zero, is
    shifted without rounding. *)
Lemma binary_round_aux_shift s k p E :
  0 < k -> fexp prec emax (Zdigits2 (k * 2 ^ Zpos p) + E) = E + Zpos p ->
  E + Zpos p <= 971 ->
  binary_round_aux prec emax s (k * 2 ^ Zpos p) E loc_Exact
  = S754_finite s (Z.to_pos k) (E + Zpos p).
Proof.
  intros Hk Hc HE. unfold binary_round_aux, shr_fexp.
  rewrite Hc. replace (E + Zpos p - E) with (Zpos p) by lia.
  cbn [shr shr_record_of_loc]. rewrite iter_shr_exact by lia.
  cbn [shr_m loc_of_shr_record round_nearest_even].
  assert (Hd : Zdigits2 (k * 2 ^ Zpos p) = Zdigits2 k + Zpos p).
  { assert (0 < 2 ^ Zpos p) by (apply Z.pow_pos_nonneg; lia).
    rewrite !Zdigits2_log2 by nia.
    rewrite Z.log2_mul_pow2 by lia. lia. }
  rewrite Hd in Hc.
  replace (Zdigits2 k + (E + Zpos p)) with (Zdigits2 k + Zpos p + E) by lia.
  rewrite Hc. rewrite Z.sub_diag. cbn [shr shr_m].
  destruct k as [| q | q]; try lia.
  change (emax - prec) with 971.
  destruct (E + Zpos p <=? 971) eqn:Hle; [reflexivity | apply Z.leb_gt in Hle; lia].
Qed.

Lemma fexp_small d : -1021 <= d -> fexp prec emax d = d - 53.
Proof.
  intro H. unfold fexp. change (SpecFloat.emin prec emax) with (-1074).
  change prec with 53. lia.
Qed.

Lemma Zdigits2_mul_pow2 v k :
  0 < v -> 0 <= k -> Zdigits2 (v * 2 ^ k) = Z.log2 v + 1 + k.
Proof.
  intros Hv Hk. assert (0 < 2 ^ k) by (apply Z.pow_pos_nonneg; lia).
  rewrite Zdigits2_log2 by nia. rewrite Z.log2_mul_pow2 by lia. lia.
Qed.

(** An integer of at most 53 digits (or 2^53), given at an exponent
    that is not positive, is a number of the format. *)
Lemma binary_round_exact s m e v :
  0 < v <= 2 ^ 53 -> e <= 0 -> Zpos m = v * 2 ^ (- e) ->
  exists m',
    binary_round prec emax s m e = S754_finite s m' (Z.log2 v - 52)
    /\ 2 * Zpos m' = v * 2 ^ (53 - Z.log2 v)
    /\ bounded prec emax m' (Z.log2 v - 52) = true.
Proof.
  intros Hv He Hm.
  assert (HL : 0 <= Z.log2 v <= 53).
  { split; [apply Z.log2_nonneg |].
    pose proof (Z.log2_le_mono v (2 ^ 53) ltac:(lia)) as H.
    rewrite Z.log2_pow2 in H by lia. exact H. }
  unfold binary_round.
  assert (Hdig : Zpos (digits2_pos m) + e = Z.log2 v + 1).
  { change (Zpos (digits2_pos m)) with (Zdigits2 (Zpos m)).
    rewrite Hm, Zdigits2_mul_pow2 by lia. lia. }
  rewrite Hdig, fexp_small by lia.
  replace (Z.log2 v + 1 - 53) with (Z.log2 v - 52) by lia.
  unfold shl_align.
  destruct (Z.log2 v - 52 - e) as [| p | p] eqn:Hp.
  - exists m. split; [| split].
    + rewrite binary_round_aux_canonical; try lia.
      * simpl Z.to_pos. f_equal. lia.
      * rewrite Hm, Zdigits2_mul_pow2 by lia.
        rewrite fexp_small by lia. lia.
    + rewrite Hm. replace (53 - Z.log2 v) with (Z.succ (- e)) by lia.
      rewrite Z.pow_succ_r by lia. ring.
    + unfold bounded, canonical_mantissa.
      change (Zpos (digits2_pos m)) with (Zdigits2 (Zpos m)).
      rewrite Hm, Zdigits2_mul_pow2 by lia.
      rewrite fexp_small by lia. change (emax - prec) with 971.
      apply andb_true_intro. split; [apply Z.eqb_eq | apply Z.leb_le]; lia.
  - destruct (Z.eq_dec (Z.log2 v) 53) as [H53 | H53].
    + assert (Hv53 : v = 2 ^ 53).
      { pose proof (Z.log2_spec v ltac:(lia)) as Hs. rewrite H53 in Hs. lia. }
      exists (Z.to_pos (2 ^ 52)). split; [| split].
      * replace (Zpos m) with (2 ^ 52 * 2 ^ Zpos p).
        -- rewrite binary_round_aux_shift; try lia.
           ++ f_equal. lia.
           ++ rewrite Zdigits2_mul_pow2 by lia.
              rewrite fexp_small by (change (Z.log2 (2 ^ 52)) with 52; lia).
              change (Z.log2 (2 ^ 52)) with 52. lia.
        -- rewrite Hm, Hv53. rewrite <- !Z.pow_add_r by lia. f_equal. lia.
      * rewrite H53, Hv53. reflexivity.
      * rewrite H53. reflexivity.
    + assert (Hk : 0 < v * 2 ^ (52 - Z.log2 v)).
      { assert (0 < 2 ^ (52 - Z.log2 v)) by (apply Z.pow_pos_nonneg; lia). nia. }
      exists (Z.to_pos (v * 2 ^ (52 - Z.log2 v))). split; [| split].
      * replace (Zpos m) with (v * 2 ^ (52 - Z.log2 v) * 2 ^ Zpos p).
        -- rewrite binary_round_aux_shift; try lia.
           ++ f_equal. lia.
           ++ rewrite <- Z.mul_assoc, <- Z.pow_add_r by lia.
              rewrite Zdigits2_mul_pow2 by lia.
              rewrite fexp_small by lia. lia.
        -- rewrite Hm, <- Z.mul_assoc, <- Z.pow_add_r by lia. f_equal. f_equal. lia.
      * rewrite Z2Pos.id by lia.
        replace (53 - Z.log2 v) with (Z.succ (52 - Z.log2 v)) by lia.
        rewrite Z.pow_succ_r by lia. ring.
      * unfold bounded, canonical_mantissa.
        change (Zpos (digits2_pos (Z.to_pos (v * 2 ^ (52 - Z.log2 v)))))
          with (Zdigits2 (Zpos (Z.to_pos (v * 2 ^ (52 - Z.log2 v))))).
        rewrite Z2Pos.id by lia.
        rewrite Zdigits2_mul_pow2 by lia.
        rewrite fexp_small by lia. change (emax - prec) with 971.
        apply andb_true_intro. split; [apply Z.eqb_eq | apply Z.leb_le]; lia.
  - assert (Hk : 0 < v * 2 ^ (52 - Z.log2 v)).
    { assert (0 < 2 ^ (52 - Z.log2 v)) by (apply Z.pow_pos_nonneg; lia). nia. }
    assert (Hval : Zpos (Pos.iter xO m p) = v * 2 ^ (52 - Z.log2 v)).
    { change (Pos.iter xO m p) with (shift_pos p m).
      rewrite shift_pos_correct, Z.pow_pos_fold, Hm.
      rewrite Z.mul_comm, <- Z.mul_assoc, <- Z.pow_add_r by lia.
      f_equal. f_equal. lia. }
    exists (Pos.iter xO m p). split; [| split].
    + rewrite binary_round_aux_canonical; try lia.
      * reflexivity.
      * rewrite Hval, Zdigits2_mul_pow2 by lia.
        rewrite fexp_small by lia. lia.
    + rewrite Hval.
      replace (53 - Z.log2 v) with (Z.succ (52 - Z.log2 v)) by lia.
      rewrite Z.pow_succ_r by lia. ring.
    + unfold bounded, canonical_mantissa.
      change (Zpos (digits2_pos (Pos.iter xO m p)))
        with (Zdigits2 (Zpos (Pos.iter xO m p))).
      rewrite Hval, Zdigits2_mul_pow2 by lia.
      rewrite fexp_small by lia. change (emax - prec) with 971.
      apply andb_true_intro. split; [apply Z.eqb_eq | apply Z.leb_le]; lia.
Qed.

Lemma Z_of_finite s m' v :
  0 < v <= 2 ^ 53 -> 2 * Zpos m' = v * 2 ^ (53 - Z.log2 v) ->
  cond_Zopp s (Z.shiftl (Zpos m') (Z.log2 v - 52)) = cond_Zopp s v.
Proof.
  intros Hv Hm. f_equal.
  assert (HL : 0 <= Z.log2 v <= 53).
  { split; [apply Z.log2_nonneg |].
    pose proof (Z.log2_le_mono v (2 ^ 53) ltac:(lia)) as H.
    rewrite Z.log2_pow2 in H by lia. exact H. }
  destruct (Z.eq_dec (Z.log2 v) 53) as [H53 | H53].
  - rewrite H53 in *. change (53 - 52) with 1. change (53 - 53) with 0 in Hm.
    rewrite Z.shiftl_mul_pow2 by lia. change (2 ^ 1) with 2.
    change (2 ^ 0) with 1 in Hm. lia.
  - rewrite Z.shiftl_div_pow2 by lia.
    replace (53 - Z.log2 v) with (Z.succ (52 - Z.log2 v)) in Hm by lia.
    rewrite Z.pow_succ_r in Hm by lia.
    replace (Zpos m') with (v * 2 ^ (52 - Z.log2 v)) by lia.
    replace (- (Z.log2 v - 52)) with (52 - Z.log2 v) by lia.
    apply Z.div_mul. apply Z.pow_nonzero; lia.
Qed.

(** The number that an integer of magnitude up to 2^53 denotes. *)
Lemma float_of_Z_exact n :
  n <> 0 -> - 2 ^ 53 <= n <= 2 ^ 53 ->
  exists m',
    Prim2SF (float_of_Z n)
    = S754_finite (n <? 0) m' (Z.log2 (Z.abs n) - 52)
    /\ 2 * Zpos m' = Z.abs n * 2 ^ (53 - Z.log2 (Z.abs n)).
Proof.
  intros Hn Hr. unfold float_of_Z, binary_normalize.
  destruct n as [| p | p]; [contradiction | |].
  - destruct (binary_round_exact false p 0 (Zpos p)) as (m' & Hb & Hv & Hval);
      [lia | lia | simpl; lia |].
    exists m'. rewrite Hb. split; [| exact Hv].
    apply Prim2SF_SF2Prim. exact Hval.
  - destruct (binary_round_exact true p 0 (Zpos p)) as (m' & Hb & Hv & Hval);
      [lia | lia | simpl; lia |].
    exists m'. rewrite Hb. split; [| exact Hv].
    apply Prim2SF_SF2Prim. exact Hval.
Qed.

(** Adding one to a counter from -2^53 to below 2^53 is exact. *)
Lemma increment_exact n : - 2 ^ 53 <= n < 2 ^ 53 -> increment n = n + 1.
Proof.
  intro Hr.
  destruct (Z.eq_dec n 0) as [-> | Hn0]; [reflexivity |].
  destruct (Z.eq_dec n (-1)) as [-> | Hn1]; [reflexivity |].
  destruct (float_of_Z_exact n Hn0 ltac:(lia)) as (m' & Hf & Hv).
  assert (HL : 0 <= Z.log2 (Z.abs n) <= 53).
  { split; [apply Z.log2_nonneg |].
    pose proof (Z.log2_le_mono (Z.abs n) (2 ^ 53) ltac:(lia)) as H.
    rewrite Z.log2_pow2 in H by lia. exact H. }
  unfold increment, Z_of_float. rewrite add_spec, Hf.
  change (Prim2SF 1) with (S754_finite false 4503599627370496 (-52)).
  unfold SF64add, SFadd.
  replace (Z.min (Z.log2 (Z.abs n) - 52) (-52)) with (-52) by lia.
  rewrite !shl_align_value by lia.
  assert (Hsum : cond_Zopp (n <? 0)
                   (Zpos m' * 2 ^ (Z.log2 (Z.abs n) - 52 - -52))
                 + cond_Zopp false (4503599627370496 * 2 ^ (-52 - -52))
                 = (n + 1) * 2 ^ 52).
  { replace (Z.log2 (Z.abs n) - 52 - -52) with (Z.log2 (Z.abs n)) by lia.
    change (2 ^ (-52 - -52)) with 1. change (cond_Zopp false ?x) with x.
    assert (Hm : Zpos m' * 2 ^ Z.log2 (Z.abs n) = Z.abs n * 2 ^ 52).
    { apply (Z.mul_reg_l _ _ 2); [lia |].
      rewrite Z.mul_assoc, Hv, <- Z.mul_assoc, <- Z.pow_add_r by lia.
      replace (53 - Z.log2 (Z.abs n) + Z.log2 (Z.abs n)) with (Z.succ 52) by lia.
      rewrite Z.pow_succ_r by lia. ring. }
    rewrite Hm. unfold cond_Zopp.
    destruct (n <? 0) eqn:Hs; [apply Z.ltb_lt in Hs | apply Z.ltb_ge in Hs]; lia. }
  rewrite Hsum. unfold binary_normalize.
  destruct ((n + 1) * 2 ^ 52) as [| M | M] eqn:HM; [lia | |].
  - destruct (binary_round_exact false M (-52) (n + 1)) as (m2 & Hb & Hv2 & _);
      [lia | lia | simpl; lia |].
    rewrite Hb. apply (Z_of_finite false m2 (n + 1)); [lia | exact Hv2].
  - destruct (binary_round_exact true M (-52) (- (n + 1))) as (m2 & Hb & Hv2 & _);
      [lia | lia | simpl; lia |].
    rewrite Hb. rewrite (Z_of_finite true m2 (- (n + 1))); [| lia | exact Hv2].
    simpl. lia.
Qed.

(** At 2^53 the sum is rounded back to the counter. *)
Lemma increment_stalls : increment 9007199254740992 = 9007199254740992.
Proof. vm_compute. reflexivity. Qed.

(** From 1 to 2^53 the counter stays in that range. *)
Lemma increment_range n :
  1 <= n <= 9007199254740992 -> 1 <= increment n <= 9007199254740992.
Proof.
  intro Hn. destruct (Z.eq_dec n 9007199254740992) as [-> | Hne].
  - rewrite increment_stalls. lia.
  - rewrite increment_exact by (change (2 ^ 53) with 9007199254740992; lia). lia.
Qed.

End Increment.

(** ** update, delete and get *)

Module UpdateDelete.

Import SimpleEmbedding Store MapFacts.

Lemma mget_None ms k : mget ms k = None <-> ~ In k (map fst ms).
Proof.
  induction ms as [| [k0 m0] ms IH]; simpl.
  - split; [intros _ [] | reflexivity].
  - destruct (String.eqb_spec k k0) as [-> | Hk0].
    + split; [discriminate | intro H; contradiction H; left; reflexivity].
    + rewrite IH. split.
      * intros H [Heq | Hin]; [subst; contradiction | exact (H Hin)].
      * intros H Hin. apply H. right. exact Hin.
Qed.

Lemma In_mset_other k m ms k' m' :
  k' <> k -> In (k', m') (mset k m ms) <-> In (k', m') ms.
Proof.
  intro Hk. induction ms as [| [k0 m0] ms IH]; simpl.
  - split; [intros [H | []]; inversion H; subst; contradiction | intros []].
  - destruct (String.eqb_spec k k0) as [-> | Hk0]; simpl.
    + split; (intros [H | H]; [inversion H; subst; contradiction | right; exact H]).
    + rewrite IH. reflexivity.
Qed.

Lemma In_mset_same k m ms : In (k, m) (mset k m ms).
Proof.
  induction ms as [| [k0 m0] ms IH]; simpl.
  - left. reflexivity.
  - destruct (String.eqb_spec k k0) as [-> | Hk0]; simpl;
      [left; reflexivity | right; exact IH].
Qed.

Lemma In_mdelete_iff k ms k' m' :
  In (k', m') (mdelete k ms) <-> In (k', m') ms /\ k' <> k.
Proof.
  unfold mdelete. rewrite filter_In. simpl.
  destruct (String.eqb_spec k k') as [-> | Hk]; simpl.
  - split; [intros [_ H]; discriminate | intros [_ H]; contradiction].
  - split; intros [H _]; (split; [exact H |]); [congruence | reflexivity].
Qed.

Lemma keys_mdelete k ms : ~ In k (map fst (mdelete k ms)).
Proof.
  intro H. apply in_map_iff in H. destruct H as ([k' m'] & Hk & Hin).
  simpl in Hk. subst k'. apply In_mdelete_iff in Hin. destruct Hin as [_ Hne].
  contradiction.
Qed.

(** C9.  A record exists under [id] when [id] is among the keys of the
    map; [get(id)] finds it, and finds nothing exactly when [id] is no
    key.  [update(id, content, metadata)] throws NotFound exactly when
    [id] is no key, and then changes nothing.  Otherwise it returns the
    record, which keeps its id and tags, has the new content, the
    vector of the new content, and the metadata of the call copied over
    its old metadata stamped with [lastUpdated]: the stamp is the value
    of [lastUpdated] unless the metadata of the call has a property
    [lastUpdated], which then is the value.  The record stays under its
    key, every other record, the order of the keys, the counter and the
    configuration are untouched, and no search is made.  [delete(id)]
    returns true exactly when [id] was a key, never throws, and
    afterwards [id] is no key and [get(id)] finds nothing, while every
    other record, the configuration and the counter are as before. *)
Theorem update_and_delete (clk : Clock) (now : Z) (k content0 : string)
    (props : obj value) (s : Mem0) :
  (get k s = None <-> ~ In k (map fst (memories s)))
  /\ (forall m, get k s = Some m -> In (k, m) (memories s))
  /\ (fst (update clk now k content0 props s) = Throw NotFound
      <-> ~ In k (map fst (memories s)))
  /\ (~ In k (map fst (memories s)) ->
      snd (update clk now k content0 props s) = s)
  /\ (forall m, get k s = Some m ->
        exists m',
          update clk now k content0 props s
            = (Ret m', with_memories (mset k m' (memories s)) s)
          /\ id m' = id m
          /\ content m' = content0
          /\ tags m' = tags m
          /\ embeddings m' = Some (computeEmbedding content0)
          /\ (forall key,
                oget (metadata m') key =
                match last_value props key with
                | Some v => Some v
                | None =>
                    if String.eqb "lastUpdated" key
                    then Some (VStr (toISOString clk now))
                    else oget (metadata m) key
                end)
          /\ get k (snd (update clk now k content0 props s)) = Some m'
          /\ In (k, m') (memories (snd (update clk now k content0 props s)))
          /\ (forall k', k' <> k ->
                get k' (snd (update clk now k content0 props s)) = get k' s)
          /\ (forall k' m0, k' <> k ->
                In (k', m0) (memories (snd (update clk now k content0 props s)))
                <-> In (k', m0) (memories s))
          /\ map fst (memories (snd (update clk now k content0 props s)))
             = map fst (memories s)
          /\ nextId (snd (update clk now k content0 props s)) = nextId s
          /\ config (snd (update clk now k content0 props s)) = config s)
  /\ (fst (delete k s) = true <-> In k (map fst (memories s)))
  /\ ~ In k (map fst (memories (snd (delete k s))))
  /\ get k (snd (delete k s)) = None
  /\ (forall k', k' <> k -> get k' (snd (delete k s)) = get k' s)
  /\ (forall k' m0,
        In (k', m0) (memories (snd (delete k s)))
        <-> In (k', m0) (memories s) /\ k' <> k)
  /\ nextId (snd (delete k s)) = nextId s
  /\ config (snd (delete k s)) = config s.
Proof.
  split; [apply mget_None |].
  split; [intros m Hm; apply mget_In; exact Hm |].
  pose proof (mget_None (memories s) k) as Hnone.
  unfold update, delete, get, mhas in *.
  destruct (mget (memories s) k) as [m |] eqn:Hget; simpl.
  - assert (Hkey : In k (map fst (memories s))).
    { destruct (in_dec string_dec k (map fst (memories s))) as [H | H];
        [exact H |]. apply Hnone in H. discriminate. }
    split; [split; [discriminate | intro H; contradiction] |].
    split; [intro H; contradiction |].
    split.
    + intros m0 [= <-].
      eexists. split; [reflexivity |]. simpl.
      split; [reflexivity |]. split; [reflexivity |]. split; [reflexivity |].
      split; [reflexivity |].
      split; [intro key; rewrite oget_ospread, oget_oset; reflexivity |].
      split; [rewrite mget_mset, String.eqb_refl; reflexivity |].
      split; [apply In_mset_same |].
      split.
      * intros k' Hk'. rewrite mget_mset.
        destruct (String.eqb_spec k k'); [subst; contradiction | reflexivity].
      * split; [intros k' m0 Hk'; apply In_mset_other; exact Hk' |].
        split; [apply keys_mset_present; rewrite Hget; discriminate |].
        split; reflexivity.
    + split; [split; [intros _; exact Hkey | reflexivity] |].
      split; [apply keys_mdelete |].
      split; [rewrite mget_mdelete, String.eqb_refl; reflexivity |].
      split.
      * intros k' Hk'. rewrite mget_mdelete.
        destruct (String.eqb_spec k k'); [subst; contradiction | reflexivity].
      * split; [intros k' m0; apply In_mdelete_iff |]. split; reflexivity.
  - assert (Hkey : ~ In k (map fst (memories s))) by (apply Hnone; reflexivity).
    split; [split; [intros _; exact Hkey | reflexivity] |].
    split; [reflexivity |].
    split; [discriminate |].
    split; [split; [discriminate | intro H; contradiction] |].
    split; [apply keys_mdelete |].
    split; [rewrite mget_mdelete, String.eqb_refl; reflexivity |].
    split.
    + intros k' Hk'. rewrite mget_mdelete.
      destruct (String.eqb_spec k k'); [subst; contradiction | reflexivity].
    + split; [intros k' m0; apply In_mdelete_iff |]. split; reflexivity.
Qed.

(** [update("mem_1", "hello there")] on the store of one record. *)
Lemma update_and_delete_witness :
  exists m',
    fst (update Example.clock 3000 "mem_1" "hello there" [] Example.one_record)
      = Ret m'
    /\ content m' = "hello there"%string
    /\ oget (metadata m') "lastUpdated" = Some (VStr "3000").
Proof.
  destruct (update_and_delete Example.clock 3000 "mem_1" "hello there" []
              Example.one_record) as (_ & _ & _ & _ & Hfound & _).
  destruct (get "mem_1" Example.one_record) as [m |] eqn:Hget;
    [| vm_compute in Hget; discriminate].
  destruct (Hfound m eq_refl) as (m' & Hu & _ & Hc & _ & _ & Hmd & _).
  exists m'. split; [rewrite Hu; reflexivity |]. split; [exact Hc |].
  rewrite Hmd. reflexivity.
Defined.

(** [update("mem_1", "hello there", {lastUpdated: "never"})]: the
    property of the call is copied over the stamp. *)
Lemma lastUpdated_overridden :
  exists m',
    fst (update Example.clock 3000 "mem_1" "hello there"
           [("lastUpdated", VStr "never")]%string Example.one_record) = Ret m'
    /\ oget (metadata m') "lastUpdated" = Some (VStr "never")
    /\ VStr "never" <> VStr (toISOString Example.clock 3000).
Proof.
  eexists. split; [vm_compute; reflexivity |].
  split; [vm_compute; reflexivity | vm_compute; discriminate].
Qed.

(** For the properties of an object, whose keys are distinct, the last
    value listed under a key is the value under the key. *)
Lemma last_value_distinct {V : Type} (o : obj V) (k : string) :
  Props.distinct (okeys o) = true -> last_value o k = oget o k.
Proof.
  unfold last_value.
  induction o as [| [k0 v0] o IH]; simpl; intro Hd; [reflexivity |].
  apply andb_prop in Hd. destruct Hd as [Hfresh Hd].
  rewrite oget_app, (IH Hd). simpl.
  destruct (String.eqb_spec k k0) as [-> | Hk0].
  - destruct (oget o k0) as [v |] eqn:Hin; [| reflexivity].
    exfalso. apply negb_true_iff in Hfresh.
    assert (Hex : existsb (String.eqb k0) (okeys o) = true).
    { clear -Hin. induction o as [| [k1 v1] o IH]; simpl in *; [discriminate |].
      destruct (String.eqb k0 k1); [reflexivity | exact (IH Hin)]. }
    rewrite Hex in Hfresh. discriminate.
  - destruct (oget o k); reflexivity.
Qed.

End UpdateDelete.

(** ** The id counter *)

Module Counter.

Import SimpleEmbedding Store Snapshot Example.

Lemma nextId_insert_record clk k m s :
  nextId (insert_record clk k m s) = nextId s.
Proof.
  unfold insert_record, evictOldest. simpl.
  destruct (maxMemories (config s) <? _)%Z; [| reflexivity]. simpl.
  destruct (fst (oldest clk _)) as [oldestId |]; [| reflexivity].
  destruct (String.eqb oldestId ""); reflexivity.
Qed.

Lemma config_insert_record clk k m s :
  config (insert_record clk k m s) = config s.
Proof.
  unfold insert_record, evictOldest. simpl.
  destruct (maxMemories (config s) <? _)%Z; [| reflexivity]. simpl.
  destruct (fst (oldest clk _)) as [oldestId |]; [| reflexivity].
  destruct (String.eqb oldestId ""); reflexivity.
Qed.

(** [nextId++] is the first statement of [add] and runs on every path. *)
Lemma nextId_add (clk : Clock) (now : Z) (content0 : string)
    (props : obj value) (s : Mem0) :
  nextId (snd (add clk now content0 props s)) = increment (nextId s).
Proof.
  unfold add.
  destruct (findSimilar content0 1 (with_nextId (increment (nextId s)) s))
    as [[| hit rest] | err]; simpl; try reflexivity.
  - apply nextId_insert_record.
  - destruct (threshold (config s) <? similarity hit)%float; simpl;
      [reflexivity | apply nextId_insert_record].
Qed.

(** Without [import] the counter starts at 1 and never leaves the
    range from 1 to 2^53. *)
Lemma reachable_counter (clk : Clock) (s : Mem0) :
  reachable clk false s -> (1 <= nextId s <= 9007199254740992)%Z.
Proof.
  induction 1 as [o | s now content0 props _ IH | s now k content0 props _ IH
                  | s k _ IH | s _ IH | s cutoff _ IH
                  | s now jsonData flag s' Hflag _ _ _].
  - simpl. lia.
  - rewrite nextId_add. apply Increment.increment_range. exact IH.
  - unfold update. destruct (mget (memories s) k); exact IH.
  - exact IH.
  - simpl. lia.
  - unfold cleanupExpired. destruct (negb (autoExpire (config s))); exact IH.
  - discriminate.
Qed.

(** C10.  A call of [add] on a store whose counter is an integer from
    -2^53 to below 2^53 leaves the counter one higher, whether it
    stores a new record, merges into an existing one or throws.  A
    store built without [import] has a counter from 1 to 2^53.  In the
    worked example the second call merges, returns the id of the first
    record and moves the counter from 2 to 3, so that the record added
    later is [mem_3] and the ids held are not contiguous. *)
Theorem add_advances_nextId :
  (forall clk now content0 props s,
      (- 9007199254740992 <= nextId s < 9007199254740992)%Z ->
      nextId (snd (add clk now content0 props s)) = (nextId s + 1)%Z)
  /\ (forall clk s,
        reachable clk false s -> (1 <= nextId s <= 9007199254740992)%Z)
  /\ (fst (add clock 2000 "hello world" [("category", VStr "c")]%string one_record)
        = Ret "mem_1"%string
      /\ size merged = size one_record
      /\ nextId one_record = 2%Z /\ nextId merged = 3%Z)
  /\ map fst (memories two_records) = ["mem_1"; "mem_3"]%string.
Proof.
  split; [| split; [exact reachable_counter |
                    split; [repeat split |]; vm_compute; reflexivity]].
  intros clk now content0 props s Hn. rewrite nextId_add.
  apply Increment.increment_exact. exact Hn.
Qed.

(** The first call of [add] on a fresh store. *)
Lemma add_advances_nextId_witness :
  nextId (snd (add clock 1000 "hello world" [] fresh)) = 2%Z.
Proof.
  exact (proj1 add_advances_nextId clock 1000%Z "hello world"%string [] fresh
           ltac:(vm_compute; split; [discriminate | reflexivity])).
Defined.

(** On the counter 2^53, which [import] sets, the sum is rounded back:
    [add] leaves the counter where it is and hands out the same id
    again, so that the second record replaces the first. *)
Lemma counter_stalls :
  import clock 500 (Some counter_snapshot) fresh = Some (true, saturated)
  /\ nextId saturated = 9007199254740992%Z
  /\ nextId (snd (add clock 1000 "hello world" [] saturated)) = nextId saturated
  /\ nextId (snd (add clock 1000 "hello world" [] saturated))
     <> (nextId saturated + 1)%Z
  /\ fst (add clock 1000 "hello world" [] saturated)
     = Ret "mem_9007199254740992"%string
  /\ fst (add clock 2000 "zebra crossing" []
            (snd (add clock 1000 "hello world" [] saturated)))
     = Ret "mem_9007199254740992"%string
  /\ option_map content
       (get "mem_9007199254740992"
          (snd (add clock 2000 "zebra crossing" []
                  (snd (add clock 1000 "hello world" [] saturated)))))
     = Some "zebra crossing"%string
  /\ size (snd (add clock 2000 "zebra crossing" []
                  (snd (add clock 1000 "hello world" [] saturated)))) = 1%Z.
Proof.
  repeat split; try (vm_compute; reflexivity).
  vm_compute. discriminate.
Qed.

End Counter.

(** ** The merge branch of add *)

Module Merge.

Import SimpleEmbedding Store MapFacts Example.

Lemma scan_In q ms : forall hits,
  scan q ms = Ret hits ->
  forall h, In h hits ->
    In (ref h, memory h) ms /\ hit_id h = id (memory h)
    /\ (0 <? similarity h)%float = true.
Proof.
  induction ms as [| [k m] ms IH]; simpl; intros hits Hscan h Hin.
  - injection Hscan as <-. contradiction.
  - destruct (embeddings m) as [e |]; [| discriminate].
    destruct (scan q ms) as [hits' | err]; [| discriminate].
    destruct (0 <? cosineSimilarity q e)%float eqn:Hpos;
      injection Hscan as <-.
    + destruct Hin as [<- | Hin]; simpl.
      * repeat split; [left; reflexivity | exact Hpos].
      * destruct (IH hits' eq_refl h Hin) as (H1 & H2 & H3).
        repeat split; [right; exact H1 | exact H2 | exact H3].
    + destruct (IH hits' eq_refl h Hin) as (H1 & H2 & H3).
      repeat split; [right; exact H1 | exact H2 | exact H3].
Qed.

Lemma In_insert_hit x l h : In h (insert_hit x l) -> h = x \/ In h l.
Proof.
  induction l as [| y l IH]; simpl.
  - intros [<- | []]. left. reflexivity.
  - destruct (0 <? compare_hits x y)%float; simpl.
    + intros [<- | H]; [right; left; reflexivity |].
      destruct (IH H) as [-> | H']; [left; reflexivity | right; right; exact H'].
    + intros [<- | [<- | H]];
        [left; reflexivity | right; left; reflexivity | right; right; exact H].
Qed.

Lemma In_sort_hits l h : In h (sort_hits l) -> In h l.
Proof.
  induction l as [| x l IH]; simpl; [intros [] |].
  intro H. destruct (In_insert_hit _ _ _ H) as [-> | H'];
    [left; reflexivity | right; exact (IH H')].
Qed.

Lemma In_firstn {A : Type} (x : A) : forall (n : nat) (l : list A),
  In x (firstn n l) -> In x l.
Proof.
  induction n as [| n IH]; intros l; simpl; [intros [] |].
  destruct l as [| y l]; simpl; [intros [] |].
  intros [H | H]; [left; exact H | right; exact (IH _ H)].
Qed.

Lemma In_slice0 {A : Type} (n : Z) (l : list A) (x : A) :
  In x (slice0 n l) -> In x l.
Proof.
  unfold slice0. destruct (n <? 0)%Z; apply In_firstn.
Qed.

(** A record that a search returns is held by the store. *)
Lemma search_In query limit s hits h :
  search query limit s = Ret hits -> In h hits ->
  In (ref h, memory h) (memories s) /\ hit_id h = id (memory h)
  /\ (0 <? similarity h)%float = true.
Proof.
  unfold search.
  destruct (scan (computeEmbedding query) (memories s)) as [results | err] eqn:Hscan;
    [| discriminate].
  intros [= <-] Hin.
  apply (scan_In _ _ _ Hscan). apply In_sort_hits. exact (In_slice0 _ _ _ Hin).
Qed.

Lemma In_mget ms k m : In (k, m) ms -> mget ms k <> None.
Proof.
  induction ms as [| [k0 m0] ms IH]; simpl; [intros [] |].
  destruct (String.eqb_spec k k0); [discriminate |].
  intros [H | H]; [inversion H; subst; contradiction | exact (IH H)].
Qed.

(** The merge branch in general.  When the best match of the search
    exceeds the threshold, [add] returns the id of the matched record
    and stores no new record; the record under the key of the match has
    the new content, the metadata of the call copied over its old
    metadata stamped with [lastUpdated], and no vector. *)
Lemma add_merges clk now content0 props s hit rest :
  findSimilar content0 1 (with_nextId (increment (nextId s)) s) = Ret (hit :: rest) ->
  (threshold (config s) <? similarity hit)%float = true ->
  fst (add clk now content0 props s) = Ret (id (memory hit))
  /\ map fst (memories (snd (add clk now content0 props s)))
     = map fst (memories s)
  /\ exists m',
       get (ref hit) (snd (add clk now content0 props s)) = Some m'
       /\ id m' = id (memory hit)
       /\ content m' = content0
       /\ embeddings m' = None
       /\ forall key,
            oget (metadata m') key =
            match last_value props key with
            | Some v => Some v
            | None =>
                if String.eqb "lastUpdated" key
                then Some (VStr (toISOString clk now))
                else oget (metadata (memory hit)) key
            end.
Proof.
  intros Hfind Hthr. unfold add. rewrite Hfind. simpl. rewrite Hthr. simpl.
  split; [reflexivity |]. split.
  - apply keys_mset_present.
    assert (Hin : In hit (hit :: rest)) by (left; reflexivity).
    destruct (search_In _ _ _ _ _ Hfind Hin) as (Hheld & _).
    exact (In_mget _ _ _ Hheld).
  - eexists. unfold get. simpl. rewrite mget_mset, String.eqb_refl.
    split; [reflexivity |]. simpl. repeat split.
    intro key. rewrite oget_ospread, oget_oset. reflexivity.
Qed.

(** C1.  On a store that holds "hello world" as [mem_1], the call
    [add("hello world", {category: "c"})] finds a match above the
    threshold: it returns [mem_1], the store still holds one record,
    the record has the new content and the merged metadata stamped with
    [lastUpdated]; but its vector, which was the vector of the content
    before the call, is [null] after it: the vector is not recomputed. *)
Theorem merge_leaves_vector_null :
  add clock 2000 "hello world" [("category", VStr "c")]%string one_record
    = (Ret "mem_1"%string, merged)
  /\ size one_record = 1%Z /\ size merged = 1%Z
  /\ option_map embeddings (get "mem_1" one_record)
     = Some (Some (computeEmbedding "hello world"))
  /\ option_map content (get "mem_1" merged) = Some "hello world"%string
  /\ option_map metadata (get "mem_1" merged)
     = Some [ ("timestamp", VStr "1000"); ("lastUpdated", VStr "2000");
              ("category", VStr "c") ]%string
  /\ option_map embeddings (get "mem_1" merged) = Some None.
Proof. repeat split; vm_compute; reflexivity. Qed.

(** C4.  The store left by that merge is reached by two calls of
    [add]; on it [search] throws a TypeError, and so does the next
    [add]. *)
Theorem search_throws_after_merge :
  reachable clock false merged
  /\ search "hello" 10 merged = Throw TypeError
  /\ fst (add clock 2500 "good bye" [] merged) = Throw TypeError.
Proof.
  split; [| split; vm_compute; reflexivity].
  unfold merged, one_record, fresh. do 2 apply reach_add. apply reach_new.
Qed.

End Merge.

(** ** Vectors at rest *)

Module Vectors.

Import SimpleEmbedding Store Snapshot Props MapFacts Example.

Lemma fresh_vectors_subset (s s' : Mem0) :
  (forall e, In e (memories s') -> In e (memories s)) ->
  fresh_vectors s -> fresh_vectors s'.
Proof. intros Hsub H k m Hin. exact (H k m (Hsub _ Hin)). Qed.

Lemma fresh_vectors_mset k m s :
  fresh_vector m -> fresh_vectors s ->
  fresh_vectors (with_memories (mset k m (memories s)) s).
Proof.
  intros Hm Hs k' m' Hin. simpl in Hin.
  destruct (In_mset _ _ _ _ _ Hin) as [[= -> ->] | Hold];
    [exact Hm | exact (Hs _ _ Hold)].
Qed.

Lemma fresh_vectors_evictOldest clk s :
  fresh_vectors s -> fresh_vectors (evictOldest clk s).
Proof.
  unfold evictOldest. intro H.
  destruct (fst (oldest clk (memories s))) as [oldestId |]; [| exact H].
  destruct (String.eqb oldestId ""); [exact H |].
  apply (fresh_vectors_subset s); [| exact H].
  intros e He. exact (In_mdelete _ _ _ He).
Qed.

Lemma fresh_vectors_insert_record clk k m s :
  fresh_vector m -> fresh_vectors s -> fresh_vectors (insert_record clk k m s).
Proof.
  intros Hm Hs. unfold insert_record.
  destruct (maxMemories _ <? _)%Z.
  - apply fresh_vectors_evictOldest. exact (fresh_vectors_mset _ _ _ Hm Hs).
  - exact (fresh_vectors_mset _ _ _ Hm Hs).
Qed.

Lemma fresh_vectors_add clk now content0 props s :
  fresh_vectors s -> fresh_vectors (snd (add clk now content0 props s)).
Proof.
  intro Hs.
  assert (Hs1 : fresh_vectors (with_nextId (increment (nextId s)) s)) by exact Hs.
  assert (Hnew : fresh_vector
            (set_embeddings (Some (computeEmbedding content0))
               (Memory_new clk now ("mem_" ++ numeral (nextId s)) content0 props
                  (oget props "tags"%string))))
    by (right; reflexivity).
  unfold add.
  destruct (findSimilar content0 1 (with_nextId (increment (nextId s)) s))
    as [[| hit rest] | err]; simpl.
  - exact (fresh_vectors_insert_record _ _ _ _ Hnew Hs1).
  - destruct (threshold (config s) <? similarity hit)%float; simpl.
    + apply (fresh_vectors_mset _ _ (with_nextId (increment (nextId s)) s)); [| exact Hs1].
      left. reflexivity.
    + exact (fresh_vectors_insert_record _ _ _ _ Hnew Hs1).
  - exact Hs1.
Qed.

Lemma fresh_vectors_update clk now k content0 props s :
  fresh_vectors s -> fresh_vectors (snd (update clk now k content0 props s)).
Proof.
  intro Hs. unfold update.
  destruct (mget (memories s) k) as [m |]; simpl; [| exact Hs].
  apply fresh_vectors_mset; [right; reflexivity | exact Hs].
Qed.

(** C3, as amended.  In every store that a sequence of [add],
    [update], [delete], [clear] and expiry sweeps leaves behind,
    starting from the constructor, the vector of every record is
    absent or is the vector of the record's content. *)
Theorem vectors_fresh_without_import (clk : Clock) (s : Mem0) :
  reachable clk false s -> fresh_vectors s.
Proof.
  induction 1 as [o | s now content0 props _ IH | s now k content0 props _ IH
                  | s k _ IH | s _ IH | s cutoff _ IH
                  | s now jsonData flag s' Hflag _ _ _].
  - intros k m [].
  - exact (fresh_vectors_add _ _ _ _ _ IH).
  - exact (fresh_vectors_update _ _ _ _ _ _ IH).
  - apply (fresh_vectors_subset s); [| exact IH].
    intros e He. exact (In_mdelete _ _ _ He).
  - intros k m [].
  - unfold cleanupExpired. destruct (negb (autoExpire (config s))); [exact IH |].
    apply (fresh_vectors_subset s); [| exact IH].
    intros e He. simpl in He. apply filter_In in He. apply He.
  - discriminate.
Qed.

(** The store of the worked example. *)
Lemma vectors_fresh_without_import_witness : fresh_vectors two_records.
Proof.
  apply (vectors_fresh_without_import clock).
  unfold two_records, repaired, merged, one_record, fresh.
  apply reach_add, reach_update, reach_add, reach_add, reach_new.
Defined.

(** C3 as stated fails.  [import] stores the vector that the snapshot
    gives: a snapshot whose record has the content "apple" and the
    vector of "banana" is imported as it is. *)
Lemma stale_vector_after_import :
  import clock 500 (Some stale_snapshot) fresh = Some (true, stale)
  /\ ~ (forall s, reachable clock true s -> fresh_vectors s).
Proof.
  assert (Himp : import clock 500 (Some stale_snapshot) fresh = Some (true, stale))
    by (vm_compute; reflexivity).
  split; [exact Himp |].
  intro H.
  assert (Hreach : reachable clock true stale).
  { apply (reach_import clock true fresh 500 (Some stale_snapshot) true stale);
      [reflexivity | apply reach_new | exact Himp]. }
  destruct (mget (memories stale) "a") as [m |] eqn:Hm;
    [| vm_compute in Hm; discriminate].
  destruct (H stale Hreach "a"%string m (mget_In _ _ _ Hm)) as [Hv | Hv];
    vm_compute in Hm; injection Hm as <-; vm_compute in Hv; discriminate.
Qed.

End Vectors.

(** ** The flag of import and the store it leaves *)

Module Importing.

Import SimpleEmbedding Store Snapshot Props Example MapFacts.













(** A snapshot that gives a capacity and a counter and has no
    [memories]: [import] returns false, and the store that held one
    record is left without records, with the capacity and the counter
    of the snapshot.  On the data [null] the capacity and the counter
    stay. *)
Example failed_import_overwrites :
  import clock 9000 (Some headless_snapshot) one_record
  = Some (false,
          {| memories := [];
             config := {| maxMemories := 5;
                          similarityThreshold := Some seven_tenths;
                          autoExpire := false; expireAfterDays := 30 |};
             nextId := 7 |})
  /\ maxMemories (config one_record) = 1000%Z /\ nextId one_record = 2%Z
  /\ import clock 9000 (Some VNull) one_record
     = Some (false, {| memories := []; config := config one_record; nextId := 2 |}).
Proof. repeat split; vm_compute; reflexivity. Qed.

(** A snapshot whose second entry is [null]: [import] returns false,
    and the store that held [mem_1] holds the record of the first
    entry instead. *)
Example failed_import_keeps_prefix :
  option_map fst (import clock 9000 (Some broken_snapshot) one_record) = Some false
  /\ option_map (fun r => map fst (memories (snd r)))
       (import clock 9000 (Some broken_snapshot) one_record) = Some ["a"%string]
  /\ map fst (memories one_record) = ["mem_1"%string].
Proof. repeat split; vm_compute; reflexivity. Qed.

End Importing.

(** ** Capacity and eviction *)

Module Capacity.

Import SimpleEmbedding Store Snapshot Props MapFacts Example.

(** What the loop of [evictOldest] has found after a run over [ms]:
    nothing when no record carries a date, otherwise the key and the
    date of an oldest record. *)
Lemma oldest_spec clk ms :
  (oldest clk ms = (None, None)
   /\ forall k m, In (k, m) ms -> time_of clk m = None)
  \/ exists k m t,
       oldest clk ms = (Some k, Some t)
       /\ In (k, m) ms /\ time_of clk m = Some t
       /\ forall k' m' t',
            In (k', m') ms -> time_of clk m' = Some t' -> (t <= t')%Z.
Proof.
  unfold oldest.
  induction ms as [| [k1 m1] ms IH] using rev_ind.
  - left. split; [reflexivity | intros k m []].
  - rewrite fold_left_app. simpl.
    destruct IH as [[Hacc Hnone] | (k & m & t & Hacc & Hin & Ht & Hmin)];
      rewrite Hacc; unfold older; simpl.
    + destruct (time_of clk m1) as [t1 |] eqn:Ht1.
      * right. exists k1, m1, t1. repeat split; try assumption.
        -- apply in_or_app. right. left. reflexivity.
        -- intros k' m' t' Hin' Ht'.
           apply in_app_or in Hin'. destruct Hin' as [Hin' | [[= <- <-] | []]].
           ++ rewrite (Hnone _ _ Hin') in Ht'. discriminate.
           ++ rewrite Ht1 in Ht'. injection Ht' as <-. lia.
      * left. split; [reflexivity |].
        intros k' m' Hin'.
        apply in_app_or in Hin'. destruct Hin' as [Hin' | [[= <- <-] | []]];
          [exact (Hnone _ _ Hin') | exact Ht1].
    + destruct (time_of clk m1) as [t1 |] eqn:Ht1.
      * destruct (t1 <? t)%Z eqn:Hlt.
        -- apply Z.ltb_lt in Hlt.
           right. exists k1, m1, t1. repeat split; try assumption.
           ++ apply in_or_app. right. left. reflexivity.
           ++ intros k' m' t' Hin' Ht'.
              apply in_app_or in Hin'. destruct Hin' as [Hin' | [[= <- <-] | []]].
              ** specialize (Hmin _ _ _ Hin' Ht'). lia.
              ** rewrite Ht1 in Ht'. injection Ht' as <-. lia.
        -- apply Z.ltb_ge in Hlt.
           right. exists k, m, t. repeat split; try assumption.
           ++ apply in_or_app. left. exact Hin.
           ++ intros k' m' t' Hin' Ht'.
              apply in_app_or in Hin'. destruct Hin' as [Hin' | [[= <- <-] | []]].
              ** exact (Hmin _ _ _ Hin' Ht').
              ** rewrite Ht1 in Ht'. injection Ht' as <-. exact Hlt.
      * right. exists k, m, t. repeat split; try assumption.
        -- apply in_or_app. left. exact Hin.
        -- intros k' m' t' Hin' Ht'.
           apply in_app_or in Hin'. destruct Hin' as [Hin' | [[= <- <-] | []]].
           ++ exact (Hmin _ _ _ Hin' Ht').
           ++ rewrite Ht1 in Ht'. discriminate.
Qed.

Lemma keys_nonempty_In ms k m :
  keys_nonempty ms = true -> In (k, m) ms -> String.eqb k "" = false.
Proof.
  unfold keys_nonempty. intros Hall Hin.
  rewrite forallb_forall in Hall. specialize (Hall _ Hin). simpl in Hall.
  apply negb_true_iff in Hall. exact Hall.
Qed.

(** When some record carries a date and no key is empty, [evictOldest]
    removes an oldest record. *)
Lemma evictOldest_removes_oldest clk s :
  keys_nonempty (memories s) = true ->
  (exists k m, In (k, m) (memories s) /\ time_of clk m <> None) ->
  exists victim mv,
    is_oldest clk (memories s) victim mv
    /\ memories (evictOldest clk s) = mdelete victim (memories s).
Proof.
  intros Hkeys (k0 & m0 & Hin0 & Hdate0). unfold evictOldest.
  destruct (oldest_spec clk (memories s))
    as [[_ Hnone] | (k & m & t & Hacc & Hin & Ht & Hmin)].
  - exfalso. exact (Hdate0 (Hnone _ _ Hin0)).
  - rewrite Hacc. simpl. rewrite (keys_nonempty_In _ _ _ Hkeys Hin).
    exists k, m. split; [| reflexivity].
    split; [exact Hin |]. exists t. split; [exact Ht | exact Hmin].
Qed.

Lemma length_mdelete_In k m ms :
  In (k, m) ms -> (List.length (mdelete k ms) < List.length ms)%nat.
Proof.
  unfold mdelete.
  induction ms as [| [k0 m0] ms IH]; simpl; [intros [] |].
  intros [Heq | Hin].
  - inversion Heq; subst. rewrite String.eqb_refl. simpl.
    pose proof (filter_length_le (fun entry => negb (k =? fst entry)%string) ms).
    lia.
  - specialize (IH Hin). destruct (negb (k =? k0)%string); simpl; lia.
Qed.

Lemma keys_nonempty_mset k m ms :
  String.eqb k "" = false -> keys_nonempty ms = true ->
  keys_nonempty (mset k m ms) = true.
Proof.
  unfold keys_nonempty. intros Hk. induction ms as [| [k0 m0] ms IH]; simpl.
  - intros _. rewrite Hk. reflexivity.
  - intro H. apply andb_prop in H. destruct H as [H0 H].
    destruct (String.eqb k k0); simpl; rewrite H0; simpl; [exact H | exact (IH H)].
Qed.

(** The date of a record made by the constructor: the timestamp of the
    call's metadata if it gives one, the clock's otherwise. *)
Lemma time_of_Memory_new clk now id0 content0 props tagsOf e :
  dated clk (last_value props "timestamp") = true ->
  time_of clk (set_embeddings e (Memory_new clk now id0 content0 props tagsOf))
    <> None.
Proof.
  unfold time_of, dated. simpl. rewrite oget_ospread. simpl.
  destruct (last_value props "timestamp") as [v |].
  - destruct (Date_getTime clk v); [discriminate | intros [=]].
  - intros _. rewrite getTime_toISOString. discriminate.
Qed.

Lemma size_insert_record clk k m s :
  (size s <= maxMemories (config s))%Z ->
  String.eqb k "" = false ->
  keys_nonempty (memories s) = true ->
  time_of clk m <> None ->
  (size (insert_record clk k m s) <= maxMemories (config (insert_record clk k m s)))%Z.
Proof.
  intros Hsize Hk Hkeys Hdate.
  rewrite Counter.config_insert_record. unfold insert_record.
  set (s2 := with_memories (mset k m (memories s)) s).
  change (config s2) with (config s).
  destruct (maxMemories (config s) <? size s2)%Z eqn:Hover.
  - assert (Hnew : In (k, m) (memories s2)).
    { apply mget_In. simpl. rewrite mget_mset, String.eqb_refl. reflexivity. }
    destruct (evictOldest_removes_oldest clk s2) as (victim & mv & [Hin _] & Hmem).
    + exact (keys_nonempty_mset _ _ _ Hk Hkeys).
    + exists k, m. split; assumption.
    + unfold size. rewrite Hmem.
      pose proof (length_mdelete_In _ _ _ Hin) as Hlt.
      unfold s2 in Hlt. simpl in Hlt. rewrite length_mset in Hlt.
      unfold size in Hsize.
      unfold s2. simpl. destruct (mget (memories s) k); lia.
  - apply Z.ltb_ge in Hover. exact Hover.
Qed.

(** C2, as amended.  When the store holds at most [maxMemories]
    records before a call of [add], every key is a string that is not
    empty and the timestamp that the call's metadata gives, if any, is
    a date, then the store holds at most [maxMemories] records after
    the call.  And when storing a record takes the size above
    [maxMemories], every key is a string that is not empty and some
    record carries a date, the record removed is one that carries a
    date and than which no record carries an earlier date. *)
Theorem add_within_capacity (clk : Clock) :
  (forall now content0 props s,
      (size s <= maxMemories (config s))%Z ->
      dated clk (last_value props "timestamp") = true ->
      keys_nonempty (memories s) = true ->
      (size (snd (add clk now content0 props s))
         <= maxMemories (config (snd (add clk now content0 props s))))%Z)
  /\ (forall k m s,
        (maxMemories (config s)
           < size (with_memories (mset k m (memories s)) s))%Z ->
        keys_nonempty (mset k m (memories s)) = true ->
        (exists k' m',
            In (k', m') (mset k m (memories s)) /\ time_of clk m' <> None) ->
        exists victim mv,
          is_oldest clk (mset k m (memories s)) victim mv
          /\ memories (insert_record clk k m s)
             = mdelete victim (mset k m (memories s))).
Proof.
  split.
  - intros now content0 props s Hsize Hdated Hkeys. unfold add.
    set (s1 := with_nextId (increment (nextId s)) s).
    set (memory0 := set_embeddings _ _).
    assert (Hinsert :
      (size (insert_record clk ("mem_" ++ numeral (nextId s)) memory0 s1)
         <= maxMemories
              (config (insert_record clk ("mem_" ++ numeral (nextId s)) memory0 s1)))%Z).
    { apply size_insert_record;
        [exact Hsize | reflexivity | exact Hkeys
        | apply time_of_Memory_new; exact Hdated]. }
    destruct (findSimilar content0 1 s1) as [[| hit rest] | err] eqn:Hfind; simpl.
    + exact Hinsert.
    + destruct (threshold (config s) <? similarity hit)%float; simpl;
        [| exact Hinsert].
      unfold size. simpl. rewrite length_mset.
      assert (Hin : In hit (hit :: rest)) by (left; reflexivity).
      destruct (Merge.search_In _ _ _ _ _ Hfind Hin) as (Hheld & _).
      pose proof (Merge.In_mget _ _ _ Hheld) as Hpresent. simpl in Hpresent.
      destruct (mget (memories s) (ref hit)); [exact Hsize | contradiction].
    + exact Hsize.
  - intros k m s Hover Hkeys Hsome. unfold insert_record.
    apply Z.ltb_lt in Hover. simpl in Hover |- *. rewrite Hover.
    exact (evictOldest_removes_oldest clk
             (with_memories (mset k m (memories s)) s) Hkeys Hsome).
Qed.

(** A second record added to the full store of capacity one. *)
Lemma add_within_capacity_witness :
  (size (snd (add clock 2000 "car truck" [] small_full))
     <= maxMemories (config (snd (add clock 2000 "car truck" [] small_full))))%Z.
Proof.
  apply (add_within_capacity clock); [vm_compute; discriminate | reflexivity | reflexivity].
Defined.

(** A timestamp that is no date is never the oldest: with the capacity
    one, two records whose metadata give such timestamps both stay. *)
Example undated_records_stay :
  let s1 := snd (add clock 1000 "apple pie" [("timestamp", VStr "soon")]%string small) in
  let r := add clock 2000 "car truck" [("timestamp", VStr "later")]%string s1 in
  fst r = Ret "mem_2"%string /\ map fst (memories (snd r)) = ["mem_1"; "mem_2"]%string.
Proof. vm_compute. split; reflexivity. Qed.

(** A record under the empty string is never evicted: the store of
    capacity one that holds such a record holds two records after a
    call of [add]. *)
Example empty_key_stays :
  import clock 500 (Some empty_key_snapshot) small = Some (true, keyless)
  /\ size keyless = 1%Z /\ maxMemories (config keyless) = 1%Z
  /\ fst (add clock 3000 "cherry" [] keyless) = Ret "mem_2"%string
  /\ map fst (memories (snd (add clock 3000 "cherry" [] keyless)))
     = [""; "mem_2"]%string.
Proof. repeat split; vm_compute; reflexivity. Qed.

(** The example of the capacity two: the third record takes the place
    of the first. *)
Example third_record_evicts_first :
  let cap2 := Mem0_new {| opt_maxMemories := Some 2%Z;
                          opt_similarityThreshold := None;
                          opt_autoExpire := None; opt_expireAfterDays := None |} in
  let s1 := snd (add clock 1 "apple banana" [] cap2) in
  let s2 := snd (add clock 2 "car truck" [] s1) in
  let r := add clock 3 "airplane rocket" [] s2 in
  fst r = Ret "mem_3"%string /\ map fst (memories (snd r)) = ["mem_2"; "mem_3"]%string.
Proof. vm_compute. split; reflexivity. Qed.

(** C2 as stated fails.  [import] does not enforce the limit: a store
    of capacity one holds two records after it has imported two, and a
    call of [add] that stores a third removes one record only. *)
Lemma overfull_after_add :
  import clock 500 (Some two_record_snapshot) small = Some (true, overfull)
  /\ fst (add clock 3000 "cherry" [] overfull) = Ret "mem_3"%string
  /\ maxMemories (config (snd (add clock 3000 "cherry" [] overfull))) = 1%Z
  /\ size (snd (add clock 3000 "cherry" [] overfull)) = 2%Z
  /\ ~ (size (snd (add clock 3000 "cherry" [] overfull))
          <= maxMemories (config (snd (add clock 3000 "cherry" [] overfull))))%Z.
Proof.
  repeat split; try (vm_compute; reflexivity).
  vm_compute. intro H. apply H. reflexivity.
Qed.

End Capacity.

(** ** The shape of the stores reached *)

Module WellFormed.

Import SimpleEmbedding Store Snapshot Props MapFacts Example.

Lemma okeys_oreplace {V : Type} (k : string) (v : V) (o : obj V) :
  okeys (oreplace k v o) = okeys o.
Proof.
  unfold okeys. induction o as [| [k0 v0] o IH]; simpl; [reflexivity |].
  destruct (String.eqb k k0); simpl; [reflexivity | rewrite IH; reflexivity].
Qed.

Lemma existsb_oinsert {V : Type} (k0 k : string) (v : V) (o : obj V) :
  existsb (String.eqb k0) (okeys (oinsert k v o))
  = String.eqb k0 k || existsb (String.eqb k0) (okeys o).
Proof.
  unfold okeys. induction o as [| [k1 v1] o IH]; simpl; [reflexivity |].
  destruct (key_before k k1); simpl; [reflexivity |].
  rewrite IH. destruct (String.eqb k0 k1), (String.eqb k0 k); reflexivity.
Qed.

Lemma oget_existsb {V : Type} (o : obj V) (k : string) :
  oget o k = None -> existsb (String.eqb k) (okeys o) = false.
Proof.
  induction o as [| [k0 v0] o IH]; simpl; [reflexivity |].
  destruct (String.eqb k k0); simpl; [discriminate | exact IH].
Qed.

Lemma distinct_oinsert {V : Type} (k : string) (v : V) (o : obj V) :
  oget o k = None -> distinct (okeys o) = true ->
  distinct (okeys (oinsert k v o)) = true.
Proof.
  induction o as [| [k0 v0] o IH]; simpl; intros Hnone Hd; [reflexivity |].
  destruct (String.eqb_spec k k0) as [-> | Hne]; [discriminate |].
  apply andb_prop in Hd. destruct Hd as [Hk0 Hd].
  destruct (key_before k k0); simpl.
  - destruct (String.eqb_spec k k0); [contradiction |]. simpl.
    fold (okeys o). rewrite (oget_existsb o k Hnone). simpl.
    fold (okeys o) in Hk0. rewrite Hk0. exact Hd.
  - fold (okeys (oinsert k v o)). rewrite existsb_oinsert.
    destruct (String.eqb_spec k0 k) as [-> | _]; [contradiction |]. simpl.
    fold (okeys o) in Hk0. rewrite Hk0. simpl. exact (IH Hnone Hd).
Qed.

Lemma distinct_oset {V : Type} (k : string) (v : V) (o : obj V) :
  distinct (okeys o) = true -> distinct (okeys (oset k v o)) = true.
Proof.
  unfold oset. intro Hd. destruct (oget o k) eqn:Hk.
  - rewrite okeys_oreplace. exact Hd.
  - exact (distinct_oinsert k v o Hk Hd).
Qed.

Lemma distinct_ospread {V : Type} (b : obj V) : forall a,
  distinct (okeys a) = true -> distinct (okeys (ospread a b)) = true.
Proof.
  unfold ospread. induction b as [| [k v] b IH]; simpl; intros a Hd; [exact Hd |].
  apply IH. exact (distinct_oset k v a Hd).
Qed.

Lemma stamped_oset (k : string) (v : value) (o : obj value) :
  oget o "timestamp" <> None -> oget (oset k v o) "timestamp" <> None.
Proof.
  intro H. rewrite oget_oset. destruct (String.eqb k "timestamp"); [discriminate | exact H].
Qed.

Lemma stamped_ospread (a b : obj value) :
  oget a "timestamp" <> None -> oget (ospread a b) "timestamp" <> None.
Proof.
  intro H. rewrite oget_ospread.
  destruct (last_value b "timestamp"); [discriminate | exact H].
Qed.

Lemma has_timestamp_spec (m : Memory) :
  has_timestamp m = true <-> oget (metadata m) "timestamp" <> None.
Proof.
  unfold has_timestamp. destruct (oget (metadata m) "timestamp"); split;
    try discriminate; try reflexivity. intro H. contradiction H. reflexivity.
Qed.

Lemma truthy_or_empty_array (v : option value) : truthy (or_empty_array v) = true.
Proof.
  unfold or_empty_array. destruct v as [x |]; [| reflexivity].
  destruct (truthy x) eqn:Hx; [exact Hx | reflexivity].
Qed.

(** The record that the constructor makes is well formed. *)
Lemma well_formed_Memory_new clk now id0 content0 props tagsOf e :
  well_formed_memory
    (set_embeddings e (Memory_new clk now id0 content0 props tagsOf)) = true.
Proof.
  unfold well_formed_memory. simpl. rewrite truthy_or_empty_array. simpl.
  apply andb_true_intro. split.
  - apply has_timestamp_spec. simpl. apply stamped_ospread. discriminate.
  - apply distinct_ospread. reflexivity.
Qed.

Lemma well_formed_parts (m : Memory) :
  well_formed_memory m = true ->
  truthy (tags m) = true /\ oget (metadata m) "timestamp" <> None
  /\ distinct (okeys (metadata m)) = true.
Proof.
  unfold well_formed_memory. intro H.
  apply andb_prop in H. destruct H as [H Hd].
  apply andb_prop in H. destruct H as [Ht Hs].
  repeat split; try assumption. apply has_timestamp_spec. exact Hs.
Qed.

(** A content update followed by a merge of metadata keeps a record
    well formed, whatever vector is stored afterwards. *)
Lemma well_formed_merge_into clk now content0 props m e :
  well_formed_memory m = true ->
  well_formed_memory
    (set_embeddings e (merge_into clk now content0 props m)) = true.
Proof.
  intro H. destruct (well_formed_parts m H) as (Ht & Hs & Hd).
  unfold well_formed_memory. simpl. rewrite Ht. simpl.
  apply andb_true_intro. split.
  - apply has_timestamp_spec. simpl. apply stamped_ospread, stamped_oset. exact Hs.
  - apply distinct_ospread, distinct_oset. exact Hd.
Qed.

Lemma existsb_keys_mget ms k :
  existsb (String.eqb k) (map fst ms) = false <-> mget ms k = None.
Proof.
  induction ms as [| [k0 m0] ms IH]; simpl; [split; reflexivity |].
  destruct (String.eqb k k0); simpl; [split; discriminate | exact IH].
Qed.

Lemma existsb_keys_mset k0 k m ms :
  existsb (String.eqb k0) (map fst (mset k m ms))
  = String.eqb k0 k || existsb (String.eqb k0) (map fst ms).
Proof.
  induction ms as [| [k1 m1] ms IH]; simpl; [reflexivity |].
  destruct (String.eqb_spec k k1) as [-> | Hne]; simpl.
  - destruct (String.eqb k0 k1); reflexivity.
  - rewrite IH. destruct (String.eqb k0 k1), (String.eqb k0 k); reflexivity.
Qed.

Lemma distinct_mset k m ms :
  distinct (map fst ms) = true -> distinct (map fst (mset k m ms)) = true.
Proof.
  induction ms as [| [k0 m0] ms IH]; simpl; intro Hd; [reflexivity |].
  apply andb_prop in Hd. destruct Hd as [Hk0 Hd].
  destruct (String.eqb_spec k k0) as [-> | Hne]; simpl.
  - rewrite Hk0. exact Hd.
  - rewrite existsb_keys_mset.
    destruct (String.eqb_spec k0 k) as [-> | _]; [contradiction |]. simpl.
    rewrite Hk0. exact (IH Hd).
Qed.

Lemma existsb_keys_filter (f : string * Memory -> bool) k ms :
  existsb (String.eqb k) (map fst ms) = false ->
  existsb (String.eqb k) (map fst (filter f ms)) = false.
Proof.
  induction ms as [| [k0 m0] ms IH]; simpl; [reflexivity |].
  intro H. apply orb_false_elim in H. destruct H as [H0 H].
  destruct (f (k0, m0)); simpl; [rewrite H0 |]; exact (IH H).
Qed.

Lemma distinct_filter (f : string * Memory -> bool) ms :
  distinct (map fst ms) = true -> distinct (map fst (filter f ms)) = true.
Proof.
  induction ms as [| [k0 m0] ms IH]; simpl; intro Hd; [reflexivity |].
  apply andb_prop in Hd. destruct Hd as [Hk0 Hd].
  destruct (f (k0, m0)); simpl; [| exact (IH Hd)].
  apply negb_true_iff in Hk0.
  rewrite (existsb_keys_filter f _ _ Hk0). exact (IH Hd).
Qed.

Lemma forallb_mset (f : Memory -> bool) k m ms :
  f m = true -> forallb (fun entry => f (snd entry)) ms = true ->
  forallb (fun entry => f (snd entry)) (mset k m ms) = true.
Proof.
  intro Hm. induction ms as [| [k0 m0] ms IH]; simpl; intro H.
  - rewrite Hm. reflexivity.
  - apply andb_prop in H. destruct H as [H0 H].
    destruct (String.eqb k k0); simpl; [rewrite Hm | rewrite H0]; simpl;
      [exact H | exact (IH H)].
Qed.

Lemma forallb_filter {A : Type} (f g : A -> bool) (l : list A) :
  forallb f l = true -> forallb f (filter g l) = true.
Proof.
  induction l as [| x l IH]; simpl; intro H; [reflexivity |].
  apply andb_prop in H. destruct H as [Hx H].
  destruct (g x); simpl; [rewrite Hx |]; exact (IH H).
Qed.

Lemma well_formed_intro ms c n :
  distinct (map fst ms) = true ->
  forallb (fun entry => well_formed_memory (snd entry)) ms = true ->
  (0 < n)%Z ->
  well_formed {| memories := ms; config := c; nextId := n |} = true.
Proof.
  intros Hd Hall Hn. unfold well_formed. simpl. rewrite Hd, Hall. simpl.
  apply Z.ltb_lt. exact Hn.
Qed.

Lemma well_formed_elim s :
  well_formed s = true ->
  distinct (map fst (memories s)) = true
  /\ forallb (fun entry => well_formed_memory (snd entry)) (memories s) = true
  /\ (0 < nextId s)%Z.
Proof.
  unfold well_formed. intro H.
  apply andb_prop in H. destruct H as [H Hn].
  apply andb_prop in H. destruct H as [Hd Hall].
  repeat split; try assumption. apply Z.ltb_lt. exact Hn.
Qed.

Lemma well_formed_insert_record clk k m s :
  well_formed_memory m = true -> well_formed s = true ->
  well_formed (insert_record clk k m s) = true.
Proof.
  intros Hm Hs. destruct (well_formed_elim s Hs) as (Hd & Hall & Hn).
  assert (Hd2 : distinct (map fst (mset k m (memories s))) = true)
    by exact (distinct_mset _ _ _ Hd).
  assert (Hall2 : forallb (fun entry => well_formed_memory (snd entry))
                    (mset k m (memories s)) = true)
    by exact (forallb_mset _ _ _ _ Hm Hall).
  unfold insert_record. simpl.
  destruct (maxMemories (config s) <? _)%Z;
    [| exact (well_formed_intro _ _ _ Hd2 Hall2 Hn)].
  unfold evictOldest. simpl.
  destruct (fst (oldest clk (mset k m (memories s)))) as [oldestId |];
    [| exact (well_formed_intro _ _ _ Hd2 Hall2 Hn)].
  destruct (String.eqb oldestId "");
    [exact (well_formed_intro _ _ _ Hd2 Hall2 Hn) |].
  apply well_formed_intro; [| | exact Hn].
  - exact (distinct_filter _ _ Hd2).
  - exact (forallb_filter _ _ _ Hall2).
Qed.

Lemma forallb_In {A : Type} (f : A -> bool) (l : list A) (x : A) :
  forallb f l = true -> In x l -> f x = true.
Proof. intros H Hin. rewrite forallb_forall in H. exact (H x Hin). Qed.

(** Every store that the operations other than [import] reach has
    distinct keys and a positive counter, and its records have truthy
    tags, a timestamp and metadata with distinct keys. *)
Lemma reachable_well_formed clk s : reachable clk false s -> well_formed s = true.
Proof.
  induction 1 as [o | s now content0 props Hr IH | s now k content0 props _ IH
                  | s k _ IH | s _ IH | s cutoff _ IH
                  | s now jsonData flag s' Hflag _ _ _].
  - reflexivity.
  - destruct (well_formed_elim s IH) as (Hd & Hall & Hn).
    pose proof (Increment.increment_range _ (Counter.reachable_counter _ _ Hr))
      as Hcount.
    assert (Hs1 : well_formed (with_nextId (increment (nextId s)) s) = true)
      by (apply well_formed_intro; [exact Hd | exact Hall | simpl; lia]).
    unfold add.
    destruct (findSimilar content0 1 (with_nextId (increment (nextId s)) s))
      as [[| hit rest] | err] eqn:Hfind; simpl.
    + apply well_formed_insert_record; [apply well_formed_Memory_new | exact Hs1].
    + destruct (threshold (config s) <? similarity hit)%float; simpl.
      * assert (Hin : In hit (hit :: rest)) by (left; reflexivity).
        destruct (Merge.search_In _ _ _ _ _ Hfind Hin) as (Hheld & _).
        simpl in Hheld.
        pose proof (forallb_In _ _ _ Hall Hheld) as Hm. simpl in Hm.
        apply well_formed_intro; [exact (distinct_mset _ _ _ Hd) | | simpl; lia].
        apply forallb_mset; [| exact Hall].
        pose proof (well_formed_merge_into clk now content0 props (memory hit)
                      None Hm) as Hmerged.
        exact Hmerged.
      * apply well_formed_insert_record; [apply well_formed_Memory_new | exact Hs1].
    + exact Hs1.
  - destruct (well_formed_elim s IH) as (Hd & Hall & Hn).
    unfold update. destruct (mget (memories s) k) as [m |] eqn:Hget; simpl;
      [| exact IH].
    apply well_formed_intro; [exact (distinct_mset _ _ _ Hd) | | exact Hn].
    apply forallb_mset; [| exact Hall].
    pose proof (forallb_In _ _ _ Hall (mget_In _ _ _ Hget)) as Hm. simpl in Hm.
    exact (well_formed_merge_into clk now content0 props m _ Hm).
  - destruct (well_formed_elim s IH) as (Hd & Hall & Hn).
    apply well_formed_intro; [| | exact Hn].
    + exact (distinct_filter _ _ Hd).
    + exact (forallb_filter _ _ _ Hall).
  - reflexivity.
  - destruct (well_formed_elim s IH) as (Hd & Hall & Hn).
    unfold cleanupExpired. destruct (negb (autoExpire (config s))); [exact IH |].
    apply well_formed_intro; [| | exact Hn].
    + exact (distinct_filter _ _ Hd).
    + exact (forallb_filter _ _ _ Hall).
  - discriminate.
Qed.

End WellFormed.

(** ** Export followed by import *)

Module RoundTrip.

Import SimpleEmbedding Store Snapshot Props MapFacts Example.

Lemma number_JSON_id x :
  is_finite x && negb (is_zero x && get_sign x) = true -> number_JSON x = VNum x.
Proof.
  unfold number_JSON. intro H. apply andb_prop in H. destruct H as [Hfin Hz].
  rewrite Hfin. apply negb_true_iff in Hz. rewrite Hz. reflexivity.
Qed.

(** JSON data is carried unchanged. *)
Lemma to_JSON_id : forall v, json_data v = true -> to_JSON v = v.
Proof.
  fix IH 1. intros [| b | n | x | str | l | o]; simpl; intro H;
    try reflexivity.
  - exact (number_JSON_id x H).
  - f_equal. induction l as [| v l IHl]; simpl in *; [reflexivity |].
    apply andb_prop in H. destruct H as [Hv Hl].
    rewrite (IH v Hv), (IHl Hl). reflexivity.
  - f_equal. induction o as [| [k v] o IHo]; simpl in *; [reflexivity |].
    apply andb_prop in H. destruct H as [Hv Ho].
    rewrite (IH v Hv), (IHo Ho). reflexivity.
Qed.

Lemma object_JSON_id (o : obj value) :
  forallb (fun kv => json_data (snd kv)) o = true -> object_JSON o = o.
Proof.
  unfold object_JSON.
  induction o as [| [k v] o IH]; simpl; intro H; [reflexivity |].
  apply andb_prop in H. destruct H as [Hv Ho].
  rewrite (to_JSON_id v Hv), (IH Ho). reflexivity.
Qed.

(** Every weight that [export] writes is read back. *)
Lemma read_weights_written (w : embedding) : forall acc,
  exists e,
    fold_left read_weight (map (fun kv => (fst kv, number_JSON (snd kv))) w)
      (Some acc) = Some e.
Proof.
  induction w as [| [k x] w IH]; simpl; intro acc.
  - exists acc. reflexivity.
  - unfold number_JSON.
    destruct (is_finite x); [destruct (is_zero x && get_sign x) |]; simpl;
      apply IH.
Qed.

Lemma read_embeddings_written (e : option embedding) :
  exists e', read_embeddings (Some (embeddings_JSON e)) = Some e'.
Proof.
  destruct e as [w |]; [| exists None; reflexivity].
  unfold embeddings_JSON, read_embeddings.
  destruct (read_weights_written w []) as [e' He'].
  unfold embedding, obj in *. rewrite He'.
  exists (Some e'). reflexivity.
Qed.

(** A record that is written and read back is the same record. *)
Lemma read_memory_written clk now m :
  exportable_memory m = true ->
  exists m',
    read_memory clk now (memory_JSON m) = Read m' /\ same_record m m'.
Proof.
  unfold exportable_memory. intro H.
  apply andb_prop in H. destruct H as [H Hvalues].
  apply andb_prop in H. destruct H as [H Hdistinct].
  apply andb_prop in H. destruct H as [H Hstamp].
  apply andb_prop in H. destruct H as [Htags Htruthy].
  unfold read_memory, memory_JSON. cbn [prop oget String.eqb Ascii.eqb Bool.eqb].
  destruct (read_embeddings_written (embeddings m)) as [e' He']. rewrite He'.
  rewrite (object_JSON_id _ Hvalues), (to_JSON_id _ Htags).
  eexists. split; [reflexivity |].
  unfold same_record. simpl. unfold or_empty_array. rewrite Htruthy.
  repeat split.
  intro k. rewrite oget_ospread, (UpdateDelete.last_value_distinct _ _ Hdistinct).
  destruct (oget (metadata m) k) as [v |] eqn:Hk; [reflexivity |]. simpl.
  destruct (String.eqb_spec k "timestamp") as [-> | Hne]; [| reflexivity].
  unfold has_timestamp in Hstamp. rewrite Hk in Hstamp. discriminate.
Qed.

Lemma existsb_mget ms k :
  existsb (String.eqb k) (map fst ms) = false -> mget ms k = None.
Proof.
  induction ms as [| [k0 m0] ms IH]; simpl; [reflexivity |].
  destruct (String.eqb k k0); simpl; [discriminate | exact IH].
Qed.

Lemma mset_absent k m ms : mget ms k = None -> mset k m ms = ms ++ [(k, m)].
Proof.
  induction ms as [| [k0 m0] ms IH]; simpl; [reflexivity |].
  destruct (String.eqb k k0); [discriminate |].
  intro H. rewrite (IH H). reflexivity.
Qed.

Lemma existsb_app_false k (l l' : list string) :
  existsb (String.eqb k) l = false -> existsb (String.eqb k) l' = false ->
  existsb (String.eqb k) (l ++ l') = false.
Proof. intros H H'. rewrite existsb_app, H, H'. reflexivity. Qed.

(** The loop of [import] over the entries that [export] wrote. *)
Lemma import_entries_written clk now ms : forall s0,
  distinct (map fst ms) = true ->
  forallb (fun entry => exportable_memory (snd entry)) ms = true ->
  (forall k, existsb (String.eqb k) (map fst ms) = true ->
             mget (memories s0) k = None) ->
  exists ms',
    import_entries clk now
      (map (fun entry => VArr [VStr (fst entry); memory_JSON (snd entry)]) ms) s0
      = Some (true, with_memories (memories s0 ++ ms') s0)
    /\ Forall2 (fun e e' => fst e = fst e' /\ same_record (snd e) (snd e')) ms ms'.
Proof.
  induction ms as [| [k m] ms IH]; intros s0 Hdistinct Hexp Hfresh.
  - exists []. simpl. rewrite app_nil_r. split; [destruct s0; reflexivity | constructor].
  - simpl in Hdistinct, Hexp.
    apply andb_prop in Hdistinct. destruct Hdistinct as [Hk Hdistinct].
    apply negb_true_iff in Hk.
    apply andb_prop in Hexp. destruct Hexp as [Hm Hexp].
    destruct (read_memory_written clk now m Hm) as (m' & Hread & Hsame).
    cbn [map import_entries iterate nth_error fst snd].
    assert (Hjson : exists o, memory_JSON m = VObj o) by (eexists; reflexivity).
    destruct Hjson as [o Ho]. rewrite Ho in Hread |- *. rewrite Hread.
    assert (Hnone : mget (memories s0) k = None).
    { apply Hfresh. simpl. rewrite String.eqb_refl. reflexivity. }
    destruct (IH (with_memories (mset k m' (memories s0)) s0) Hdistinct Hexp)
      as (ms' & Himp & Hall).
    { intros k' Hk'. simpl. rewrite mget_mset.
      destruct (String.eqb_spec k k') as [<- | Hne].
      - rewrite Hk in Hk'. discriminate.
      - apply Hfresh. simpl. rewrite Hk'. apply orb_true_r. }
    exists ((k, m') :: ms'). split.
    + rewrite Himp. simpl. rewrite (mset_absent _ _ _ Hnone), <- app_assoc.
      reflexivity.
    + constructor; [split; [reflexivity | exact Hsame] | exact Hall].
Qed.


(** The configuration that [export] wrote is read back over itself:
    the capacity, the flag and the number of days are the same, and
    the threshold is what JSON makes of it. *)
Lemma merge_config_written (c0 : Config) :
  exists c,
    merge_config c0 (Some (config_JSON c0)) = Some c
    /\ maxMemories c = maxMemories c0
    /\ autoExpire c = autoExpire c0
    /\ expireAfterDays c = expireAfterDays c0
    /\ similarityThreshold c
       = match similarityThreshold c0 with
         | Some x =>
             if is_finite x
             then Some (if is_zero x && get_sign x then 0%float else x)
             else None
         | None => None
         end.
Proof.
  unfold merge_config, config_JSON, number_JSON.
  destruct (similarityThreshold c0) as [x |];
    [destruct (is_finite x); [destruct (is_zero x && get_sign x) |] |];
    eexists; (split; [reflexivity |]); repeat split; reflexivity.
Qed.

(** The round trip of a store that a snapshot can carry. *)
Lemma round_trip (clk : Clock) (now now' : Z) (s : Mem0) :
  exportable s = true ->
  exists s',
    import clk now' (Some (export clk now s)) (fresh_like s) = Some (true, s')
    /\ same_records s s'
    /\ nextId s' = nextId s
    /\ maxMemories (config s') = maxMemories (config s)
    /\ autoExpire (config s') = autoExpire (config s)
    /\ expireAfterDays (config s') = expireAfterDays (config s).
Proof.
  unfold exportable. intro H.
  apply andb_prop in H. destruct H as [H Hnext].
  apply andb_prop in H. destruct H as [Hdistinct Hexp].
  unfold import, export.
  cbn [prop oget String.eqb Ascii.eqb Bool.eqb with_memories fresh_like
       memories config nextId].
  destruct (merge_config_written (config s)) as (c & Hc & Hmax & Hauto & Hdays & _).
  rewrite Hc.
  unfold read_nextId. cbn [truthy]. rewrite Hnext.
  cbn [iterate with_config with_nextId memories config nextId].
  destruct (import_entries_written clk now' (memories s)
              {| memories := []; config := c; nextId := nextId s |}
              Hdistinct Hexp) as (ms' & Himp & Hall).
  { intros k _. reflexivity. }
  change (with_nextId (nextId s)
            (with_config c (with_memories [] (fresh_like s))))
    with {| memories := []; config := c; nextId := nextId s |}.
  rewrite Himp. eexists. split; [reflexivity |].
  split; [exact Hall |]. split; [reflexivity |].
  split; [exact Hmax |]. split; [exact Hauto | exact Hdays].
Qed.




(** A counter of zero is read back as one: after the import of a
    counter of -1 and one call of [add], the counter is 0, and the
    snapshot of that store restores the counter 1. *)
Example zero_counter_not_restored :
  let imported :=
    import clock 1 (Some (VObj [("memories", VArr []); ("nextId", VInt (-1))]%string))
      fresh in
  let s := match imported with
           | Some (_, s0) => snd (add clock 2 "apple" [] s0)
           | None => fresh
           end in
  option_map fst imported = Some true
  /\ nextId s = 0%Z
  /\ option_map (fun r => nextId (snd r))
       (import clock 4 (Some (export clock 3 s)) (fresh_like s)) = Some 1%Z.
Proof. vm_compute. repeat split; reflexivity. Qed.

(** A threshold that is not finite is written as [null] and read back
    as [null]; the records and the counter come back as they were. *)
Example infinite_threshold_restored :
  similarityThreshold (config unbounded) = Some infinity
  /\ exists s',
       import clock 2000 (Some (export clock 1500 unbounded)) (fresh_like unbounded)
         = Some (true, s')
       /\ same_records unbounded s'
       /\ nextId s' = nextId unbounded
       /\ similarityThreshold (config s') = None.
Proof.
  split; [reflexivity |].
  destruct (round_trip clock 1500 2000 unbounded ltac:(vm_compute; reflexivity))
    as (s' & Himp & Hsame & Hnext & _).
  exists s'. split; [exact Himp |]. split; [exact Hsame |]. split; [exact Hnext |].
  vm_compute in Himp. injection Himp as <-. reflexivity.
Qed.

End RoundTrip.

Module Roots.
Import Rounding.
Local Open Scope Z_scope.

Lemma bounded_exponent m e :
  bounded prec emax m e = true -> -1074 <= e.
Proof.
  unfold bounded, canonical_mantissa. intro H.
  apply andb_prop in H. destruct H as [H _]. apply Z.eqb_eq in H.
  unfold fexp in H. change (SpecFloat.emin prec emax) with (-1074) in H. lia.
Qed.

Lemma log2_sqrt_below a : 0 < a -> Z.log2 a / 2 <= Z.log2 (Z.sqrt a).
Proof.
  intro Ha.
  assert (Hj : 0 <= Z.log2 a / 2) by (apply Z.div_pos; [apply Z.log2_nonneg | lia]).
  assert (Hpow : 2 ^ (Z.log2 a / 2) <= Z.sqrt a).
  { rewrite <- (Z.sqrt_square (2 ^ (Z.log2 a / 2))) by (apply Z.pow_nonneg; lia).
    apply Z.sqrt_le_mono. rewrite <- Z.pow_add_r by lia.
    transitivity (2 ^ Z.log2 a).
    - apply Z.pow_le_mono_r; [lia |].
      pose proof (Z.mul_div_le (Z.log2 a) 2). lia.
    - apply Z.log2_spec. exact Ha. }
  apply Z.log2_le_pow2; [| exact Hpow].
  assert (0 < 2 ^ (Z.log2 a / 2)) by (apply Z.pow_pos_nonneg; lia). lia.
Qed.

(** The square root of a positive finite number is at least 2^-537. *)
Lemma SFsqrt_finite_big m e :
  bounded prec emax m e = true ->
  big (SFsqrt prec emax (S754_finite false m e)).
Proof.
  intro Hb. pose proof (bounded_exponent m e Hb) as He.
  unfold SFsqrt, SFsqrt_core_binary.
  set (d := Zdigits2 (Zpos m)).
  assert (Hd : d = Z.log2 (Zpos m) + 1) by (apply Zdigits2_log2; lia).
  assert (Hlog : 0 <= Z.log2 (Zpos m)) by apply Z.log2_nonneg.
  set (e' := Z.min (fexp prec emax (Z.div2 (d + e + 1))) (Z.div2 e)).
  assert (He' : 2 * e' <= e).
  { assert (e' <= Z.div2 e) by apply Z.le_min_r.
    rewrite Z.div2_div in H. pose proof (Z.mul_div_le e 2). lia. }
  set (s := e - 2 * e').
  set (m' := match s with
             | Zpos _ => Z.shiftl (Zpos m) s
             | Z0 => Zpos m
             | Zneg _ => 0
             end).
  assert (Hm' : 0 < m' /\ Z.log2 m' = Z.log2 (Zpos m) + s).
  { assert (Hs : 0 <= s) by (unfold s; lia).
    unfold m'. clearbody s. destruct s as [| p | p]; cbv beta iota; try lia.
    split.
    - rewrite Z.shiftl_mul_pow2 by lia.
      apply Z.mul_pos_pos; [lia | apply Z.pow_pos_nonneg; lia].
    - apply Z.log2_shiftl; lia. }
  destruct Hm' as [Hm'pos Hm'log].
  pose proof (Z.sqrtrem_sqrt m') as Hq.
  destruct (Z.sqrtrem m') as [q r]. simpl in Hq. subst q.
  assert (Hqpos : 0 < Z.sqrt m') by (apply Z.sqrt_pos; exact Hm'pos).
  pose proof (log2_sqrt_below m' Hm'pos) as Hqlog.
  assert (Hbig : -536 <= Zdigits2 (Z.sqrt m') + e').
  { rewrite (Zdigits2_log2 _ Hqpos). rewrite Hm'log in Hqlog.
    unfold s in Hqlog.
    assert (Hdiv : (Z.log2 (Zpos m) + (e - 2 * e')) / 2
                   = (Z.log2 (Zpos m) + e) / 2 - e').
    { replace (Z.log2 (Zpos m) + (e - 2 * e'))
        with (Z.log2 (Zpos m) + e + (- e') * 2) by lia.
      rewrite Z.div_add by lia. lia. }
    rewrite Hdiv in Hqlog.
    assert (-537 <= (Z.log2 (Zpos m) + e) / 2).
    { apply Z.div_le_lower_bound; lia. }
    lia. }
  destruct (binary_round_aux_big false (Z.sqrt m') e'
              (if r =? 0 then loc_Exact
               else loc_Inexact (if r <=? Z.sqrt m' then Lt else Gt))
              Hqpos ltac:(lia))
    as [(m2 & e2 & Hres & Hmag) | Hres]; rewrite Hres.
  - right. exists m2, e2. split; [reflexivity | lia].
  - left. reflexivity.
Qed.

(** The product of two numbers that are at least 2^-537 does not
    underflow to zero. *)
Lemma SFmul_big_positive (a b : spec_float) :
  big a -> big b -> positive (SFmul prec emax a b).
Proof.
  intros [-> | (m1 & e1 & -> & H1)] [-> | (m2 & e2 & -> & H2)]; try exact I.
  unfold SFmul. simpl xorb.
  destruct (binary_round_aux_big false (Zpos (m1 * m2)) (e1 + e2) loc_Exact)
    as [(m' & e' & Hres & _) | Hres]; try rewrite Hres; try exact I; try lia.
  rewrite (Zdigits2_log2 (Zpos (m1 * m2))) by lia.
  rewrite digits2_log2 in H1, H2.
  pose proof (Z.log2_mul_below (Zpos m1) (Zpos m2) ltac:(lia) ltac:(lia)) as Hmul.
  rewrite Pos2Z.inj_mul. lia.
Qed.

(** The square root of a number other than zero is NaN or at least
    2^-537. *)
Lemma SFsqrt_nonzero (sf : spec_float) :
  valid_binary sf = true ->
  SFeqb sf (S754_zero false) = false ->
  SFsqrt prec emax sf = S754_nan \/ big (SFsqrt prec emax sf).
Proof.
  destruct sf as [s | [|] | | [|] m e]; simpl valid_binary; intros Hv Hnz.
  - destruct s; discriminate.
  - left. reflexivity.
  - right. left. reflexivity.
  - left. reflexivity.
  - left. reflexivity.
  - right. exact (SFsqrt_finite_big m e Hv).
Qed.

(** The square root of a positive number is at least 2^-537. *)
Lemma SFsqrt_positive (sf : spec_float) :
  valid_binary sf = true -> positive sf -> big (SFsqrt prec emax sf).
Proof.
  destruct sf as [s | [|] | | [|] m e]; simpl; intros Hv Hp;
    try contradiction.
  - left. reflexivity.
  - exact (SFsqrt_finite_big m e Hv).
Qed.

Lemma positive_nonzero (sf : spec_float) :
  positive sf -> SFeqb sf (S754_zero false) = false.
Proof. destruct sf as [s | [|] | | [|] m e]; simpl; intro H; try contradiction; reflexivity. Qed.

Lemma SFmul_nan_l (b : spec_float) : SFmul prec emax S754_nan b = S754_nan.
Proof. reflexivity. Qed.

Lemma SFmul_nan_r (a : spec_float) : SFmul prec emax a S754_nan = S754_nan.
Proof. destruct a; reflexivity. Qed.

End Roots.

Module FloatFacts.

Local Open Scope float_scope.

(** The divisor of the quotient is not zero when both norms are not. *)
Lemma sqrt_product_nonzero (x y : float) :
  (x =? 0) = false -> (y =? 0) = false -> (sqrt x * sqrt y =? 0) = false.
Proof.
  rewrite !eqb_spec, mul_spec, !sqrt_spec.
  change (Prim2SF 0) with (S754_zero false).
  unfold SF64mul, SF64sqrt. intros Hx Hy.
  destruct (Roots.SFsqrt_nonzero _ (Prim2SF_valid x) Hx) as [-> | Hbx];
    [reflexivity |].
  destruct (Roots.SFsqrt_nonzero _ (Prim2SF_valid y) Hy) as [-> | Hby];
    [rewrite Roots.SFmul_nan_r; reflexivity |].
  apply Roots.positive_nonzero. exact (Roots.SFmul_big_positive _ _ Hbx Hby).
Qed.

Lemma mul_comm (x y : float) : x * y = y * x.
Proof.
  apply Prim2SF_inj. rewrite !mul_spec. unfold SF64mul.
  destruct (Prim2SF x) as [sx | sx | | sx mx ex],
           (Prim2SF y) as [sy | sy | | sy my ey];
    simpl; rewrite ?(xorb_comm sx sy); try reflexivity.
  rewrite (Pos.mul_comm mx my), (Z.add_comm ex ey). reflexivity.
Qed.

End FloatFacts.

(** ** Signs of sums and products *)

Module Signs.

Import Rounding.
Local Open Scope Z_scope.

Lemma shr_fexp_nonneg mx ex lx :
  0 <= mx -> 0 <= shr_m (fst (shr_fexp prec emax mx ex lx)).
Proof.
  intro Hm. unfold shr_fexp, shr.
  destruct (fexp prec emax (Zdigits2 mx + ex) - ex) as [| p | p]; simpl fst;
    rewrite ?shr_m_of_loc; try exact Hm.
  rewrite shr_m_iter by (rewrite shr_m_of_loc; exact Hm).
  rewrite shr_m_of_loc. apply Z.shiftr_nonneg. exact Hm.
Qed.

(** Rounding a mantissa that is not negative, with the positive sign,
    gives zero, a positive number or the positive infinity. *)
Lemma binary_round_aux_nonneg mx ex lx :
  0 <= mx -> nonneg (binary_round_aux prec emax false mx ex lx).
Proof.
  intro Hm. unfold binary_round_aux.
  pose proof (shr_fexp_nonneg mx ex lx Hm) as H1.
  destruct (shr_fexp prec emax mx ex lx) as [mrs1 e1]. simpl fst in H1.
  pose proof (round_nearest_even_bounds (shr_m mrs1) (loc_of_shr_record mrs1)) as Hr.
  pose proof (shr_fexp_nonneg
                (round_nearest_even (shr_m mrs1) (loc_of_shr_record mrs1))
                e1 loc_Exact ltac:(lia)) as H2.
  destruct (shr_fexp prec emax _ e1 loc_Exact) as [mrs2 e2]. simpl fst in H2.
  destruct (shr_m mrs2) as [| m2 | m2]; try lia; [exact I |].
  destruct (e2 <=? emax - prec); exact I.
Qed.

(** The square of a number other than NaN. *)
Lemma SFmul_self_nonneg (v : spec_float) :
  v <> S754_nan -> nonneg (SFmul prec emax v v).
Proof.
  destruct v as [[|] | [|] | | s m e]; intro Hv; try exact I.
  - contradiction.
  - unfold SFmul. rewrite xorb_nilpotent.
    apply binary_round_aux_nonneg. lia.
Qed.

Lemma SFadd_nonneg (a b : spec_float) :
  nonneg a -> nonneg b -> nonneg (SFadd prec emax a b).
Proof.
  destruct a as [[|] | [|] | | [|] ma ea]; try contradiction;
    destruct b as [[|] | [|] | | [|] mb eb]; try contradiction;
    intros _ _; try exact I.
  unfold SFadd, cond_Zopp, binary_normalize, binary_round.
  cbn [Z.add].
  destruct (shl_align _ _ _) as [mz ez].
  apply binary_round_aux_nonneg. lia.
Qed.

(** A product with zero, and a sum of zeros. *)
Lemma SFmul_zero_l (b : spec_float) :
  finite_class b -> exists s, SFmul prec emax (S754_zero false) b = S754_zero s.
Proof.
  destruct b as [s | s | | s m e]; intro H; try contradiction;
    eexists; reflexivity.
Qed.

Lemma SFmul_zero_r (a : spec_float) :
  finite_class a -> exists s, SFmul prec emax a (S754_zero false) = S754_zero s.
Proof.
  destruct a as [s | s | | s m e]; intro H; try contradiction;
    eexists; reflexivity.
Qed.

Lemma SFadd_zero_zero (s : bool) :
  SFadd prec emax (S754_zero false) (S754_zero s) = S754_zero false.
Proof. destruct s; reflexivity. Qed.

(** Zero divided by a positive number. *)
Lemma SFdiv_zero_positive (d : spec_float) :
  positive d -> SFdiv prec emax (S754_zero false) d = S754_zero false.
Proof.
  destruct d as [s | [|] | | [|] m e]; intro H; try contradiction; reflexivity.
Qed.

Lemma nonneg_nonzero_positive (sf : spec_float) :
  nonneg sf -> SFeqb sf (S754_zero false) = false -> positive sf.
Proof.
  destruct sf as [[|] | [|] | | [|] m e]; simpl; intros H Hz;
    try contradiction; try discriminate; exact I.
Qed.

End Signs.

(** ** Numbers *)

Module Numbers.

Local Open Scope float_scope.

Lemma Prim2SF_zero : Prim2SF 0 = S754_zero false.
Proof. reflexivity. Qed.

(** A finite number is zero or a mantissa and an exponent. *)
Lemma finite_class_of_is_finite (x : float) :
  is_finite x = true -> finite_class (Prim2SF x).
Proof.
  unfold is_finite, is_nan, is_infinity.
  rewrite !eqb_spec, abs_spec.
  change (Prim2SF infinity) with (S754_infinity false).
  destruct (Prim2SF x) as [s | [|] | | s m e]; simpl; intro H;
    try exact I; discriminate.
Qed.

Lemma is_nan_spec (x : float) : is_nan x = true -> Prim2SF x = S754_nan.
Proof.
  unfold is_nan. rewrite eqb_spec.
  destruct (Prim2SF x) as [s | [|] | | [|] m e];
    unfold SFeqb, SFcompare; intro H;
    try reflexivity; try discriminate;
    rewrite Z.compare_refl, Pos.compare_cont_refl in H; discriminate.
Qed.

(** [x || 0] is never NaN. *)
Lemma or_zero_not_nan (x : float) : Prim2SF (or_zero x) <> S754_nan.
Proof.
  unfold or_zero, falsy_num.
  destruct (is_zero x); simpl; [rewrite Prim2SF_zero; discriminate |].
  destruct (is_nan x) eqn:Hnan; [rewrite Prim2SF_zero; discriminate |].
  intro H. unfold is_nan in Hnan. rewrite eqb_spec, H in Hnan. discriminate.
Qed.

Lemma or_zero_finite (x : float) :
  finite_class (Prim2SF x) -> finite_class (Prim2SF (or_zero x)).
Proof.
  unfold or_zero. destruct (falsy_num x); [intros _; exact I | trivial].
Qed.

(** One round of the sum of products when one factor is zero. *)
Lemma dot_step (d v1 v2 : float) :
  Prim2SF d = S754_zero false ->
  v1 = 0 \/ v2 = 0 ->
  finite_class (Prim2SF v1) -> finite_class (Prim2SF v2) ->
  Prim2SF (d + v1 * v2) = S754_zero false.
Proof.
  intros Hd Hzero H1 H2. rewrite add_spec, mul_spec, Hd.
  unfold SF64add, SF64mul.
  destruct Hzero as [-> | ->]; rewrite Prim2SF_zero.
  - destruct (Signs.SFmul_zero_l _ H2) as [s ->]. apply Signs.SFadd_zero_zero.
  - destruct (Signs.SFmul_zero_r _ H1) as [s ->]. apply Signs.SFadd_zero_zero.
Qed.

(** One round of a sum of squares. *)
Lemma norm_step (n v : float) :
  nonneg (Prim2SF n) -> Prim2SF v <> S754_nan -> nonneg (Prim2SF (n + v * v)).
Proof.
  intros Hn Hv. rewrite add_spec, mul_spec.
  apply Signs.SFadd_nonneg; [exact Hn | apply Signs.SFmul_self_nonneg; exact Hv].
Qed.

(** Zero divided by the divisor of two norms that are not zero. *)
Lemma zero_quotient (d n1 n2 : float) :
  Prim2SF d = S754_zero false ->
  nonneg (Prim2SF n1) -> nonneg (Prim2SF n2) ->
  (n1 =? 0) = false -> (n2 =? 0) = false ->
  d / (sqrt n1 * sqrt n2) = 0.
Proof.
  rewrite !eqb_spec, Prim2SF_zero. intros Hd H1 H2 Hz1 Hz2.
  apply Prim2SF_inj. rewrite div_spec, mul_spec, !sqrt_spec, Hd, Prim2SF_zero.
  unfold SF64div, SF64mul, SF64sqrt.
  apply Signs.SFdiv_zero_positive. apply Roots.SFmul_big_positive;
    apply Roots.SFsqrt_positive; try apply Prim2SF_valid;
    apply Signs.nonneg_nonzero_positive; assumption.
Qed.

End Numbers.

(** ** Cosine similarity *)

Module Cosine.

Import SimpleEmbedding Props FloatFacts Numbers Example.
Local Open Scope float_scope.

Lemma union_keys_In (ks : list string) : forall seen k,
  In k (union_keys seen ks) -> In k ks.
Proof.
  induction ks as [| k0 ks IH]; simpl; intros seen k; [intros [] |].
  destruct (existsb (String.eqb k0) seen).
  - intro H. right. exact (IH _ _ H).
  - intros [<- | H]; [left; reflexivity | right; exact (IH _ _ H)].
Qed.

Lemma allKeys_In (e1 e2 : embedding) (k : string) :
  In k (allKeys e1 e2) -> In k (okeys e1) \/ In k (okeys e2).
Proof.
  unfold allKeys. intro H. apply in_app_or. exact (union_keys_In _ _ _ H).
Qed.

(** A property of the three sums that every round keeps holds when
    the loop ends. *)
Lemma loop_invariant (P : sums -> Prop) (Q : string -> Prop)
    (e1 e2 : embedding) (keys : list string) :
  (forall acc k, P acc -> Q k -> P (accumulate e1 e2 acc k)) ->
  (forall k, In k keys -> Q k) ->
  forall acc, P acc -> P (fold_left (accumulate e1 e2) keys acc).
Proof.
  intro Hstep. induction keys as [| k keys IH]; simpl; intros HQ acc Hacc;
    [exact Hacc |].
  apply IH.
  - intros k' Hk'. apply HQ. right. exact Hk'.
  - apply Hstep; [exact Hacc | apply HQ; left; reflexivity].
Qed.

Lemma plain_keys_In (e : embedding) (k : string) :
  plain_keys e = true -> In k (okeys e) -> inherited k = false.
Proof.
  unfold plain_keys. intros H Hin. rewrite forallb_forall in H.
  apply negb_true_iff. exact (H k Hin).
Qed.

Lemma oget_absent {V : Type} (o : obj V) (k : string) :
  existsb (String.eqb k) (okeys o) = false -> oget o k = None.
Proof.
  induction o as [| [k0 v0] o IH]; simpl; [reflexivity |].
  destruct (String.eqb k k0); simpl; [discriminate | exact IH].
Qed.

Lemma oget_present {V : Type} (o : obj V) (k : string) (v : V) :
  oget o k = Some v -> In (k, v) o.
Proof.
  induction o as [| [k0 v0] o IH]; simpl; [discriminate |].
  destruct (String.eqb_spec k k0) as [-> | Hne].
  - intros [= ->]. left. reflexivity.
  - intro H. right. exact (IH H).
Qed.

(** *** The guard *)

Lemma cosine_guarded (e1 e2 : embedding) :
  (norm1 (loop e1 e2) =? 0) = true \/ (norm2 (loop e1 e2) =? 0) = true ->
  cosineSimilarity e1 e2 = 0.
Proof.
  unfold cosineSimilarity. intros [-> | ->]; [| rewrite orb_true_r]; reflexivity.
Qed.

Lemma cosine_quotient (e1 e2 : embedding) :
  (norm1 (loop e1 e2) =? 0) = false -> (norm2 (loop e1 e2) =? 0) = false ->
  cosineSimilarity e1 e2 = dotProduct (loop e1 e2) / divisor (loop e1 e2).
Proof. unfold cosineSimilarity. intros -> ->. reflexivity. Qed.

(** *** The empty vector *)

Lemma norm1_empty (e : embedding) :
  plain_keys e = true -> norm1 (loop [] e) = 0.
Proof.
  intro Hplain. unfold loop.
  apply (loop_invariant (fun acc => norm1 acc = 0)
           (fun k => inherited k = false)); [| | reflexivity].
  - intros acc k Hacc Hk. simpl. rewrite Hacc. unfold weight. simpl.
    rewrite Hk. reflexivity.
  - intros k Hk. destruct (allKeys_In _ _ _ Hk) as [[] | Hin].
    exact (plain_keys_In _ _ Hplain Hin).
Qed.

Lemma norm2_empty (e : embedding) :
  plain_keys e = true -> norm2 (loop e []) = 0.
Proof.
  intro Hplain. unfold loop.
  apply (loop_invariant (fun acc => norm2 acc = 0)
           (fun k => inherited k = false)); [| | reflexivity].
  - intros acc k Hacc Hk. simpl. rewrite Hacc. unfold weight. simpl.
    rewrite Hk. reflexivity.
  - intros k Hk. destruct (allKeys_In _ _ _ Hk) as [Hin | []].
    exact (plain_keys_In _ _ Hplain Hin).
Qed.

(** *** Text without tokens *)

Lemma lower_space (c : ascii) : is_space c = true -> lower c = c.
Proof.
  unfold is_space, lower, between. intro H.
  destruct ((65 <=? code c)%nat && (code c <=? 90)%nat) eqn:Hup; [| reflexivity].
  exfalso. apply andb_prop in Hup. destruct Hup as [H1 H2].
  apply Nat.leb_le in H1. apply Nat.leb_le in H2.
  apply orb_prop in H. destruct H as [H | H].
  - apply orb_prop in H. destruct H as [H | H].
    + apply andb_prop in H. destruct H as [_ H]. apply Nat.leb_le in H. lia.
    + apply Nat.eqb_eq in H. lia.
  - apply Nat.eqb_eq in H. lia.
Qed.

Lemma split_ws_spaces (cs : list ascii) : forall in_run,
  forallb is_space cs = true ->
  filter (fun word => (0 <? String.length word)%nat) (split_ws cs [] in_run) = [].
Proof.
  induction cs as [| c cs IH]; simpl; intros in_run H; [reflexivity |].
  apply andb_prop in H. destruct H as [Hc Hcs]. rewrite Hc.
  destruct in_run; simpl; exact (IH true Hcs).
Qed.

Lemma tokenize_whitespace (text : string) :
  whitespace text = true -> tokenize text = [].
Proof.
  unfold whitespace, tokenize. intro H.
  apply split_ws_spaces.
  induction (list_ascii_of_string text) as [| c cs IH]; simpl in *; [reflexivity |].
  apply andb_prop in H. destruct H as [Hc Hcs].
  rewrite (lower_space c Hc), Hc, orb_true_r. simpl. rewrite Hc. exact (IH Hcs).
Qed.

End Cosine.

(** ** Tokens that name inherited members *)

Module EmptyText.

Import SimpleEmbedding Props FloatFacts Numbers Cosine Example.
Local Open Scope float_scope.


Lemma max2_nan_l (a b : float) : is_nan a = true -> max2 a b = a.
Proof. unfold max2. intros ->. reflexivity. Qed.

Lemma max2_nan_r (a b : float) : is_nan b = true -> is_nan (max2 a b) = true.
Proof.
  unfold max2. intro Hb. destruct (is_nan a) eqn:Ha; [exact Ha |].
  rewrite Hb. exact Hb.
Qed.

Lemma fold_max2_nan (xs : list float) : forall a,
  is_nan a = true -> fold_left max2 xs a = a.
Proof.
  induction xs as [| x xs IH]; simpl; intros a Ha; [reflexivity |].
  rewrite (max2_nan_l a x Ha). exact (IH a Ha).
Qed.

(** [Math.max] of arguments one of which is NaN is NaN. *)
Lemma Math_max_nan (xs : list float) (x : float) :
  In x xs -> is_nan x = true -> is_nan (Math_max xs) = true.
Proof.
  unfold Math_max. generalize neg_infinity.
  induction xs as [| y xs IH]; simpl; intros a Hin Hx; [contradiction |].
  destruct Hin as [-> | Hin].
  - rewrite fold_max2_nan; apply max2_nan_r; exact Hx.
  - exact (IH _ Hin Hx).
Qed.

(** A quotient by NaN is NaN. *)
Lemma div_nan (x m : float) : is_nan m = true -> is_nan (x / m) = true.
Proof.
  intro Hm. unfold is_nan. rewrite eqb_spec, div_spec, (is_nan_spec m Hm).
  unfold SF64div. destruct (Prim2SF x); reflexivity.
Qed.

Lemma or_zero_nan (x : float) : is_nan x = true -> or_zero x = 0.
Proof. unfold or_zero, falsy_num. intros ->. rewrite orb_true_r. reflexivity. Qed.

Lemma count_token_uncounted (freq : obj fval) (tok : string) :
  uncounted freq -> uncounted (count_token freq tok).
Proof.
  intros H k Hk. unfold count_token.
  destruct (String.eqb tok "__proto__"); [exact (H k Hk) |].
  rewrite oget_oset. destruct (String.eqb_spec tok k) as [-> | _]; [| exact (H k Hk)].
  right. destruct (H k Hk) as [-> | ->]; [rewrite Hk |]; reflexivity.
Qed.

Lemma count_token_keeps (freq : obj fval) (tok t : string) :
  oget freq t = Some FStr -> oget (count_token freq tok) t = Some FStr.
Proof.
  intro H. unfold count_token.
  destruct (String.eqb tok "__proto__"); [exact H |].
  rewrite oget_oset. destruct (String.eqb_spec tok t) as [-> | _]; [| exact H].
  rewrite H. reflexivity.
Qed.

Lemma fold_count_keeps (tokens : list string) (t : string) : forall freq,
  oget freq t = Some FStr ->
  oget (fold_left count_token tokens freq) t = Some FStr.
Proof.
  induction tokens as [| tok tokens IH]; simpl; intros freq H; [exact H |].
  apply IH. exact (count_token_keeps _ _ _ H).
Qed.

(** A token that names an inherited member, other than [__proto__],
    leaves a text in the dictionary. *)
Lemma fold_count_inherited (tokens : list string) : forall freq,
  uncounted freq ->
  existsb (fun t => inherited t && negb (String.eqb t "__proto__")) tokens = true ->
  exists t, oget (fold_left count_token tokens freq) t = Some FStr.
Proof.
  induction tokens as [| tok tokens IH]; simpl; intros freq Hun Hex;
    [discriminate |].
  destruct (inherited tok && negb (String.eqb tok "__proto__")) eqn:Htok.
  - apply andb_prop in Htok. destruct Htok as [Hinh Hproto].
    apply negb_true_iff in Hproto.
    exists tok. apply fold_count_keeps. unfold count_token. rewrite Hproto.
    rewrite oget_oset, String.eqb_refl.
    destruct (Hun tok Hinh) as [-> | ->]; [rewrite Hinh |]; reflexivity.
  - simpl in Hex. exact (IH _ (count_token_uncounted _ _ Hun) Hex).
Qed.

Lemma In_okeys_oset {V : Type} (k : string) (v : V) (o : obj V) (k' : string) :
  In k' (okeys (oset k v o)) -> k' = k \/ In k' (okeys o).
Proof.
  unfold oset, okeys. destruct (oget o k) as [v0 |].
  - induction o as [| [k0 v1] o IH]; simpl; [intros [] |].
    destruct (String.eqb k k0); simpl.
    + intros [H | H]; right; [left; exact H | right; exact H].
    + intros [H | H]; [right; left; exact H |].
      destruct (IH H) as [H' | H']; [left; exact H' | right; right; exact H'].
  - induction o as [| [k0 v1] o IH]; simpl.
    + intros [H | []]. left. symmetry. exact H.
    + destruct (key_before k k0); simpl.
      * intros [H | H]; [left; symmetry; exact H | right; exact H].
      * intros [H | H]; [right; left; exact H |].
        destruct (IH H) as [H' | H']; [left; exact H' | right; right; exact H'].
Qed.

Lemma In_oset {V : Type} (k : string) (v : V) (o : obj V) (k' : string) (v' : V) :
  In (k', v') (oset k v o) -> v' = v \/ In (k', v') o.
Proof.
  unfold oset. destruct (oget o k) as [v0 |].
  - induction o as [| [k0 v1] o IH]; simpl; [intros [] |].
    destruct (String.eqb k k0); simpl.
    + intros [[= _ <-] | H]; [left; reflexivity | right; right; exact H].
    + intros [H | H]; [right; left; exact H |].
      destruct (IH H) as [H' | H']; [left; exact H' | right; right; exact H'].
  - induction o as [| [k0 v1] o IH]; simpl.
    + intros [[= _ <-] | []]. left. reflexivity.
    + destruct (key_before k k0); simpl.
      * intros [[= _ <-] | H]; [left; reflexivity | right; exact H].
      * intros [H | H]; [right; left; exact H |].
        destruct (IH H) as [H' | H']; [left; exact H' | right; right; exact H'].
Qed.

(** Without such a token, no key of the dictionary names an inherited
    member. *)
Lemma fold_count_plain (tokens : list string) : forall freq,
  existsb (fun t => inherited t && negb (String.eqb t "__proto__")) tokens = false ->
  (forall k, In k (okeys freq) -> inherited k = false) ->
  forall k, In k (okeys (fold_left count_token tokens freq)) -> inherited k = false.
Proof.
  induction tokens as [| tok tokens IH]; simpl; intros freq Hex Hplain;
    [exact Hplain |].
  apply orb_false_elim in Hex. destruct Hex as [Htok Hex].
  apply (IH _ Hex). intros k Hk. unfold count_token in Hk.
  destruct (String.eqb tok "__proto__") eqn:Hproto; [exact (Hplain k Hk) |].
  destruct (In_okeys_oset _ _ _ _ Hk) as [-> | Hold]; [| exact (Hplain k Hold)].
  simpl in Htok. rewrite andb_true_r in Htok. exact Htok.
Qed.

(** The keys and the weights of the vector built from a dictionary. *)
Lemma embedding_of_freq (freq : obj fval) (maxFreq : float) (keys : list string) :
  forall emb : embedding,
    (forall k x, In (k, x) emb ->
       In k (okeys freq) /\ exists v, x = to_number v / maxFreq) ->
    (forall k, In k keys -> In k (okeys freq)) ->
    forall k x,
      In (k, x)
        (fold_left
           (fun (emb : embedding) token =>
              match oget freq token with
              | Some v => oset token (to_number v / maxFreq) emb
              | None => emb
              end) keys emb) ->
      In k (okeys freq) /\ exists v, x = to_number v / maxFreq.
Proof.
  induction keys as [| tok keys IH]; simpl; intros emb Hemb Hkeys; [exact Hemb |].
  apply IH; [| intros k Hk; apply Hkeys; right; exact Hk].
  intros k x Hin. destruct (oget freq tok) as [v |]; [| exact (Hemb k x Hin)].
  assert (Hk : In k (okeys (oset tok (to_number v / maxFreq) emb))).
  { unfold okeys. change k with (fst (k, x)). apply in_map. exact Hin. }
  destruct (In_oset _ _ _ _ _ Hin) as [-> | Hold].
  - split; [| exists v; reflexivity].
    destruct (In_okeys_oset _ _ _ _ Hk) as [-> | Hold'].
    + apply Hkeys. left. reflexivity.
    + unfold okeys in Hold'. apply in_map_iff in Hold'.
      destruct Hold' as ([k' x'] & <- & Hin'). exact (proj1 (Hemb _ _ Hin')).
  - exact (Hemb k x Hold).
Qed.

(** The vector of a text has keys that name no inherited member, or
    weights that are all NaN. *)
Lemma computeEmbedding_plain_or_nan (text : string) :
  plain_keys (computeEmbedding text) = true
  \/ forall k x, In (k, x) (computeEmbedding text) -> is_nan x = true.
Proof.
  unfold computeEmbedding.
  set (tokens := tokenize text).
  set (freq := fold_left count_token tokens []).
  set (maxFreq := Math_max (map to_number (ovalues freq))).
  pose proof (embedding_of_freq freq maxFreq (okeys freq) []
                (fun k x (H : In (k, x) []) => match H with end)
                (fun k H => H)) as Hemb.
  destruct (existsb (fun t => inherited t && negb (String.eqb t "__proto__")) tokens)
    eqn:Hex.
  - right. intros k x Hin. destruct (Hemb k x Hin) as (_ & v & ->).
    apply div_nan.
    destruct (fold_count_inherited tokens [] (fun k _ => or_introl eq_refl) Hex)
      as [t Ht].
    apply (Math_max_nan _ (to_number FStr)); [| reflexivity].
    apply in_map. unfold ovalues. change FStr with (snd (t, FStr)).
    apply in_map. exact (oget_present _ _ _ Ht).
  - left. unfold plain_keys. apply forallb_forall. intros k Hk.
    apply negb_true_iff.
    apply (fold_count_plain tokens [] Hex (fun k (H : In k []) => match H with end)).
    unfold okeys in Hk. apply in_map_iff in Hk.
    destruct Hk as ([k' x] & <- & Hin). exact (proj1 (Hemb _ _ Hin)).
Qed.

Lemma In_okeys_oget {V : Type} (o : obj V) (k : string) :
  In k (okeys o) -> exists v, oget o k = Some v.
Proof.
  induction o as [| [k0 v0] o IH]; simpl; [intros [] |].
  destruct (String.eqb_spec k k0) as [-> | Hne].
  - intros _. exists v0. reflexivity.
  - intros [H | H]; [symmetry in H; contradiction | exact (IH H)].
Qed.

Lemma weight_all_nan (e : embedding) (k : string) :
  (forall k x, In (k, x) e -> is_nan x = true) ->
  In k (okeys e) -> weight e k = 0.
Proof.
  intros Hnan Hk. unfold weight.
  destruct (In_okeys_oget e k Hk) as [x Hx]. rewrite Hx.
  apply or_zero_nan. exact (Hnan _ _ (oget_present _ _ _ Hx)).
Qed.

Lemma norm2_all_nan (e : embedding) :
  (forall k x, In (k, x) e -> is_nan x = true) -> norm2 (loop [] e) = 0.
Proof.
  intro Hnan. unfold loop.
  apply (loop_invariant (fun acc => norm2 acc = 0) (fun k => weight e k = 0));
    [| | reflexivity].
  - intros acc k Hacc Hk. simpl. rewrite Hacc, Hk. reflexivity.
  - intros k Hk. destruct (allKeys_In _ _ _ Hk) as [[] | Hin].
    exact (weight_all_nan e k Hnan Hin).
Qed.

Lemma norm1_all_nan (e : embedding) :
  (forall k x, In (k, x) e -> is_nan x = true) -> norm1 (loop e []) = 0.
Proof.
  intro Hnan. unfold loop.
  apply (loop_invariant (fun acc => norm1 acc = 0) (fun k => weight e k = 0));
    [| | reflexivity].
  - intros acc k Hacc Hk. simpl. rewrite Hacc, Hk. reflexivity.
  - intros k Hk. destruct (allKeys_In _ _ _ Hk) as [Hin | []].
    exact (weight_all_nan e k Hnan Hin).
Qed.

(** The similarity of the empty mapping with the vector of any text. *)
Lemma cosine_empty_text (text : string) :
  cosineSimilarity [] (computeEmbedding text) = 0
  /\ cosineSimilarity (computeEmbedding text) [] = 0.
Proof.
  destruct (computeEmbedding_plain_or_nan text) as [Hplain | Hnan].
  - split; apply cosine_guarded.
    + left. rewrite (norm1_empty _ Hplain). reflexivity.
    + right. rewrite (norm2_empty _ Hplain). reflexivity.
  - split; apply cosine_guarded.
    + right. rewrite (norm2_all_nan _ Hnan). reflexivity.
    + left. rewrite (norm1_all_nan _ Hnan). reflexivity.
Qed.

End EmptyText.

(** ** The guard against a zero norm *)

Module Guard.

Import SimpleEmbedding Props FloatFacts Numbers Cosine EmptyText Example.
Local Open Scope float_scope.

(** C7, as amended.  Cosine similarity returns exactly 0 whenever one
    of the two accumulated norms is 0; otherwise it returns the
    quotient of the dot product by the product of the square roots,
    and this divisor is not zero.  The norm of the empty mapping is 0
    against every vector whose keys name no member of
    [Object.prototype], so the similarity of the empty mapping with
    such a vector is 0 on either side.  Text that is empty or made of
    white space only vectorizes to the empty mapping, and its
    similarity with the vectorization of any text is 0 on either
    side. *)
Theorem cosine_zero_and_division :
  (forall e1 e2,
      ((norm1 (loop e1 e2) =? 0) = true \/ (norm2 (loop e1 e2) =? 0) = true ->
       cosineSimilarity e1 e2 = 0)
      /\ ((norm1 (loop e1 e2) =? 0) = false ->
          (norm2 (loop e1 e2) =? 0) = false ->
          cosineSimilarity e1 e2 = dotProduct (loop e1 e2) / divisor (loop e1 e2)
          /\ (divisor (loop e1 e2) =? 0) = false))
  /\ (forall e, plain_keys e = true ->
        cosineSimilarity [] e = 0 /\ cosineSimilarity e [] = 0)
  /\ (forall blank, whitespace blank = true ->
        computeEmbedding blank = []
        /\ forall text,
             cosineSimilarity (computeEmbedding blank) (computeEmbedding text) = 0
             /\ cosineSimilarity (computeEmbedding text) (computeEmbedding blank) = 0).
Proof.
  split; [| split].
  - intros e1 e2. split; [exact (cosine_guarded e1 e2) |].
    intros H1 H2. split; [exact (cosine_quotient e1 e2 H1 H2) |].
    unfold divisor. exact (sqrt_product_nonzero _ _ H1 H2).
  - intros e Hplain. split; apply cosine_guarded.
    + left. rewrite (norm1_empty e Hplain). reflexivity.
    + right. rewrite (norm2_empty e Hplain). reflexivity.
  - intros blank Hws.
    assert (Hempty : computeEmbedding blank = []).
    { unfold computeEmbedding. rewrite (tokenize_whitespace blank Hws). reflexivity. }
    split; [exact Hempty |]. intro text. rewrite Hempty.
    exact (cosine_empty_text text).
Qed.

(** The vector of a text against the empty mapping and against the
    vector of blank text. *)
Lemma cosine_zero_and_division_witness :
  (cosineSimilarity [] (computeEmbedding "hello world") = 0
   /\ cosineSimilarity (computeEmbedding "hello world") [] = 0)
  /\ cosineSimilarity (computeEmbedding "  ") (computeEmbedding "constructor") = 0.
Proof.
  destruct cosine_zero_and_division as (_ & Hplain & Hblank).
  split.
  - apply Hplain. reflexivity.
  - apply (Hblank "  "%string). reflexivity.
Defined.

(** C7 as stated fails.  The vector of "a b c" against itself gives
    1.0000000000000002, above 1; a negative weight gives -1; and the
    empty mapping against a vector with the key [toString] gives NaN,
    not 0. *)
Lemma cosine_outside_unit_interval :
  (cosineSimilarity (computeEmbedding "a b c") (computeEmbedding "a b c") <=? 1)
    = false
  /\ (1 <? cosineSimilarity (computeEmbedding "a b c") (computeEmbedding "a b c"))
     = true
  /\ cosineSimilarity [("a"%string, 1)] [("a"%string, -1)] = -1
  /\ is_nan (cosineSimilarity [] [("toString"%string, 1)]) = true.
Proof. repeat split; vm_compute; reflexivity. Qed.

End Guard.


(** ** Self-similarity, disjoint vectors, symmetry *)

Module Similarity.

Import SimpleEmbedding Props FloatFacts Numbers Cosine Example.
Local Open Scope float_scope.

(** *** A vector against itself *)

Lemma loop_self (e : embedding) :
  dotProduct (loop e e) = norm1 (loop e e) /\ norm2 (loop e e) = norm1 (loop e e).
Proof.
  unfold loop.
  apply (loop_invariant
           (fun acc => dotProduct acc = norm1 acc /\ norm2 acc = norm1 acc)
           (fun _ => True)); [| trivial | split; reflexivity].
  intros acc k [Hd Hn] _. simpl. rewrite Hd, Hn. split; reflexivity.
Qed.

Lemma cosine_self (e : embedding) :
  cosineSimilarity e e =
  if squared_norm e =? 0 then 0
  else squared_norm e / (sqrt (squared_norm e) * sqrt (squared_norm e)).
Proof.
  unfold cosineSimilarity, divisor, squared_norm.
  destruct (loop_self e) as [-> ->]. rewrite orb_diag. reflexivity.
Qed.

Lemma cosine_single_token (text t : string) :
  tokenize text = [t] -> inherited t = false ->
  cosineSimilarity (computeEmbedding text) (computeEmbedding text) = 1.
Proof.
  intros Htok Hplain.
  assert (Hproto : String.eqb t "__proto__" = false).
  { destruct (String.eqb_spec t "__proto__") as [-> | _]; [discriminate | reflexivity]. }
  assert (Hemb : computeEmbedding text = [(t, 1)]).
  { unfold computeEmbedding. rewrite Htok. simpl. unfold count_token. simpl.
    rewrite Hplain, Hproto. simpl. rewrite String.eqb_refl. reflexivity. }
  assert (Hkeys : allKeys [(t, 1)] [(t, 1)] = [t]).
  { unfold allKeys. simpl. rewrite String.eqb_refl. reflexivity. }
  assert (Hw : weight [(t, 1)] t = 1).
  { unfold weight. simpl. rewrite String.eqb_refl. reflexivity. }
  rewrite Hemb. unfold cosineSimilarity, loop. rewrite Hkeys.
  cbn [fold_left]. unfold accumulate. rewrite !Hw. reflexivity.
Qed.

(** *** Vectors that share no key *)

Lemma weight_absent (e : embedding) (k : string) :
  inherited k = false -> existsb (String.eqb k) (okeys e) = false ->
  weight e k = 0.
Proof.
  intros Hplain Habs. unfold weight. rewrite (oget_absent e k Habs), Hplain.
  reflexivity.
Qed.

Lemma weight_finite (e : embedding) (k : string) :
  finite_weights e = true -> inherited k = false ->
  finite_class (Prim2SF (weight e k)).
Proof.
  unfold finite_weights, weight. intros Hfin Hplain.
  destruct (oget e k) as [x |] eqn:Hget.
  - apply or_zero_finite. apply finite_class_of_is_finite.
    rewrite forallb_forall in Hfin. exact (Hfin _ (oget_present _ _ _ Hget)).
  - rewrite Hplain. exact I.
Qed.

Lemma weight_not_nan (e : embedding) (k : string) :
  inherited k = false -> Prim2SF (weight e k) <> S754_nan.
Proof.
  unfold weight. intro Hplain. destruct (oget e k) as [x |].
  - apply or_zero_not_nan.
  - rewrite Hplain. discriminate.
Qed.

Lemma existsb_In (k : string) (ks : list string) :
  In k ks -> existsb (String.eqb k) ks = true.
Proof.
  intro H. apply existsb_exists. exists k. split; [exact H | apply String.eqb_refl].
Qed.

Lemma disjoint_keys_In (e1 e2 : embedding) (k : string) :
  disjoint_keys e1 e2 = true -> In k (okeys e1) ->
  existsb (String.eqb k) (okeys e2) = false.
Proof.
  unfold disjoint_keys. intros H Hin. rewrite forallb_forall in H.
  apply negb_true_iff. exact (H k Hin).
Qed.

Lemma cosine_disjoint (e1 e2 : embedding) :
  disjoint_keys e1 e2 = true ->
  plain_keys e1 = true -> plain_keys e2 = true ->
  finite_weights e1 = true -> finite_weights e2 = true ->
  cosineSimilarity e1 e2 = 0.
Proof.
  intros Hdis Hp1 Hp2 Hf1 Hf2.
  assert (Hinv :
    Prim2SF (dotProduct (loop e1 e2)) = S754_zero false
    /\ nonneg (Prim2SF (norm1 (loop e1 e2)))
    /\ nonneg (Prim2SF (norm2 (loop e1 e2)))).
  { unfold loop.
    apply (loop_invariant
             (fun acc => Prim2SF (dotProduct acc) = S754_zero false
                         /\ nonneg (Prim2SF (norm1 acc))
                         /\ nonneg (Prim2SF (norm2 acc)))
             (fun k => inherited k = false
                       /\ (weight e1 k = 0 \/ weight e2 k = 0))).
    - intros acc k (Hd & Hn1 & Hn2) (Hplain & Hzero). simpl.
      split; [| split].
      + apply dot_step; [exact Hd | exact Hzero | |];
          apply weight_finite; assumption.
      + apply norm_step; [exact Hn1 | apply weight_not_nan; exact Hplain].
      + apply norm_step; [exact Hn2 | apply weight_not_nan; exact Hplain].
    - intros k Hk. destruct (allKeys_In _ _ _ Hk) as [Hin | Hin].
      + pose proof (plain_keys_In _ _ Hp1 Hin) as Hplain.
        split; [exact Hplain |]. right.
        apply weight_absent; [exact Hplain | exact (disjoint_keys_In _ _ _ Hdis Hin)].
      + pose proof (plain_keys_In _ _ Hp2 Hin) as Hplain.
        split; [exact Hplain |]. left.
        apply weight_absent; [exact Hplain |].
        destruct (existsb (String.eqb k) (okeys e1)) eqn:Hex; [| reflexivity].
        apply existsb_exists in Hex. destruct Hex as (k' & Hin' & Heq).
        apply String.eqb_eq in Heq. subst k'.
        pose proof (disjoint_keys_In _ _ _ Hdis Hin') as Habs.
        rewrite (existsb_In _ _ Hin) in Habs. discriminate.
    - repeat split. }
  destruct Hinv as (Hd & Hn1 & Hn2).
  unfold cosineSimilarity, divisor.
  destruct (norm1 (loop e1 e2) =? 0) eqn:Hz1; [reflexivity |].
  destruct (norm2 (loop e1 e2) =? 0) eqn:Hz2; [reflexivity |].
  simpl. exact (zero_quotient _ _ _ Hd Hn1 Hn2 Hz1 Hz2).
Qed.

(** *** Symmetry *)

Lemma loop_swapped (e1 e2 : embedding) (keys : list string) :
  forall acc acc',
    dotProduct acc = dotProduct acc' -> norm1 acc = norm2 acc' ->
    norm2 acc = norm1 acc' ->
    dotProduct (fold_left (accumulate e1 e2) keys acc)
      = dotProduct (fold_left (accumulate e2 e1) keys acc')
    /\ norm1 (fold_left (accumulate e1 e2) keys acc)
       = norm2 (fold_left (accumulate e2 e1) keys acc')
    /\ norm2 (fold_left (accumulate e1 e2) keys acc)
       = norm1 (fold_left (accumulate e2 e1) keys acc').
Proof.
  induction keys as [| k keys IH]; simpl; intros acc acc' Hd H1 H2;
    [repeat split; assumption |].
  apply IH; simpl.
  - rewrite Hd, (mul_comm (weight e1 k) (weight e2 k)). reflexivity.
  - rewrite H1. reflexivity.
  - rewrite H2. reflexivity.
Qed.

Lemma cosine_symmetric (e1 e2 : embedding) :
  allKeys e1 e2 = allKeys e2 e1 ->
  cosineSimilarity e1 e2 = cosineSimilarity e2 e1.
Proof.
  intro Hkeys. unfold cosineSimilarity, divisor, loop. rewrite Hkeys.
  destruct (loop_swapped e1 e2 (allKeys e2 e1)
              {| dotProduct := 0; norm1 := 0; norm2 := 0 |}
              {| dotProduct := 0; norm1 := 0; norm2 := 0 |}
              eq_refl eq_refl eq_refl) as (Hd & H1 & H2).
  rewrite Hd, H1, H2.
  rewrite (orb_comm (norm2 _ =? 0) (norm1 _ =? 0)).
  rewrite (mul_comm (sqrt (norm2 _)) (sqrt (norm1 _))). reflexivity.
Qed.

(** C8, as amended.  The similarity of a vector with itself is the
    quotient n / (sqrt n * sqrt n) of its accumulated squared norm n,
    computed in binary64, and 0 when n is 0: it is 1 up to rounding,
    and exactly 1 for the vectorization of a text of one token that
    names no member of [Object.prototype].  The similarity of two
    vectors of finite weights that share no key, none of which names a
    member of [Object.prototype], is exactly 0.  And the similarity is
    symmetric for two vectors whose keys are enumerated in the same
    order from either side. *)
Theorem cosine_self_disjoint_symmetric :
  (forall e,
      cosineSimilarity e e =
      if squared_norm e =? 0 then 0
      else squared_norm e / (sqrt (squared_norm e) * sqrt (squared_norm e)))
  /\ (forall text t,
        tokenize text = [t] -> inherited t = false ->
        cosineSimilarity (computeEmbedding text) (computeEmbedding text) = 1)
  /\ (forall e1 e2,
        disjoint_keys e1 e2 = true ->
        plain_keys e1 = true -> plain_keys e2 = true ->
        finite_weights e1 = true -> finite_weights e2 = true ->
        cosineSimilarity e1 e2 = 0)
  /\ (forall e1 e2,
        allKeys e1 e2 = allKeys e2 e1 ->
        cosineSimilarity e1 e2 = cosineSimilarity e2 e1).
Proof.
  split; [exact cosine_self |].
  split; [exact cosine_single_token |].
  split; [exact cosine_disjoint | exact cosine_symmetric].
Qed.

(** A text of one token, two texts without a common token, and two
    texts with the same tokens in the same order. *)
Lemma cosine_self_disjoint_symmetric_witness :
  cosineSimilarity (computeEmbedding "Hello!") (computeEmbedding "Hello!") = 1
  /\ cosineSimilarity (computeEmbedding "apple banana")
       (computeEmbedding "car truck car") = 0
  /\ cosineSimilarity (computeEmbedding "a b a") (computeEmbedding "a b")
     = cosineSimilarity (computeEmbedding "a b") (computeEmbedding "a b a").
Proof.
  destruct cosine_self_disjoint_symmetric as (_ & Hone & Hdis & Hsym).
  split; [| split].
  - apply (Hone "Hello!" "hello")%string; reflexivity.
  - apply Hdis; reflexivity.
  - apply Hsym; reflexivity.
Defined.

(** C8 as stated fails.  The vector of "a b" against itself gives
    0.9999999999999998, not 1; and the vectors of "c b a b" and
    "b a c a a" give 0.7385489458759963 one way round and
    0.7385489458759962 the other, the sums being taken in another
    order.  Two vectors that share no key give NaN, not 0, when a key
    names a member of [Object.prototype] or a weight is infinite. *)
Lemma cosine_not_exact :
  (cosineSimilarity (computeEmbedding "a b") (computeEmbedding "a b") =? 1)
    = false
  /\ (cosineSimilarity (computeEmbedding "a b") (computeEmbedding "a b") <? 1)
     = true
  /\ (cosineSimilarity (computeEmbedding "c b a b") (computeEmbedding "b a c a a")
        =? cosineSimilarity (computeEmbedding "b a c a a")
             (computeEmbedding "c b a b")) = false
  /\ cosineSimilarity (computeEmbedding "c b a b") (computeEmbedding "b a c a a")
     <> cosineSimilarity (computeEmbedding "b a c a a") (computeEmbedding "c b a b")
  /\ is_nan (cosineSimilarity [("a"%string, 1)] [("toString"%string, 1)]) = true
  /\ is_nan (cosineSimilarity [("a"%string, infinity)] [("b"%string, 1)]) = true.
Proof.
  repeat split; try (vm_compute; reflexivity).
  intro H.
  assert (Heq : (cosineSimilarity (computeEmbedding "c b a b")
                   (computeEmbedding "b a c a a")
                 =? cosineSimilarity (computeEmbedding "b a c a a")
                      (computeEmbedding "c b a b")) = false)
    by (vm_compute; reflexivity).
  rewrite H in Heq. vm_compute in Heq. discriminate.
Qed.

End Similarity.

Module FloatOrder.

Import Order.
Local Open Scope float_scope.

Lemma positive_spec (x : float) : (0 <? x) = true -> positive (Prim2SF x).
Proof.
  rewrite ltb_spec. change (Prim2SF 0) with (S754_zero false).
  destruct (Prim2SF x) as [s | [|] | | [|] m e]; simpl; intro H;
    try discriminate; exact I.
Qed.

Lemma positive_not_nan (sf : spec_float) : positive sf -> sf <> S754_nan.
Proof. destruct sf; simpl; intro H; try contradiction; discriminate. Qed.

(** Among the numbers other than NaN, [x < y] and [x <= y] are the
    order of the ranks. *)
Lemma ltb_rank (x y : float) :
  Prim2SF x <> S754_nan -> Prim2SF y <> S754_nan ->
  (x <? y) = (rank (Prim2SF x) <? rank (Prim2SF y))%Z.
Proof.
  intros Hx Hy. rewrite ltb_spec. unfold SFltb.
  rewrite SFcompare_rank; try apply Prim2SF_valid; try assumption.
  unfold Z.ltb. reflexivity.
Qed.

Lemma leb_rank (x y : float) :
  Prim2SF x <> S754_nan -> Prim2SF y <> S754_nan ->
  (x <=? y) = (rank (Prim2SF x) <=? rank (Prim2SF y))%Z.
Proof.
  intros Hx Hy. rewrite leb_spec. unfold SFleb.
  rewrite SFcompare_rank; try apply Prim2SF_valid; try assumption.
  unfold Z.leb. destruct (rank (Prim2SF x) ?= rank (Prim2SF y))%Z; reflexivity.
Qed.

(** A number that is below another is not NaN. *)
Lemma ltb_not_nan (x y : float) :
  (x <? y) = true -> Prim2SF x <> S754_nan /\ Prim2SF y <> S754_nan.
Proof.
  rewrite ltb_spec. unfold SFltb, SFcompare.
  destruct (Prim2SF x), (Prim2SF y); intro H; try discriminate;
    split; discriminate.
Qed.

(** [y - x > 0] decides [x < y] among positive numbers. *)
Lemma sub_positive (x y : float) :
  (0 <? x) = true -> (0 <? y) = true ->
  (0 <? y - x) = (rank (Prim2SF x) <? rank (Prim2SF y))%Z.
Proof.
  intros Hx Hy. apply positive_spec in Hx, Hy.
  rewrite ltb_spec, sub_spec. change (Prim2SF 0) with (S754_zero false).
  apply SFsub_sign; try apply Prim2SF_valid; assumption.
Qed.

End FloatOrder.

(** ** Sorting *)

Module Sorting.

Import Queries.

Section Insertion.
Context {A : Type} (after : A -> A -> bool).

Lemma insert_by_perm (x : A) (l : list A) :
  Permutation (insert_by after x l) (x :: l).
Proof.
  induction l as [| y r IH]; simpl; [apply Permutation_refl |].
  destruct (after x y); [| apply Permutation_refl].
  apply Permutation_trans with (y :: x :: r);
    [apply perm_skip; exact IH | apply perm_swap].
Qed.

(** Sorting rearranges: nothing is lost or added. *)
Lemma sort_by_perm (l : list A) : Permutation (sort_by after l) l.
Proof.
  induction l as [| x r IH]; simpl; [apply perm_nil |].
  apply Permutation_trans with (x :: sort_by after r);
    [apply insert_by_perm | apply perm_skip; exact IH].
Qed.

Lemma sort_by_In (l : list A) (x : A) : In x (sort_by after l) <-> In x l.
Proof.
  split; apply Permutation_in;
    [apply sort_by_perm | apply Permutation_sym, sort_by_perm].
Qed.

Lemma sort_by_length (l : list A) : List.length (sort_by after l) = List.length l.
Proof. apply Permutation_length, sort_by_perm. Qed.

(** Where the comparator is the order of an integer key, the result is
    in descending order of the key, and the elements of one key keep
    their order. *)
Context (key : A -> Z) (P : A -> Prop).
Hypothesis after_key :
  forall x y, P x -> P y -> after x y = (key x <? key y)%Z.

Lemma insert_by_sorted (x : A) (l : list A) :
  P x -> Forall P l ->
  StronglySorted (fun a b => (key b <= key a)%Z) l ->
  StronglySorted (fun a b => (key b <= key a)%Z) (insert_by after x l).
Proof.
  intros Hx Hl Hs. induction l as [| y r IH]; simpl.
  - constructor; constructor.
  - inversion Hl as [| ? ? Hy Hr]; subst.
    inversion Hs as [| ? ? Hsr Hall]; subst.
    rewrite (after_key x y Hx Hy).
    destruct (key x <? key y)%Z eqn:Hlt.
    + apply Z.ltb_lt in Hlt. constructor; [exact (IH Hr Hsr) |].
      apply Forall_forall. intros z Hz.
      apply (Permutation_in _ (insert_by_perm x r)) in Hz.
      destruct Hz as [<- | Hz]; [lia |].
      rewrite Forall_forall in Hall. exact (Hall z Hz).
    + apply Z.ltb_ge in Hlt. constructor; [exact Hs |].
      constructor; [exact Hlt |].
      apply Forall_forall. intros z Hz.
      rewrite Forall_forall in Hall. specialize (Hall z Hz). lia.
Qed.

Lemma Forall_sort_by (Q : A -> Prop) (l : list A) :
  Forall Q l -> Forall Q (sort_by after l).
Proof.
  intro H. apply Forall_forall. intros x Hx.
  rewrite Forall_forall in H. apply H. apply sort_by_In. exact Hx.
Qed.

Lemma sort_by_sorted (l : list A) :
  Forall P l ->
  StronglySorted (fun a b => (key b <= key a)%Z) (sort_by after l).
Proof.
  induction l as [| x r IH]; simpl; intro Hl; [constructor |].
  inversion Hl as [| ? ? Hx Hr]; subst.
  apply insert_by_sorted; [exact Hx | apply Forall_sort_by; exact Hr | exact (IH Hr)].
Qed.

Lemma insert_by_stable (t : Z) (x : A) (l : list A) :
  P x -> Forall P l ->
  StronglySorted (fun a b => (key b <= key a)%Z) l ->
  filter (fun a => (key a =? t)%Z) (insert_by after x l)
  = filter (fun a => (key a =? t)%Z) (x :: l).
Proof.
  intros Hx Hl Hs. induction l as [| y r IH]; [reflexivity |].
  inversion Hl as [| ? ? Hy Hr]; subst.
  inversion Hs as [| ? ? Hsr Hall]; subst.
  cbn [insert_by]. rewrite (after_key x y Hx Hy).
  destruct (key x <? key y)%Z eqn:Hlt; [| reflexivity].
  apply Z.ltb_lt in Hlt.
  cbn [filter]. rewrite (IH Hr Hsr). cbn [filter].
  destruct (key x =? t)%Z eqn:Hxt; [| reflexivity].
  apply Z.eqb_eq in Hxt.
  destruct (key y =? t)%Z eqn:Hyt; [| reflexivity].
  apply Z.eqb_eq in Hyt. lia.
Qed.

Lemma sort_by_stable (t : Z) (l : list A) :
  Forall P l ->
  filter (fun a => (key a =? t)%Z) (sort_by after l)
  = filter (fun a => (key a =? t)%Z) l.
Proof.
  induction l as [| x r IH]; simpl; intro Hl; [reflexivity |].
  inversion Hl as [| ? ? Hx Hr]; subst.
  rewrite insert_by_stable;
    [| exact Hx | apply Forall_sort_by; exact Hr | apply sort_by_sorted; exact Hr].
  cbn [filter]. rewrite (IH Hr). reflexivity.
Qed.

End Insertion.

(** A sorted list stays sorted when it is cut. *)
Lemma StronglySorted_firstn {A : Type} (R : A -> A -> Prop) (n : nat) :
  forall l, StronglySorted R l -> StronglySorted R (firstn n l).
Proof.
  induction n as [| n IH]; intros l Hs; [constructor |].
  destruct l as [| x r]; [constructor |].
  inversion Hs as [| ? ? Hsr Hall]; subst. cbn [firstn].
  constructor; [exact (IH r Hsr) |].
  apply Forall_forall. intros z Hz. rewrite Forall_forall in Hall.
  apply Hall. clear -Hz. revert r Hz.
  induction n as [| n IHn]; intros r Hz; [contradiction |].
  destruct r as [| y r]; [contradiction |].
  destruct Hz as [<- | Hz]; [left; reflexivity | right; exact (IHn r Hz)].
Qed.

Lemma StronglySorted_slice0 {A : Type} (R : A -> A -> Prop) (n : Z) (l : list A) :
  StronglySorted R l -> StronglySorted R (slice0 n l).
Proof.
  intro Hs. unfold slice0. destruct (n <? 0)%Z; apply StronglySorted_firstn; exact Hs.
Qed.

(** A relation of a sorted list that holds on its elements for another
    reason. *)
Lemma StronglySorted_weaken {A : Type} (R R' : A -> A -> Prop) (Q : A -> Prop) :
  (forall a b, Q a -> Q b -> R a b -> R' a b) ->
  forall l, Forall Q l -> StronglySorted R l -> StronglySorted R' l.
Proof.
  intros HR l Hl Hs. induction Hs as [| x r Hsr IH Hall]; [constructor |].
  inversion Hl as [| ? ? Hx Hr]; subst.
  constructor; [exact (IH Hr) |].
  rewrite Forall_forall in *. intros z Hz.
  apply HR; [exact Hx | exact (Hr z Hz) | exact (Hall z Hz)].
Qed.

End Sorting.

(** ** Search *)

Module Searching.

Import SimpleEmbedding Store Queries Conditions Sorting FloatOrder.
Local Open Scope float_scope.

(** The loop of [search] on records that all have a vector: it does
    not throw, and collects the records of positive similarity. *)
Lemma scan_present (q : embedding) (ms : list (string * Memory)) :
  forallb
    (fun entry =>
       match embeddings (snd entry) with Some _ => true | None => false end)
    ms = true ->
  exists all,
    scan q ms = Ret all
    /\ (List.length all <= List.length ms)%nat
    /\ (forall h, In h all ->
          In (ref h, memory h) ms /\ hit_id h = id (memory h)
          /\ option_map (cosineSimilarity q) (embeddings (memory h))
             = Some (similarity h)
          /\ (0 <? similarity h) = true)
    /\ (forall k m x,
          In (k, m) ms ->
          option_map (cosineSimilarity q) (embeddings m) = Some x ->
          (0 <? x) = true ->
          In {| ref := k; memory := m; similarity := x; hit_id := id m |} all).
Proof.
  induction ms as [| [k m] r IH]; simpl; intro Hp.
  - exists []. repeat split; try contradiction. apply Nat.le_refl.
  - apply andb_prop in Hp. destruct Hp as [Hm Hr].
    destruct (IH Hr) as (all & Hscan & Hlen & Hsound & Hcomplete).
    rewrite Hscan.
    destruct (embeddings m) as [e |] eqn:He; [| discriminate].
    destruct (0 <? cosineSimilarity q e) eqn:Hpos.
    + eexists. split; [reflexivity |]. split; [simpl; lia |]. split.
      * intros h [<- | Hh]; simpl.
        -- rewrite He. repeat split; try reflexivity; [left; reflexivity | exact Hpos].
        -- destruct (Hsound h Hh) as (H1 & H2 & H3 & H4).
           repeat split; try assumption. right. exact H1.
      * intros k' m' x [[= <- <-] | Hin] Hx Hxpos.
        -- rewrite He in Hx. injection Hx as <-. left. reflexivity.
        -- right. exact (Hcomplete k' m' x Hin Hx Hxpos).
    + exists all. split; [reflexivity |]. split; [simpl; lia |]. split.
      * intros h Hh. destruct (Hsound h Hh) as (H1 & H2 & H3 & H4).
        repeat split; try assumption. right. exact H1.
      * intros k' m' x [[= <- <-] | Hin] Hx Hxpos.
        -- rewrite He in Hx. injection Hx as <-. rewrite Hpos in Hxpos. discriminate.
        -- exact (Hcomplete k' m' x Hin Hx Hxpos).
Qed.

Lemma sort_hits_sort_by (l : list Hit) :
  sort_hits l = sort_by (fun x y => 0 <? compare_hits x y) l.
Proof.
  unfold sort_hits, sort_by. induction l as [| x r IH]; simpl; [reflexivity |].
  rewrite IH. generalize (fold_right (insert_by (fun x y => 0 <? compare_hits x y)) [] r).
  intro l. induction l as [| y l IHl]; simpl; [reflexivity |].
  rewrite IHl. reflexivity.
Qed.

(** The loop of [search] throws exactly when a record has no vector. *)
Lemma scan_throws (q : embedding) (ms : list (string * Memory)) :
  forallb
    (fun entry =>
       match embeddings (snd entry) with Some _ => true | None => false end)
    ms = false ->
  scan q ms = Throw TypeError.
Proof.
  induction ms as [| [k m] r IH]; simpl; [discriminate |].
  destruct (embeddings m) as [e |]; [| reflexivity].
  simpl. intro H. rewrite (IH H). reflexivity.
Qed.

Lemma search_throws (query : string) (limit : Z) (s : Mem0) :
  vectors_present s = false -> search query limit s = Throw TypeError.
Proof. intro H. unfold search. rewrite (scan_throws _ _ H). reflexivity. Qed.

Lemma search_Ret_present (query : string) (limit : Z) (s : Mem0) hits :
  search query limit s = Ret hits -> vectors_present s = true.
Proof.
  intro H. destruct (vectors_present s) eqn:Hp; [reflexivity |].
  rewrite (search_throws query limit s Hp) in H. discriminate.
Qed.

(** The comparator of [search] on hits of positive similarity. *)
Lemma compare_hits_rank (x y : Hit) :
  (0 <? similarity x) = true -> (0 <? similarity y) = true ->
  (0 <? compare_hits x y)
  = (rank (Prim2SF (similarity x)) <? rank (Prim2SF (similarity y)))%Z.
Proof. intros Hx Hy. unfold compare_hits. apply sub_positive; assumption. Qed.

(** Sorted hits of positive similarity are in descending order. *)
Lemma sort_hits_sorted (l : list Hit) :
  Forall (fun h => (0 <? similarity h) = true) l ->
  StronglySorted (fun a b => (similarity b <=? similarity a) = true)
    (sort_hits l).
Proof.
  intro Hl. rewrite sort_hits_sort_by.
  apply (StronglySorted_weaken
           (fun a b => (rank (Prim2SF (similarity b))
                        <= rank (Prim2SF (similarity a)))%Z)
           _ (fun h => (0 <? similarity h) = true)).
  - intros a b Ha Hb Hab.
    rewrite leb_rank by (apply positive_not_nan, positive_spec; assumption).
    apply Z.leb_le. exact Hab.
  - apply Forall_sort_by. exact Hl.
  - apply (sort_by_sorted _ (fun h => rank (Prim2SF (similarity h)))
             (fun h => (0 <? similarity h) = true)); [| exact Hl].
    intros x y. apply compare_hits_rank.
Qed.

Lemma length_slice0 {A : Type} (n : Z) (l : list A) :
  (List.length (slice0 n l) <= List.length l)%nat
  /\ ((0 <= n)%Z -> (Z.of_nat (List.length (slice0 n l)) <= n)%Z).
Proof.
  unfold slice0. destruct (n <? 0)%Z eqn:Hn.
  - split; [rewrite length_firstn; lia |]. apply Z.ltb_lt in Hn. lia.
  - rewrite length_firstn. split; lia.
Qed.

(** What [search] returns on a store whose records all have a vector. *)
Lemma search_present (query : string) (limit : Z) (s : Mem0) :
  vectors_present s = true ->
  exists hits,
    search query limit s = Ret hits
    /\ (forall h, In h hits ->
          In (ref h, memory h) (memories s) /\ hit_id h = id (memory h)
          /\ score query (memory h) = Some (similarity h)
          /\ (0 <? similarity h) = true)
    /\ StronglySorted (fun a b => (similarity b <=? similarity a) = true) hits
    /\ (List.length hits <= List.length (memories s))%nat
    /\ ((0 <= limit)%Z -> (Z.of_nat (List.length hits) <= limit)%Z).
Proof.
  intro Hp. unfold search.
  destruct (scan_present (computeEmbedding query) (memories s) Hp)
    as (all & -> & Hlen & Hsound & _).
  eexists. split; [reflexivity |].
  assert (Hall : Forall (fun h => (0 <? similarity h) = true) all).
  { apply Forall_forall. intros h Hh. apply (Hsound h Hh). }
  split; [| split; [| split]].
  - intros h Hh. apply Merge.In_slice0 in Hh. apply Merge.In_sort_hits in Hh.
    exact (Hsound h Hh).
  - apply StronglySorted_slice0, sort_hits_sorted. exact Hall.
  - pose proof (proj1 (length_slice0 limit (sort_hits all))) as H.
    rewrite sort_hits_sort_by, sort_by_length in H.
    rewrite sort_hits_sort_by. lia.
  - apply length_slice0.
Qed.

(** With room for one result at least, the first result is a record of
    the highest similarity; with room for all, no record of positive
    similarity is left out. *)
Lemma search_best (query : string) (limit : Z) (s : Mem0) :
  vectors_present s = true -> (1 <= limit)%Z ->
  forall k m x,
    In (k, m) (memories s) -> score query m = Some x -> (0 <? x) = true ->
    exists h rest,
      search query limit s = Ret (h :: rest)
      /\ (x <=? similarity h) = true
      /\ ((size s <= limit)%Z ->
          In {| ref := k; memory := m; similarity := x; hit_id := id m |}
            (h :: rest)).
Proof.
  intros Hp Hlimit k m x Hin Hx Hxpos. unfold search.
  destruct (scan_present (computeEmbedding query) (memories s) Hp)
    as (all & -> & Hlen & Hsound & Hcomplete).
  specialize (Hcomplete k m x Hin Hx Hxpos).
  set (hx := {| ref := k; memory := m; similarity := x; hit_id := id m |}) in *.
  assert (Hall : Forall (fun h => (0 <? similarity h) = true) all).
  { apply Forall_forall. intros h Hh. apply (Hsound h Hh). }
  pose proof (sort_hits_sorted all Hall) as Hsorted.
  assert (Hxs : In hx (sort_hits all))
    by (rewrite sort_hits_sort_by; apply sort_by_In; exact Hcomplete).
  assert (Hl : List.length (sort_hits all) = List.length all)
    by (rewrite sort_hits_sort_by; apply sort_by_length).
  destruct (sort_hits all) as [| h rest'] eqn:Hs; [contradiction |].
  assert (Hcut : slice0 limit (h :: rest')
                 = h :: firstn (Nat.pred (Z.to_nat limit)) rest').
  { unfold slice0. destruct (limit <? 0)%Z eqn:Hneg; [apply Z.ltb_lt in Hneg; lia |].
    destruct (Z.to_nat limit) as [| n] eqn:Hn; [lia | reflexivity]. }
  rewrite Hcut. eexists. eexists. split; [reflexivity |]. split.
  - inversion Hsorted as [| ? ? _ Hhead]; subst.
    destruct Hxs as [-> | Hxs].
    + simpl. rewrite leb_rank by (apply positive_not_nan, positive_spec; exact Hxpos).
      apply Z.leb_refl.
    + rewrite Forall_forall in Hhead. exact (Hhead hx Hxs).
  - intro Hsize. unfold size in Hsize.
    rewrite firstn_all2 by (simpl in Hl; lia). exact Hxs.
Qed.

(** The decision of [add] between merging and storing. *)
Lemma add_decision (clk : Clock) (now : Z) (content0 : string)
    (props : obj value) (s : Mem0) :
  vectors_present s = true ->
  ((exists k m x,
       In (k, m) (memories s) /\ score content0 m = Some x
       /\ (0 <? x) = true /\ (threshold (config s) <? x) = true) ->
   exists hit,
     In (ref hit, memory hit) (memories s)
     /\ score content0 (memory hit) = Some (similarity hit)
     /\ (threshold (config s) <? similarity hit) = true
     /\ (forall k m x,
           In (k, m) (memories s) -> score content0 m = Some x ->
           (0 <? x) = true -> (x <=? similarity hit) = true)
     /\ add clk now content0 props s
        = (Ret (id (memory hit)),
           with_memories
             (mset (ref hit) (merge_into clk now content0 props (memory hit))
                (memories s))
             (with_nextId (increment (nextId s)) s)))
  /\ ((forall k m x,
         In (k, m) (memories s) -> score content0 m = Some x ->
         (0 <? x) = true -> (threshold (config s) <? x) = false) ->
      add clk now content0 props s
      = (Ret ("mem_" ++ numeral (nextId s))%string,
         insert_record clk ("mem_" ++ numeral (nextId s))%string
           (set_embeddings (Some (computeEmbedding content0))
              (Memory_new clk now ("mem_" ++ numeral (nextId s))%string
                 content0 props (oget props "tags"%string)))
           (with_nextId (increment (nextId s)) s))).
Proof.
  intro Hp.
  assert (Hp1 : vectors_present (with_nextId (increment (nextId s)) s) = true) by exact Hp.
  split.
  - intros (k & m & x & Hin & Hx & Hxpos & Hthr).
    destruct (search_best content0 1 _ Hp1 ltac:(lia) k m x Hin Hx Hxpos)
      as (h & rest & Hsearch & Hle & _).
    destruct (search_present content0 1 _ Hp1) as (hits & Hsearch' & Hsound & _).
    rewrite Hsearch in Hsearch'. injection Hsearch' as <-.
    destruct (Hsound h (or_introl eq_refl)) as (Hh1 & Hh2 & Hh3 & Hh4).
    assert (Hhthr : (threshold (config s) <? similarity h) = true).
    { destruct (ltb_not_nan _ _ Hthr) as [Ht Hxn].
      assert (Hhn : Prim2SF (similarity h) <> S754_nan)
        by (apply positive_not_nan, positive_spec; exact Hh4).
      rewrite ltb_rank in Hthr |- * by assumption.
      rewrite leb_rank in Hle by assumption.
      apply Z.ltb_lt in Hthr. apply Z.leb_le in Hle. apply Z.ltb_lt. lia. }
    exists h. split; [exact Hh1 |]. split; [exact Hh3 |]. split; [exact Hhthr |].
    split.
    + intros k' m' x' Hin' Hx' Hxpos'.
      destruct (search_best content0 1 _ Hp1 ltac:(lia) k' m' x' Hin' Hx' Hxpos')
        as (h' & rest' & Hsearch' & Hle' & _).
      rewrite Hsearch in Hsearch'. injection Hsearch' as <- _. exact Hle'.
    + unfold add, findSimilar. rewrite Hsearch. simpl config. rewrite Hhthr.
      reflexivity.
  - intro Hnone. unfold add, findSimilar.
    destruct (search_present content0 1 _ Hp1) as (hits & -> & Hsound & _).
    destruct hits as [| h rest]; [reflexivity |].
    destruct (Hsound h (or_introl eq_refl)) as (Hh1 & Hh2 & Hh3 & Hh4).
    simpl config. rewrite (Hnone (ref h) (memory h) (similarity h) Hh1 Hh3 Hh4).
    reflexivity.
Qed.

(** A limit below zero cuts the lowest hits off the ranking. *)
Lemma search_negative_limit (query : string) (limit : Z) (s : Mem0)
    (ranking : list Hit) :
  (limit < 0)%Z ->
  search query (size s) s = Ret ranking ->
  search query limit s
  = Ret (firstn (Z.to_nat (Z.max (Z.of_nat (List.length ranking) + limit) 0))
           ranking).
Proof.
  intros Hneg Hfull. pose proof (search_Ret_present _ _ _ _ Hfull) as Hp.
  revert Hfull. unfold search.
  destruct (scan_present (computeEmbedding query) (memories s) Hp)
    as (all & -> & Hlen & _).
  assert (Hl : (List.length (sort_hits all) <= List.length (memories s))%nat)
    by (rewrite sort_hits_sort_by, sort_by_length; exact Hlen).
  unfold slice0, size.
  destruct (Z.of_nat (List.length (memories s)) <? 0)%Z eqn:Hn;
    [apply Z.ltb_lt in Hn; lia |].
  rewrite firstn_all2 by lia. intros [= <-].
  apply Z.ltb_lt in Hneg. rewrite Hneg. reflexivity.
Qed.

(** X1.  [search] throws a TypeError exactly when some record has no
    vector.  Otherwise it returns hits that are records of the store,
    each with its id and with its similarity to the query, which is
    above zero; the hits are in descending order of similarity; they
    are no more than the records, and no more than a limit that is not
    negative.  A limit below zero leaves the hits of the whole ranking
    but for the last ones, as many as the limit says. *)
Theorem search_results (query : string) (limit : Z) (s : Mem0) :
  (vectors_present s = false -> search query limit s = Throw TypeError)
  /\ (vectors_present s = true ->
      exists hits,
        search query limit s = Ret hits
        /\ (forall h, In h hits ->
              In (ref h, memory h) (memories s) /\ hit_id h = id (memory h)
              /\ score query (memory h) = Some (similarity h)
              /\ (0 <? similarity h) = true)
        /\ StronglySorted (fun a b => (similarity b <=? similarity a) = true) hits
        /\ (List.length hits <= List.length (memories s))%nat
        /\ ((0 <= limit)%Z -> (Z.of_nat (List.length hits) <= limit)%Z)
        /\ ((limit < 0)%Z ->
            forall ranking,
              search query (size s) s = Ret ranking ->
              hits
              = firstn
                  (Z.to_nat (Z.max (Z.of_nat (List.length ranking) + limit) 0))
                  ranking)).
Proof.
  split; [apply search_throws |].
  intro Hp. destruct (search_present query limit s Hp)
    as (hits & Hsearch & H1 & H2 & H3 & H4).
  exists hits. split; [exact Hsearch |]. split; [exact H1 |].
  split; [exact H2 |]. split; [exact H3 |]. split; [exact H4 |].
  intros Hneg ranking Hfull.
  rewrite (search_negative_limit query limit s ranking Hneg Hfull) in Hsearch.
  injection Hsearch as <-. reflexivity.
Qed.

(** The search for "food and cooking" in the demonstration. *)
Lemma search_results_witness :
  exists hits,
    search "food and cooking" 10 Demo.three_records = Ret hits
    /\ StronglySorted (fun a b => (similarity b <=? similarity a) = true) hits
    /\ (Z.of_nat (List.length hits) <= 10)%Z.
Proof.
  destruct (proj2 (search_results "food and cooking" 10 Demo.three_records))
    as (hits & Hsearch & _ & Hsorted & _ & Hlimit & _).
  - vm_compute. reflexivity.
  - exists hits. split; [exact Hsearch |]. split; [exact Hsorted |].
    apply Hlimit. lia.
Defined.

(** X2.  On a store whose records all have a vector, with a limit of 1
    at least: when a record has a similarity to the query above zero,
    [search] returns a first hit, and no such record is more similar
    than the first hit; with a limit that is no less than the number
    of records, every such record is among the hits. *)
Theorem search_best_first (query : string) (limit : Z) (s : Mem0) :
  vectors_present s = true -> (1 <= limit)%Z ->
  forall k m x,
    In (k, m) (memories s) -> score query m = Some x -> (0 <? x) = true ->
    exists h rest,
      search query limit s = Ret (h :: rest)
      /\ (x <=? similarity h) = true
      /\ ((size s <= limit)%Z ->
          In {| ref := k; memory := m; similarity := x; hit_id := id m |}
            (h :: rest)).
Proof. exact (search_best query limit s). Qed.

(** The third record of the demonstration and the query
    "food and cooking". *)
Lemma search_best_first_witness :
  exists h rest,
    search "food and cooking" 10 Demo.three_records = Ret (h :: rest)
    /\ (cosineSimilarity (computeEmbedding "food and cooking")
          (computeEmbedding "The user enjoys cooking pasta dishes")
        <=? similarity h) = true.
Proof.
  eassert (Hin : In ("mem_3"%string, _) (memories Demo.three_records))
    by (vm_compute; right; right; left; reflexivity).
  destruct (search_best_first "food and cooking" 10 Demo.three_records
              ltac:(vm_compute; reflexivity) ltac:(lia) _ _
              (cosineSimilarity (computeEmbedding "food and cooking")
                 (computeEmbedding "The user enjoys cooking pasta dishes"))
              Hin ltac:(vm_compute; reflexivity) ltac:(vm_compute; reflexivity))
    as (h & rest & Hsearch & Hle & _).
  exists h, rest. split; [exact Hsearch | exact Hle].
Defined.

(** X3.  On a store whose records all have a vector and whose
    counter is of magnitude up to 2^53, where an id is printed as a
    numeral, [add] merges exactly when some record has a similarity to
    the new content that is above zero and above the threshold: it
    then merges into a record of the highest similarity, returns the
    id of that record and stores no new one.  Otherwise it stores a new
    record under the id that the counter gives, and enforces the
    limit.  In either case the counter is left at the binary64 sum of
    the counter and one. *)
Theorem add_merges_or_stores (clk : Clock) (now : Z) (content0 : string)
    (props : obj value) (s : Mem0) :
  vectors_present s = true ->
  (- 9007199254740992 <= nextId s <= 9007199254740992)%Z ->
  ((exists k m x,
       In (k, m) (memories s) /\ score content0 m = Some x
       /\ (0 <? x) = true /\ (threshold (config s) <? x) = true) ->
   exists hit,
     In (ref hit, memory hit) (memories s)
     /\ score content0 (memory hit) = Some (similarity hit)
     /\ (threshold (config s) <? similarity hit) = true
     /\ (forall k m x,
           In (k, m) (memories s) -> score content0 m = Some x ->
           (0 <? x) = true -> (x <=? similarity hit) = true)
     /\ add clk now content0 props s
        = (Ret (id (memory hit)),
           with_memories
             (mset (ref hit) (merge_into clk now content0 props (memory hit))
                (memories s))
             (with_nextId (increment (nextId s)) s)))
  /\ ((forall k m x,
         In (k, m) (memories s) -> score content0 m = Some x ->
         (0 <? x) = true -> (threshold (config s) <? x) = false) ->
      add clk now content0 props s
      = (Ret ("mem_" ++ numeral (nextId s))%string,
         insert_record clk ("mem_" ++ numeral (nextId s))%string
           (set_embeddings (Some (computeEmbedding content0))
              (Memory_new clk now ("mem_" ++ numeral (nextId s))%string
                 content0 props (oget props "tags"%string)))
           (with_nextId (increment (nextId s)) s))).
Proof. intros Hp _. exact (add_decision clk now content0 props s Hp). Qed.

(** The store of one record "hello world", to which the same text is
    added. *)
Lemma add_merges_or_stores_witness :
  exists hit,
    In (ref hit, memory hit) (memories Example.one_record)
    /\ add Example.clock 2000 "hello world" [] Example.one_record
       = (Ret (id (memory hit)),
          with_memories
            (mset (ref hit)
               (merge_into Example.clock 2000 "hello world" [] (memory hit))
               (memories Example.one_record))
            (with_nextId 3 Example.one_record)).
Proof.
  destruct (proj1 (add_merges_or_stores Example.clock 2000 "hello world" []
                     Example.one_record ltac:(vm_compute; reflexivity)
                     ltac:(vm_compute; split; discriminate)))
    as (hit & Hin & _ & _ & _ & Hadd).
  - eexists. eexists. eexists. split; [vm_compute; left; reflexivity |].
    split; [vm_compute; reflexivity |].
    split; vm_compute; reflexivity.
  - exists hit. split; [exact Hin | exact Hadd].
Defined.

End Searching.

(** ** Ids and keys *)

Module Identity.

Import SimpleEmbedding Store Props Conditions MapFacts.

(** Different integers have different numerals. *)
Lemma numeral_inj (n n' : Z) : numeral n = numeral n' -> n = n'.
Proof.
  intro H.
  pose proof (getTime_toISOString Example.clock n) as H1.
  pose proof (getTime_toISOString Example.clock n') as H2.
  change (toISOString Example.clock n) with (numeral n) in H1.
  change (toISOString Example.clock n') with (numeral n') in H2.
  rewrite H, H2 in H1. injection H1 as H1. symmetry. exact H1.
Qed.

Lemma keyed_subset (s s' : Mem0) :
  (forall e, In e (memories s') -> In e (memories s)) ->
  (nextId s <= nextId s')%Z -> keyed s -> keyed s'.
Proof.
  intros Hsub Hn Hk k m Hin.
  destruct (Hk k m (Hsub _ Hin)) as (Hid & n & Hrange & Hname).
  split; [exact Hid |]. exists n. split; [lia | exact Hname].
Qed.

Lemma keyed_mset (k : string) (m : Memory) (s : Mem0) :
  id m = k ->
  (exists n, (1 <= n < nextId s)%Z /\ k = ("mem_" ++ numeral n)%string) ->
  keyed s -> keyed (with_memories (mset k m (memories s)) s).
Proof.
  intros Hid Hname Hk k' m' Hin. simpl in Hin.
  destruct (In_mset _ _ _ _ _ Hin) as [[= -> ->] | Hold].
  - split; assumption.
  - exact (Hk k' m' Hold).
Qed.

Lemma In_evictOldest (clk : Clock) (s : Mem0) (e : string * Memory) :
  In e (memories (evictOldest clk s)) -> In e (memories s).
Proof.
  unfold evictOldest.
  destruct (fst (oldest clk (memories s))) as [oldestId |]; [| trivial].
  destruct (String.eqb oldestId ""); [trivial |]. simpl. apply In_mdelete.
Qed.

Lemma keyed_insert_record (clk : Clock) (k : string) (m : Memory) (s : Mem0) :
  id m = k ->
  (exists n, (1 <= n < nextId s)%Z /\ k = ("mem_" ++ numeral n)%string) ->
  keyed s -> keyed (insert_record clk k m s).
Proof.
  intros Hid Hname Hk. unfold insert_record.
  pose proof (keyed_mset k m s Hid Hname Hk) as H2.
  destruct (_ <? _)%Z; [| exact H2].
  apply (keyed_subset (with_memories (mset k m (memories s)) s)); [| | exact H2].
  - intro e. apply In_evictOldest.
  - unfold evictOldest.
    destruct (fst (oldest clk _)) as [oldestId |]; [| apply Z.le_refl].
    destruct (String.eqb oldestId ""); apply Z.le_refl.
Qed.

(** On a store built without [import] whose counter is below 2^53,
    every record is held under its own id, and the ids are [mem_n] for
    some [n] from 1 to below the counter. *)
Lemma reachable_keyed (clk : Clock) (s : Mem0) :
  reachable clk false s -> (nextId s < 9007199254740992)%Z -> keyed s.
Proof.
  induction 1 as [o | s now content0 props Hr IH | s now k content0 props _ IH
                  | s k _ IH | s _ _ | s cutoff _ IH
                  | s now jsonData flag s' Hflag _ _ _].
  - intros _ k m [].
  - rewrite Counter.nextId_add. intro Hlt.
    pose proof (Counter.reachable_counter clk s Hr) as Hn.
    assert (Hbelow : (nextId s < 9007199254740992)%Z).
    { destruct (Z.eq_dec (nextId s) 9007199254740992) as [Heq | Hne]; [| lia].
      rewrite Heq, Increment.increment_stalls in Hlt. lia. }
    assert (Hinc : increment (nextId s) = (nextId s + 1)%Z)
      by (apply Increment.increment_exact;
          change (2 ^ 53)%Z with 9007199254740992%Z; lia).
    specialize (IH Hbelow).
    assert (Hs1 : keyed (with_nextId (increment (nextId s)) s)).
    { apply (keyed_subset s); [trivial | simpl; lia | exact IH]. }
    assert (Hnew : exists n, (1 <= n < nextId (with_nextId (increment (nextId s)) s))%Z
                     /\ ("mem_" ++ numeral (nextId s))%string
                        = ("mem_" ++ numeral n)%string).
    { exists (nextId s). split; [simpl; lia | reflexivity]. }
    unfold add.
    destruct (findSimilar content0 1 (with_nextId (increment (nextId s)) s))
      as [[| hit rest] | err] eqn:Hfind; simpl.
    + apply keyed_insert_record; [reflexivity | exact Hnew | exact Hs1].
    + destruct (threshold (config s) <? similarity hit)%float; simpl.
      * assert (Hin : In hit (hit :: rest)) by (left; reflexivity).
        destruct (Merge.search_In _ _ _ _ _ Hfind Hin) as (Hheld & _).
        simpl in Hheld. destruct (IH _ _ Hheld) as (Hid & n & Hrange & Hname).
        apply (keyed_mset (ref hit) _ (with_nextId (increment (nextId s)) s));
          [exact Hid | | exact Hs1].
        exists n. split; [simpl; lia | exact Hname].
      * apply keyed_insert_record; [reflexivity | exact Hnew | exact Hs1].
    + exact Hs1.
  - unfold update. destruct (mget (memories s) k) as [m |] eqn:Hget; simpl;
      [| exact IH].
    intro Hlt. specialize (IH Hlt).
    destruct (IH _ _ (mget_In _ _ _ Hget)) as (Hid & Hname).
    apply (keyed_mset k _ s); [exact Hid | exact Hname | exact IH].
  - intro Hlt. specialize (IH Hlt).
    apply (keyed_subset s); [| apply Z.le_refl | exact IH].
    intro e. simpl. apply In_mdelete.
  - intros _ k m [].
  - unfold cleanupExpired. destruct (negb (autoExpire (config s))); [exact IH |].
    intro Hlt. specialize (IH Hlt).
    apply (keyed_subset s); [| apply Z.le_refl | exact IH].
    intros e He. simpl in He. apply filter_In in He. apply He.
  - discriminate.
Qed.

(** The id that the next [add] makes is the key of no record. *)
Lemma fresh_id (s : Mem0) :
  keyed s -> mget (memories s) ("mem_" ++ numeral (nextId s))%string = None.
Proof.
  intro Hk.
  destruct (mget (memories s) ("mem_" ++ numeral (nextId s))%string) as [m |] eqn:Hget;
    [| reflexivity].
  destruct (Hk _ _ (mget_In _ _ _ Hget)) as (_ & n & Hrange & Hname).
  injection Hname as Hname. apply numeral_inj in Hname. lia.
Qed.

(** Below the capacity, the id that [add] returns names a record of
    the new content, and every other key holds what it held. *)
Lemma add_stores (clk : Clock) (now : Z) (content0 : string)
    (props : obj value) (s : Mem0) (k : string) :
  keyed s -> (size s < maxMemories (config s))%Z ->
  fst (add clk now content0 props s) = Ret k ->
  exists m,
    get k (snd (add clk now content0 props s)) = Some m
    /\ id m = k /\ content m = content0
    /\ (forall key v,
          last_value props key = Some v -> oget (metadata m) key = Some v)
    /\ (forall k', k' <> k ->
          get k' (snd (add clk now content0 props s)) = get k' s)
    /\ size (snd (add clk now content0 props s))
       = match get k s with Some _ => size s | None => (size s + 1)%Z end
    /\ (get k s = None <-> k = ("mem_" ++ numeral (nextId s))%string).
Proof.
  intros Hk Hroom. pose proof (fresh_id s Hk) as Hfresh.
  assert (Hinsert :
    forall m0, id m0 = ("mem_" ++ numeral (nextId s))%string ->
      content m0 = content0 ->
      (forall key v, last_value props key = Some v -> oget (metadata m0) key = Some v) ->
      Ret ("mem_" ++ numeral (nextId s))%string = Ret k ->
      let s' := insert_record clk ("mem_" ++ numeral (nextId s))%string m0
                  (with_nextId (increment (nextId s)) s) in
      exists m,
        get k s' = Some m /\ id m = k /\ content m = content0
        /\ (forall key v,
              last_value props key = Some v -> oget (metadata m) key = Some v)
        /\ (forall k', k' <> k -> get k' s' = get k' s)
        /\ size s' = match get k s with Some _ => size s | None => (size s + 1)%Z end
        /\ (get k s = None <-> k = ("mem_" ++ numeral (nextId s))%string)).
  { intros m0 Hid Hc Hmd Heq.
    assert (Hkeq : k = ("mem_" ++ numeral (nextId s))%string)
      by (inversion Heq; reflexivity).
    subst k. clear Heq. unfold insert_record, size.
    cbn [memories config with_memories with_nextId].
    rewrite length_mset, Hfresh.
    unfold size in Hroom.
    destruct (maxMemories (config s) <? Z.of_nat (S (List.length (memories s))))%Z
      eqn:Hfull; [apply Z.ltb_lt in Hfull; lia |].
    exists m0. unfold get. cbn [memories config with_memories with_nextId].
    rewrite mget_mset, String.eqb_refl, length_mset, Hfresh.
    repeat split; try assumption; try reflexivity; try lia.
    intros k' Hk'. rewrite mget_mset.
    destruct (String.eqb_spec ("mem_" ++ numeral (nextId s)) k');
      [subst; contradiction | reflexivity]. }
  unfold add.
  destruct (findSimilar content0 1 (with_nextId (increment (nextId s)) s))
    as [[| hit rest] | err] eqn:Hfind; cbn [fst snd]; try discriminate.
  - apply Hinsert; try reflexivity.
    intros key v Hv. simpl. rewrite oget_ospread, Hv. reflexivity.
  - destruct (threshold (config (with_nextId (increment (nextId s)) s))
              <? similarity hit)%float; cbn [fst snd].
    + assert (Hin : In hit (hit :: rest)) by (left; reflexivity).
      destruct (Merge.search_In _ _ _ _ _ Hfind Hin) as (Hheld & _).
      simpl in Hheld. destruct (Hk _ _ Hheld) as (Hid & n & Hrange & Hname).
      simpl id. rewrite Hid. intros [= <-].
      assert (Hpresent : mget (memories s) (ref hit) <> None)
        by (apply Merge.In_mget with (m := memory hit); exact Hheld).
      eexists. unfold get, size. cbn [memories config with_memories with_nextId].
      rewrite mget_mset, String.eqb_refl, length_mset.
      split; [reflexivity |]. simpl id. simpl content.
      split; [exact Hid |]. split; [reflexivity |]. split.
      * intros key v Hv. simpl. rewrite oget_ospread, Hv. reflexivity.
      * split.
        -- intros k' Hk'. rewrite mget_mset.
           destruct (String.eqb_spec (ref hit) k'); [subst; contradiction | reflexivity].
        -- destruct (mget (memories s) (ref hit)) eqn:Hget; [| contradiction].
           split; [reflexivity |]. split; [discriminate |].
           intro Heq. rewrite Heq, Hfresh in Hget. discriminate.
    + apply Hinsert; try reflexivity.
      intros key v Hv. simpl. rewrite oget_ospread, Hv. reflexivity.
Qed.

(** X4.  In a store built without [import] the counter is from 1 to
    2^53, and no two records have one key.  While the counter is below
    2^53, every record is held under its own id; the ids are [mem_n]
    for numbers [n] from 1 to below the counter, so that the id of the
    next record is the key of no record. *)
Theorem ids_name_records (clk : Clock) (s : Mem0) :
  reachable clk false s ->
  ((nextId s < 9007199254740992)%Z -> keyed s)
  /\ (1 <= nextId s <= 9007199254740992)%Z
  /\ ((nextId s < 9007199254740992)%Z ->
      get ("mem_" ++ numeral (nextId s))%string s = None)
  /\ distinct (map fst (memories s)) = true.
Proof.
  intro Hr.
  split; [exact (reachable_keyed clk s Hr) |].
  split; [exact (Counter.reachable_counter clk s Hr) |].
  split; [intro Hlt; exact (fresh_id s (reachable_keyed clk s Hr Hlt)) |].
  apply (WellFormed.well_formed_elim s (WellFormed.reachable_well_formed clk s Hr)).
Qed.

(** The store of the records [mem_1] and [mem_3]. *)
Lemma ids_name_records_witness :
  keyed Example.two_records
  /\ get "mem_4" Example.two_records = None.
Proof.
  destruct (ids_name_records Example.clock Example.two_records)
    as (Hk & _ & Hfresh & _).
  - unfold Example.two_records, Example.repaired, Example.merged,
      Example.one_record, Example.fresh.
    apply reach_add, reach_update, reach_add, reach_add, reach_new.
  - split; [apply Hk | apply Hfresh]; vm_compute; reflexivity.
Defined.

(** The empty store with the counter [1 + n] is built without
    [import], for every [n] below 2^53: by [n] rounds of an [add] and
    the [delete] of the record added. *)
Lemma empty_reached (n : nat) :
  (Z.of_nat n < 9007199254740992)%Z ->
  reachable Example.clock false
    {| memories := []; config := config Example.fresh; nextId := 1 + Z.of_nat n |}.
Proof.
  induction n as [| n IH]; intro Hn.
  - exact (reach_new Example.clock false no_options).
  - specialize (IH ltac:(lia)).
    pose proof (reach_delete Example.clock false _
                  ("mem_" ++ numeral (1 + Z.of_nat n))%string
                  (reach_add Example.clock false _ 0%Z "x"%string [] IH)) as H.
    assert (Hstep :
      snd (delete ("mem_" ++ numeral (1 + Z.of_nat n))%string
             (snd (add Example.clock 0 "x" []
                     {| memories := []; config := config Example.fresh;
                        nextId := 1 + Z.of_nat n |})))
      = {| memories := []; config := config Example.fresh;
           nextId := increment (1 + Z.of_nat n) |}).
    { unfold delete, mdelete, add, findSimilar, search.
      cbn [scan memories with_nextId]. cbv iota.
      change (slice0 1 (sort_hits [])) with (@nil Hit). cbv iota.
      unfold insert_record, size.
      cbn [snd fst memories with_memories with_nextId config nextId mset
           List.length filter].
      change (maxMemories (config Example.fresh) <? Z.of_nat 1)%Z with false. cbv iota.
      cbn [snd fst memories with_memories with_nextId config nextId mset
           List.length filter].
      rewrite String.eqb_refl. reflexivity. }
    rewrite Hstep in H.
    rewrite Increment.increment_exact in H
      by (change (2 ^ 53)%Z with 9007199254740992%Z; lia).
    replace (1 + Z.of_nat (S n))%Z with (1 + Z.of_nat n + 1)%Z by lia.
    exact H.
Qed.

(** At the counter 2^53 the id of the next record can be the key of a
    record: the store that [add] leaves on the empty store of that
    counter is built without [import], its counter is still 2^53, and
    it holds a record under the id that the next [add] makes. *)
Lemma next_id_taken :
  exists s,
    reachable Example.clock false s
    /\ nextId s = 9007199254740992%Z
    /\ exists m, get ("mem_" ++ numeral (nextId s))%string s = Some m.
Proof.
  exists (snd (add Example.clock 0 "x" []
                 {| memories := []; config := config Example.fresh;
                    nextId := 9007199254740992 |})).
  split; [| split; [vm_compute; reflexivity | eexists; vm_compute; reflexivity]].
  apply reach_add.
  pose proof (empty_reached (Z.to_nat 9007199254740991)) as H.
  rewrite Z2Nat.id in H by lia.
  exact (H ltac:(lia)).
Qed.

(** X5.  In a store built without [import] that is below its
    capacity and whose counter is below 2^53, the id that [add]
    returns is the key of a record with that id, the new content and
    the metadata of the call; every other key holds what it held; the
    store has one record more when the id is the new one, and as many
    as before when [add] has merged. *)
Theorem add_then_get (clk : Clock) (now : Z) (content0 : string)
    (props : obj value) (s : Mem0) (k : string) :
  reachable clk false s ->
  (nextId s < 9007199254740992)%Z ->
  (size s < maxMemories (config s))%Z ->
  fst (add clk now content0 props s) = Ret k ->
  exists m,
    get k (snd (add clk now content0 props s)) = Some m
    /\ id m = k /\ content m = content0
    /\ (forall key v,
          last_value props key = Some v -> oget (metadata m) key = Some v)
    /\ (forall k', k' <> k ->
          get k' (snd (add clk now content0 props s)) = get k' s)
    /\ size (snd (add clk now content0 props s))
       = match get k s with Some _ => size s | None => (size s + 1)%Z end
    /\ (get k s = None <-> k = ("mem_" ++ numeral (nextId s))%string).
Proof.
  intros Hr Hlt. apply add_stores. exact (reachable_keyed clk s Hr Hlt).
Qed.

(** A second record added to the store of one record. *)
Lemma add_then_get_witness :
  exists m,
    get "mem_2" (snd (add Example.clock 2000 "zebra crossing" [] Example.one_record))
      = Some m
    /\ content m = "zebra crossing"%string.
Proof.
  destruct (add_then_get Example.clock 2000 "zebra crossing" []
              Example.one_record "mem_2")
    as (m & Hget & _ & Hcontent & _).
  - unfold Example.one_record, Example.fresh. apply reach_add, reach_new.
  - vm_compute. reflexivity.
  - vm_compute. reflexivity.
  - vm_compute. reflexivity.
  - exists m. split; [exact Hget | exact Hcontent].
Defined.

End Identity.

(** ** Blank text *)

Module Blank.

Import SimpleEmbedding Store Props Conditions MapFacts Searching.
Local Open Scope float_scope.

(** A store built without [import] holds no stale vector. *)
Lemma reachable_fresh (clk : Clock) (s : Mem0) :
  reachable clk false s -> fresh_vectors s.
Proof.
  induction 1 as [o | s now content0 props _ IH | s now k content0 props _ IH
                  | s k _ IH | s _ IH | s cutoff _ IH
                  | s now jsonData flag s' Hflag _ _ _].
  - intros k m [].
  - exact (Vectors.fresh_vectors_add _ _ _ _ _ IH).
  - exact (Vectors.fresh_vectors_update _ _ _ _ _ _ IH).
  - apply (Vectors.fresh_vectors_subset s); [| exact IH].
    intros e He. exact (In_mdelete _ _ _ He).
  - intros k m [].
  - unfold cleanupExpired. destruct (negb (autoExpire (config s))); [exact IH |].
    apply (Vectors.fresh_vectors_subset s); [| exact IH].
    intros e He. simpl in He. apply filter_In in He. apply He.
  - discriminate.
Qed.

Lemma blank_vector (text : string) :
  whitespace text = true -> computeEmbedding text = [].
Proof.
  intro H. unfold computeEmbedding. rewrite (Cosine.tokenize_whitespace text H).
  reflexivity.
Qed.

(** The score of a record of blank content, and the score of any
    record for a blank query, is zero when the vector is fresh. *)
Lemma score_blank (query : string) (m : Memory) (x : float) :
  fresh_vector m ->
  whitespace query = true \/ whitespace (content m) = true ->
  score query m = Some x -> x = 0.
Proof.
  unfold score. intros [Hnone | Hfresh] Hblank; [rewrite Hnone; discriminate |].
  rewrite Hfresh. simpl. intros [= <-].
  destruct Hblank as [Hq | Hc].
  - rewrite (blank_vector query Hq). apply EmptyText.cosine_empty_text.
  - rewrite (blank_vector (content m) Hc). apply EmptyText.cosine_empty_text.
Qed.

(** A blank query finds nothing. *)
Lemma search_blank (query : string) (limit : Z) (s : Mem0) :
  fresh_vectors s -> whitespace query = true ->
  search query limit s
  = if vectors_present s then Ret [] else Throw TypeError.
Proof.
  intros Hf Hq. destruct (vectors_present s) eqn:Hp;
    [| exact (search_throws query limit s Hp)].
  destruct (search_present query limit s Hp) as (hits & Hsearch & Hsound & _).
  rewrite Hsearch. destruct hits as [| h rest]; [reflexivity |]. exfalso.
  destruct (Hsound h (or_introl eq_refl)) as (Hin & _ & Hscore & Hpos).
  rewrite (score_blank query (memory h) (similarity h)
             (Hf _ _ Hin) (or_introl Hq) Hscore) in Hpos.
  discriminate.
Qed.

(** No search finds a record of blank content. *)
Lemma blank_hidden (query : string) (limit : Z) (s : Mem0) hits h :
  fresh_vectors s -> search query limit s = Ret hits -> In h hits ->
  whitespace (content (memory h)) = false.
Proof.
  intros Hf Hsearch Hh.
  pose proof (search_Ret_present _ _ _ _ Hsearch) as Hp.
  destruct (search_present query limit s Hp) as (hits' & Hsearch' & Hsound & _).
  rewrite Hsearch in Hsearch'. injection Hsearch' as <-.
  destruct (Hsound h Hh) as (Hin & _ & Hscore & Hpos).
  destruct (whitespace (content (memory h))) eqn:Hc; [| reflexivity].
  rewrite (score_blank query (memory h) (similarity h)
             (Hf _ _ Hin) (or_intror Hc) Hscore) in Hpos.
  discriminate.
Qed.

(** Blank content is never merged: [add] stores a new record. *)
Lemma add_blank (clk : Clock) (now : Z) (content0 : string)
    (props : obj value) (s : Mem0) :
  fresh_vectors s -> vectors_present s = true -> whitespace content0 = true ->
  add clk now content0 props s
  = (Ret ("mem_" ++ numeral (nextId s))%string,
     insert_record clk ("mem_" ++ numeral (nextId s))%string
       (set_embeddings (Some [])
          (Memory_new clk now ("mem_" ++ numeral (nextId s))%string
             content0 props (oget props "tags"%string)))
       (with_nextId (increment (nextId s)) s)).
Proof.
  intros Hf Hp Hc.
  rewrite (proj2 (add_decision clk now content0 props s Hp));
    [rewrite (blank_vector content0 Hc); reflexivity |].
  intros k m x Hin Hscore Hpos.
  rewrite (score_blank content0 m x (Hf _ _ Hin) (or_introl Hc) Hscore) in Hpos.
  discriminate.
Qed.

(** When a record has no vector, [add] throws the TypeError of its
    search: it stores nothing, and the counter has moved. *)
Lemma add_throws (clk : Clock) (now : Z) (content0 : string)
    (props : obj value) (s : Mem0) :
  vectors_present s = false ->
  add clk now content0 props s
  = (Throw TypeError, with_nextId (increment (nextId s)) s).
Proof.
  intro Hp. unfold add, findSimilar.
  rewrite (search_throws content0 1 (with_nextId (increment (nextId s)) s) Hp).
  reflexivity.
Qed.

(** X6.  In a store built without [import]: a query that is blank
    finds nothing when every record has a vector, and throws a
    TypeError otherwise, as every search then does; no search finds a
    record whose content is blank; and blank content is never merged:
    when every record has a vector, [add] stores it as a new record
    under the id that the counter gives, and when some record has none,
    [add] throws a TypeError and stores nothing. *)
Theorem blank_text (clk : Clock) (s : Mem0) :
  reachable clk false s ->
  (forall query limit,
      whitespace query = true ->
      search query limit s
      = if vectors_present s then Ret [] else Throw TypeError)
  /\ (forall query limit hits h,
        search query limit s = Ret hits -> In h hits ->
        whitespace (content (memory h)) = false)
  /\ (forall now content0 props,
        whitespace content0 = true ->
        add clk now content0 props s
        = if vectors_present s
          then (Ret ("mem_" ++ numeral (nextId s))%string,
                insert_record clk ("mem_" ++ numeral (nextId s))%string
                  (set_embeddings (Some [])
                     (Memory_new clk now ("mem_" ++ numeral (nextId s))%string
                        content0 props (oget props "tags"%string)))
                  (with_nextId (increment (nextId s)) s))
          else (Throw TypeError, with_nextId (increment (nextId s)) s)).
Proof.
  intro Hr. pose proof (reachable_fresh clk s Hr) as Hf.
  split; [| split].
  - intros query limit. apply search_blank. exact Hf.
  - intros query limit hits h. apply blank_hidden. exact Hf.
  - intros now content0 props Hc.
    destruct (vectors_present s) eqn:Hp;
      [apply add_blank; assumption | apply add_throws; exact Hp].
Qed.

(** The store of two records, a blank query and blank content. *)
Lemma blank_text_witness :
  search "  " 10 Example.two_records = Ret []
  /\ fst (add Example.clock 5000 " " [] Example.two_records)
     = Ret "mem_4"%string.
Proof.
  destruct (blank_text Example.clock Example.two_records) as (Hsearch & _ & Hadd).
  - unfold Example.two_records, Example.repaired, Example.merged,
      Example.one_record, Example.fresh.
    apply reach_add, reach_update, reach_add, reach_add, reach_new.
  - split.
    + exact (Hsearch "  "%string 10%Z ltac:(vm_compute; reflexivity)).
    + rewrite (Hadd 5000%Z " "%string [] ltac:(vm_compute; reflexivity)).
      reflexivity.
Defined.

(** After a merge the record [mem_1] has no vector: blank content is
    not stored, and the counter moves from 3 to 4. *)
Example blank_after_merge :
  vectors_present Example.merged = false
  /\ add Example.clock 3000 " " [] Example.merged
     = (Throw TypeError, with_nextId 4 Example.merged)
  /\ search " " 10 Example.merged = Throw TypeError.
Proof. repeat split; vm_compute; reflexivity. Qed.

End Blank.

(** ** A new record that is the oldest *)

Module Eviction.

Import SimpleEmbedding Store Props Conditions MapFacts Identity.

Lemma mdelete_absent (k : string) (ms : list (string * Memory)) :
  mget ms k = None -> mdelete k ms = ms.
Proof.
  unfold mdelete. induction ms as [| [k0 m0] r IH]; simpl; [reflexivity |].
  destruct (String.eqb k k0); [discriminate |]. simpl.
  intro H. rewrite (IH H). reflexivity.
Qed.

Lemma mdelete_last (k : string) (m : Memory) (ms : list (string * Memory)) :
  mget ms k = None -> mdelete k (ms ++ [(k, m)]) = ms.
Proof.
  intro H. unfold mdelete. rewrite filter_app. simpl.
  rewrite String.eqb_refl. simpl. rewrite app_nil_r.
  exact (mdelete_absent k ms H).
Qed.

Lemma keyed_keys_nonempty (s : Mem0) :
  keyed s -> keys_nonempty (memories s) = true.
Proof.
  intro Hk. unfold keys_nonempty. apply forallb_forall. intros [k m] Hin.
  destruct (Hk k m Hin) as (_ & n & _ & ->). reflexivity.
Qed.

Lemma time_of_new (clk : Clock) (now : Z) (id0 content0 : string)
    (props : obj value) (tagsOf : option value) (e : option embedding) :
  time_of clk (set_embeddings e (Memory_new clk now id0 content0 props tagsOf))
  = Date_getTime clk (stamp clk now props).
Proof.
  unfold time_of, stamp. simpl. rewrite oget_ospread. simpl.
  destruct (last_value props "timestamp"); reflexivity.
Qed.

(** In a store that is full, a record that [add] stores with a
    timestamp before every other is the one that is evicted: the id is
    returned, and the store is as it was. *)
Lemma add_evicts_new (clk : Clock) (now : Z) (content0 : string)
    (props : obj value) (s : Mem0) (t0 : Z) :
  keyed s ->
  (maxMemories (config s) <= size s)%Z ->
  fst (add clk now content0 props s) = Ret ("mem_" ++ numeral (nextId s))%string ->
  Date_getTime clk (stamp clk now props) = Some t0 ->
  (forall k m t, In (k, m) (memories s) -> time_of clk m = Some t -> (t0 < t)%Z) ->
  memories (snd (add clk now content0 props s)) = memories s
  /\ get ("mem_" ++ numeral (nextId s))%string (snd (add clk now content0 props s))
     = None.
Proof.
  intros Hk Hfull Hret Hstamp Holder.
  pose proof (fresh_id s Hk) as Hfresh.
  set (id0 := ("mem_" ++ numeral (nextId s))%string) in *.
  set (m0 := set_embeddings (Some (computeEmbedding content0))
               (Memory_new clk now id0 content0 props (oget props "tags"%string))).
  assert (Hinsert :
    memories (insert_record clk id0 m0 (with_nextId (increment (nextId s)) s)) = memories s).
  { unfold insert_record, size. cbn [memories config with_memories with_nextId].
    rewrite length_mset, Hfresh. unfold size in Hfull.
    destruct (maxMemories (config s) <? Z.of_nat (S (List.length (memories s))))%Z
      eqn:Hover; [| apply Z.ltb_ge in Hover; lia].
    rewrite (RoundTrip.mset_absent id0 m0 (memories s) Hfresh).
    assert (Ht0 : time_of clk m0 = Some t0)
      by (unfold m0; rewrite time_of_new; exact Hstamp).
    destruct (Capacity.evictOldest_removes_oldest clk
                (with_memories (memories s ++ [(id0, m0)])
                   (with_nextId (increment (nextId s)) s)))
      as (victim & mv & (Hin & t & Ht & Hmin) & ->).
    - cbn [memories with_memories].
      pose proof (keyed_keys_nonempty s Hk) as Hne. unfold keys_nonempty in *.
      rewrite forallb_app, Hne. reflexivity.
    - exists id0, m0. split; [| rewrite Ht0; discriminate].
      cbn [memories with_memories]. apply in_or_app. right. left. reflexivity.
    - cbn [memories with_memories] in *.
      apply in_app_or in Hin. destruct Hin as [Hin | [[= <- <-] | []]].
      + exfalso. specialize (Holder _ _ _ Hin Ht).
        specialize (Hmin id0 m0 t0 ltac:(apply in_or_app; right; left; reflexivity) Ht0).
        lia.
      + exact (mdelete_last id0 m0 (memories s) Hfresh). }
  assert (Hboth : forall s',
    memories s' = memories s ->
    memories s' = memories s /\ get id0 s' = None).
  { intros s' H. split; [exact H |]. unfold get. rewrite H. exact Hfresh. }
  revert Hret. unfold add. fold id0. fold m0.
  destruct (findSimilar content0 1 (with_nextId (increment (nextId s)) s))
    as [[| hit rest] | err] eqn:Hfind; cbn [fst snd]; try discriminate.
  - intros _. apply Hboth. exact Hinsert.
  - destruct (threshold (config (with_nextId (increment (nextId s)) s))
              <? similarity hit)%float; cbn [fst snd].
    + assert (Hin : In hit (hit :: rest)) by (left; reflexivity).
      destruct (Merge.search_In _ _ _ _ _ Hfind Hin) as (Hheld & _).
      simpl in Hheld. destruct (Hk _ _ Hheld) as (Hid & _).
      simpl id. rewrite Hid. intro Heq.
      assert (Href : ref hit = id0) by (inversion Heq; reflexivity).
      exfalso. apply (Merge.In_mget _ _ _ Hheld). rewrite Href. exact Hfresh.
    + intros _. apply Hboth. exact Hinsert.
Qed.

(** X7.  In a store built without [import] that is at its capacity
    and whose counter is below 2^53, a record that [add] stores with a
    timestamp before that of every other record is itself the one
    evicted: [add] returns the new id, no record is held under it, and
    the records are the ones held before. *)
Theorem oldest_new_record_evicted (clk : Clock) (now : Z) (content0 : string)
    (props : obj value) (s : Mem0) (t0 : Z) :
  reachable clk false s ->
  (nextId s < 9007199254740992)%Z ->
  (maxMemories (config s) <= size s)%Z ->
  fst (add clk now content0 props s) = Ret ("mem_" ++ numeral (nextId s))%string ->
  Date_getTime clk (stamp clk now props) = Some t0 ->
  (forall k m t, In (k, m) (memories s) -> time_of clk m = Some t -> (t0 < t)%Z) ->
  memories (snd (add clk now content0 props s)) = memories s
  /\ get ("mem_" ++ numeral (nextId s))%string (snd (add clk now content0 props s))
     = None.
Proof.
  intros Hr Hlt. apply add_evicts_new. exact (reachable_keyed clk s Hr Hlt).
Qed.

(** The store of capacity one that holds "apple pie" from the instant
    1000, and a record with the instant 5 in its metadata. *)
Lemma oldest_new_record_evicted_witness :
  fst (add Example.clock 2000 "car truck" [("timestamp", VStr "5")]%string
         Example.small_full) = Ret "mem_2"%string
  /\ memories (snd (add Example.clock 2000 "car truck"
                      [("timestamp", VStr "5")]%string Example.small_full))
     = memories Example.small_full
  /\ get "mem_2" (snd (add Example.clock 2000 "car truck"
                         [("timestamp", VStr "5")]%string Example.small_full))
     = None.
Proof.
  split; [vm_compute; reflexivity |].
  apply (oldest_new_record_evicted Example.clock 2000 "car truck"
           [("timestamp", VStr "5")]%string Example.small_full 5).
  - unfold Example.small_full, Example.small. apply reach_add, reach_new.
  - vm_compute. reflexivity.
  - vm_compute. discriminate.
  - vm_compute. reflexivity.
  - vm_compute. reflexivity.
  - intros k m t Hin Ht. vm_compute in Hin.
    destruct Hin as [[= <- <-] | []]. vm_compute in Ht.
    injection Ht as <-. lia.
Defined.

(** The pair that the loop of [evictOldest] ends with: nothing when no
    record carries a date, and otherwise the first of the records that
    carry the earliest date. *)
Lemma oldest_first (clk : Clock) (ms : list (string * Memory)) :
  (oldest clk ms = (None, None)
   /\ forall k m, In (k, m) ms -> time_of clk m = None)
  \/ exists l1 k m l2 t,
       oldest clk ms = (Some k, Some t)
       /\ ms = l1 ++ (k, m) :: l2 /\ time_of clk m = Some t
       /\ (forall k' m' t', In (k', m') l1 -> time_of clk m' = Some t' -> (t < t')%Z)
       /\ (forall k' m' t', In (k', m') l2 -> time_of clk m' = Some t' -> (t <= t')%Z).
Proof.
  induction ms as [| [k0 m0] r IH] using rev_ind.
  - left. split; [reflexivity | intros k m []].
  - unfold oldest in *. rewrite fold_left_app. cbn [fold_left].
    destruct IH as [[-> Hnone] | (l1 & k & m & l2 & t & -> & -> & Ht & H1 & H2)];
      unfold older; cbn [fst snd].
    + destruct (time_of clk m0) as [t0 |] eqn:Ht0.
      * right. exists r, k0, m0, [], t0.
        split; [reflexivity |]. split; [reflexivity |]. split; [exact Ht0 |].
        split; [| intros k' m' t' []].
        intros k' m' t' Hin Ht'. rewrite (Hnone _ _ Hin) in Ht'. discriminate.
      * left. split; [reflexivity |].
        intros k m Hin. apply in_app_or in Hin.
        destruct Hin as [Hin | [[= <- <-] | []]]; [exact (Hnone _ _ Hin) | exact Ht0].
    + destruct (time_of clk m0) as [t0 |] eqn:Ht0.
      * destruct (t0 <? t)%Z eqn:Hlt.
        -- apply Z.ltb_lt in Hlt. right.
           exists (l1 ++ (k, m) :: l2), k0, m0, [], t0.
           split; [reflexivity |]. split; [reflexivity |]. split; [exact Ht0 |].
           split; [| intros k' m' t' []].
           intros k' m' t' Hin Ht'. apply in_app_or in Hin.
           destruct Hin as [Hin | [[= <- <-] | Hin]].
           ++ specialize (H1 _ _ _ Hin Ht'). lia.
           ++ rewrite Ht in Ht'. injection Ht' as <-. exact Hlt.
           ++ specialize (H2 _ _ _ Hin Ht'). lia.
        -- apply Z.ltb_ge in Hlt. right.
           exists l1, k, m, (l2 ++ [(k0, m0)]), t.
           split; [reflexivity |]. split; [rewrite <- app_assoc; reflexivity |].
           split; [exact Ht |]. split; [exact H1 |].
           intros k' m' t' Hin Ht'. apply in_app_or in Hin.
           destruct Hin as [Hin | [[= <- <-] | []]].
           ++ exact (H2 _ _ _ Hin Ht').
           ++ rewrite Ht0 in Ht'. injection Ht' as <-. exact Hlt.
      * right. exists l1, k, m, (l2 ++ [(k0, m0)]), t.
        split; [reflexivity |]. split; [rewrite <- app_assoc; reflexivity |].
        split; [exact Ht |]. split; [exact H1 |].
        intros k' m' t' Hin Ht'. apply in_app_or in Hin.
        destruct Hin as [Hin | [[= <- <-] | []]].
        -- exact (H2 _ _ _ Hin Ht').
        -- rewrite Ht0 in Ht'. discriminate.
Qed.

(** X8.  On a store whose keys are strings: [evictOldest] leaves the
    store as it is when no record carries a date.  Otherwise it picks
    the first, in the order of the store, of the records that carry the
    earliest date: every record before it carries a later date or
    none.  It removes that record, unless its key is the empty string,
    the one string that the guard [if (oldestId)] takes as false. *)
Theorem evictOldest_first_of_oldest (clk : Clock) (s : Mem0) :
  ((forall k m, In (k, m) (memories s) -> time_of clk m = None) ->
   evictOldest clk s = s)
  /\ ((exists k m, In (k, m) (memories s) /\ time_of clk m <> None) ->
      exists l1 k m l2 t,
        memories s = l1 ++ (k, m) :: l2 /\ time_of clk m = Some t
        /\ (forall k' m' t',
              In (k', m') l1 -> time_of clk m' = Some t' -> (t < t')%Z)
        /\ (forall k' m' t',
              In (k', m') l2 -> time_of clk m' = Some t' -> (t <= t')%Z)
        /\ evictOldest clk s
           = if String.eqb k "" then s
             else with_memories (mdelete k (memories s)) s).
Proof.
  unfold evictOldest.
  destruct (oldest_first clk (memories s))
    as [[-> Hnone] | (l1 & k & m & l2 & t & -> & Hms & Ht & H1 & H2)]; cbn [fst].
  - split; [reflexivity |]. intros (k & m & Hin & Hd).
    contradiction (Hd (Hnone _ _ Hin)).
  - split.
    + intro Hnone. rewrite Hms in Hnone.
      rewrite (Hnone k m ltac:(apply in_or_app; right; left; reflexivity)) in Ht.
      discriminate.
    + intros _. exists l1, k, m, l2, t.
      split; [exact Hms |]. split; [exact Ht |]. split; [exact H1 |].
      split; [exact H2 | reflexivity].
Qed.

(** Two records of one instant and a later one: the first goes. *)
Lemma evictOldest_first_of_oldest_witness :
  exists l1 k m l2 t,
    memories Demo.same_instant = l1 ++ (k, m) :: l2
    /\ time_of Example.clock m = Some t
    /\ evictOldest Example.clock Demo.same_instant
       = if String.eqb k "" then Demo.same_instant
         else with_memories (mdelete k (memories Demo.same_instant))
                Demo.same_instant.
Proof.
  destruct (proj2 (evictOldest_first_of_oldest Example.clock Demo.same_instant))
    as (l1 & k & m & l2 & t & Hms & Ht & _ & _ & Hevict).
  - eexists. eexists. split; [vm_compute; left; reflexivity |].
    vm_compute. discriminate.
  - exists l1, k, m, l2, t. split; [exact Hms |]. split; [exact Ht | exact Hevict].
Defined.

(** In that store the record evicted is [mem_1]. *)
Example first_of_same_instant :
  map fst (memories Demo.same_instant) = ["mem_1"; "mem_2"; "mem_3"]%string
  /\ map fst (memories (evictOldest Example.clock Demo.same_instant))
     = ["mem_2"; "mem_3"]%string.
Proof. split; vm_compute; reflexivity. Qed.

End Eviction.

(** ** The expiry sweep and clear *)

Module Sweep.

Import SimpleEmbedding Store Conditions MapFacts.

(** X9.  The expiry sweep does nothing when [autoExpire] is off.  When
    it is on, the sweep keeps exactly the records that carry no date
    before the cutoff: a record whose timestamp is no date is never
    removed.  The sweep changes neither the configuration nor the
    counter, does not add a record, and a second sweep with the same
    cutoff changes nothing. *)
Theorem sweep_keeps (clk : Clock) (cutoff : Z) (s : Mem0) :
  (autoExpire (config s) = false -> cleanupExpired clk cutoff s = s)
  /\ (autoExpire (config s) = true ->
      (forall k m,
          In (k, m) (memories (cleanupExpired clk cutoff s))
          <-> In (k, m) (memories s)
              /\ forall t, time_of clk m = Some t -> (cutoff <= t)%Z)
      /\ (forall k m,
            In (k, m) (memories s) -> time_of clk m = None ->
            In (k, m) (memories (cleanupExpired clk cutoff s))))
  /\ config (cleanupExpired clk cutoff s) = config s
  /\ nextId (cleanupExpired clk cutoff s) = nextId s
  /\ (size (cleanupExpired clk cutoff s) <= size s)%Z
  /\ cleanupExpired clk cutoff (cleanupExpired clk cutoff s)
     = cleanupExpired clk cutoff s.
Proof.
  unfold cleanupExpired, size.
  destruct (autoExpire (config s)) eqn:Hauto; simpl negb; cbv iota.
  - split; [discriminate |]. split; [intros _; split |].
    + intros k m. simpl memories. rewrite filter_In. simpl snd.
      split; intros [Hin Ht]; (split; [exact Hin |]).
      * intros t Hm. rewrite Hm in Ht. apply negb_true_iff, Z.ltb_ge in Ht. exact Ht.
      * destruct (time_of clk m) as [t |]; [| reflexivity].
        apply negb_true_iff, Z.ltb_ge. apply Ht. reflexivity.
    + intros k m Hin Hm. simpl memories. apply filter_In. split; [exact Hin |].
      simpl snd. rewrite Hm. reflexivity.
    + split; [reflexivity |]. split; [reflexivity |]. split.
      * simpl memories. pose proof (filter_length_le
          (fun entry => match time_of clk (snd entry) with
                        | Some t => negb (t <? cutoff)%Z
                        | None => true
                        end) (memories s)). lia.
      * simpl config. rewrite Hauto. simpl negb. cbv iota.
        unfold with_memories. simpl. f_equal.
        induction (memories s) as [| [k m] r IH]; simpl; [reflexivity |].
        destruct (match time_of clk m with
                  | Some t => negb (t <? cutoff)%Z
                  | None => true
                  end) eqn:Hkeep; simpl; [rewrite Hkeep, IH; reflexivity | exact IH].
  - split; [reflexivity |]. split; [discriminate |].
    split; [reflexivity |]. split; [reflexivity |]. split; [lia |].
    rewrite Hauto. reflexivity.
Qed.

(** The store that expires records, swept with the cutoff 3000. *)
Lemma sweep_keeps_witness :
  exists m,
    In ("mem_2"%string, m) (memories (cleanupExpired Example.clock 3000 Demo.expiring)).
Proof.
  destruct (sweep_keeps Example.clock 3000 Demo.expiring) as (_ & Hon & _).
  destruct (Hon ltac:(vm_compute; reflexivity)) as (Hiff & _).
  destruct (get "mem_2" Demo.expiring) as [m |] eqn:Hget;
    [| vm_compute in Hget; discriminate].
  exists m.
  refine (proj2 (Hiff "mem_2"%string m) (conj (mget_In _ _ _ Hget) _)).
  intros t Ht. vm_compute in Hget. injection Hget as <-.
  vm_compute in Ht. injection Ht as <-. lia.
Defined.

(** X10.  After [clear] the store is empty, with its configuration, and
    the counter is back at 1: no id names a record, a search finds
    nothing, and the next [add] returns [mem_1] again, whatever ids
    were returned before; with a capacity of 1 at least, the store then
    holds that one record. *)
Theorem clear_restarts (clk : Clock) (now : Z) (content0 : string)
    (props : obj value) (s : Mem0) :
  memories (clear s) = [] /\ nextId (clear s) = 1%Z
  /\ config (clear s) = config s
  /\ (forall k, get k (clear s) = None)
  /\ (forall query limit, search query limit (clear s) = Ret [])
  /\ fst (add clk now content0 props (clear s)) = Ret "mem_1"%string
  /\ ((1 <= maxMemories (config s))%Z ->
      exists m,
        memories (snd (add clk now content0 props (clear s)))
          = [("mem_1"%string, m)]
        /\ id m = "mem_1"%string /\ content m = content0).
Proof.
  split; [reflexivity |]. split; [reflexivity |]. split; [reflexivity |].
  split; [reflexivity |]. split.
  - intros query limit. unfold search, slice0. simpl.
    destruct (limit <? 0)%Z; rewrite firstn_nil; reflexivity.
  - split; [reflexivity |]. intro Hroom.
    unfold add, findSimilar, search, clear. simpl scan. cbv iota.
    unfold insert_record, size. simpl.
    destruct (maxMemories (config s) <? 1)%Z eqn:Hfull;
      [apply Z.ltb_lt in Hfull; lia |].
    eexists. split; [reflexivity |]. split; reflexivity.
Qed.

(** A record added after the store of two records is cleared. *)
Lemma clear_restarts_witness :
  exists m,
    memories (snd (add Example.clock 9000 "again" [] (clear Example.two_records)))
      = [("mem_1"%string, m)]
    /\ content m = "again"%string.
Proof.
  destruct (clear_restarts Example.clock 9000 "again" [] Example.two_records)
    as (_ & _ & _ & _ & _ & _ & Hone).
  destruct (Hone ltac:(vm_compute; discriminate)) as (m & Hm & _ & Hc).
  exists m. split; [exact Hm | exact Hc].
Defined.

End Sweep.

(** ** Queries by date *)

Module Dates.

Import SimpleEmbedding Store Queries Conditions Sorting.

(** The instant of a record, for the records that carry one. *)
Lemma later_key (clk : Clock) (a b : Memory) :
  time_of clk a <> None -> time_of clk b <> None ->
  later clk a b
  = (match time_of clk a with Some t => t | None => 0 end
     <? match time_of clk b with Some t => t | None => 0 end)%Z.
Proof.
  unfold later. destruct (time_of clk a), (time_of clk b); intros Ha Hb;
    try contradiction; reflexivity.
Qed.

(** Sorting dated records by [later] puts the newest first and keeps
    the order of the records of one instant. *)
Lemma sort_dated (clk : Clock) (l : list Memory) :
  Forall (fun m => time_of clk m <> None) l ->
  StronglySorted (newest_first clk) (sort_by (later clk) l)
  /\ forall t,
       filter (at_instant clk t) (sort_by (later clk) l)
       = filter (at_instant clk t) l.
Proof.
  intro Hl. split.
  - apply (StronglySorted_weaken
             (fun a b => (match time_of clk b with Some t => t | None => 0 end
                          <= match time_of clk a with Some t => t | None => 0 end)%Z)
             _ (fun m => time_of clk m <> None)).
    + intros a b Ha Hb Hab. unfold newest_first.
      destruct (time_of clk a), (time_of clk b); try contradiction; exact Hab.
    + apply Forall_sort_by. exact Hl.
    + apply (sort_by_sorted _ _ (fun m => time_of clk m <> None)); [| exact Hl].
      intros x y. apply later_key.
  - intro t.
    assert (Hext : forall l' : list Memory,
               Forall (fun m => time_of clk m <> None) l' ->
               filter (at_instant clk t) l'
               = filter (fun m => (match time_of clk m with Some t' => t' | None => 0 end
                                   =? t)%Z) l').
    { intros l' Hl'. apply filter_ext_in. intros m Hm.
      rewrite Forall_forall in Hl'. specialize (Hl' m Hm).
      unfold at_instant. destruct (time_of clk m); [reflexivity | contradiction]. }
    rewrite (Hext _ (Forall_sort_by _ _ _ Hl)), (Hext _ Hl).
    apply (sort_by_stable _ _ (fun m => time_of clk m <> None)); [| exact Hl].
    intros x y. apply later_key.
Qed.

Lemma in_range_spec (start end_ memoryDate : option Z) :
  in_range start end_ memoryDate = true
  <-> exists t a b,
        memoryDate = Some t /\ start = Some a /\ end_ = Some b
        /\ (a <= t <= b)%Z.
Proof.
  unfold in_range. destruct memoryDate as [t |], start as [a |], end_ as [b |];
    split; try discriminate;
    try (intros (t' & a' & b' & H1 & H2 & H3 & _); discriminate).
  - intro H. apply andb_prop in H. destruct H as [H1 H2].
    apply Z.leb_le in H1, H2. exists t, a, b. repeat split; assumption.
  - intros (t' & a' & b' & [= <-] & [= <-] & [= <-] & H1 & H2).
    apply andb_true_intro. split; apply Z.leb_le; assumption.
Qed.

(** X11.  [getByDateRange] returns exactly the records whose timestamp
    is a date from the start to the end, both included; the newest
    comes first, and records of one instant keep the order of the
    store.  It returns nothing when a bound is no date, and what
    [getAll] returns when every record is in the range. *)
Theorem getByDateRange_results (clk : Clock) (startDate endDate : value) (s : Mem0) :
  (forall m,
      In m (getByDateRange clk startDate endDate s)
      <-> (exists k, In (k, m) (memories s))
          /\ exists t a b,
               time_of clk m = Some t
               /\ Date_getTime clk startDate = Some a
               /\ Date_getTime clk endDate = Some b
               /\ (a <= t <= b)%Z)
  /\ StronglySorted (newest_first clk) (getByDateRange clk startDate endDate s)
  /\ (forall t,
        filter (at_instant clk t) (getByDateRange clk startDate endDate s)
        = filter (at_instant clk t)
            (map snd
               (filter
                  (fun entry =>
                     in_range (Date_getTime clk startDate)
                       (Date_getTime clk endDate) (time_of clk (snd entry)))
                  (memories s))))
  /\ (List.length (getByDateRange clk startDate endDate s)
      <= List.length (memories s))%nat
  /\ (Date_getTime clk startDate = None \/ Date_getTime clk endDate = None ->
      getByDateRange clk startDate endDate s = [])
  /\ ((forall k m,
         In (k, m) (memories s) ->
         in_range (Date_getTime clk startDate) (Date_getTime clk endDate)
           (time_of clk m) = true) ->
      getByDateRange clk startDate endDate s = getAll clk s).
Proof.
  unfold getByDateRange.
  set (f := fun entry : string * Memory =>
              in_range (Date_getTime clk startDate) (Date_getTime clk endDate)
                (time_of clk (snd entry))).
  assert (Hdated : Forall (fun m => time_of clk m <> None)
                     (map snd (filter f (memories s)))).
  { apply Forall_forall. intros m Hm. apply in_map_iff in Hm.
    destruct Hm as ([k m'] & <- & Hin). apply filter_In in Hin.
    destruct Hin as [_ Hf]. unfold f in Hf. apply in_range_spec in Hf.
    destruct Hf as (t & a & b & -> & _). discriminate. }
  split; [| split; [| split; [| split; [| split]]]].
  - intro m. rewrite sort_by_In, in_map_iff. split.
    + intros ([k m'] & <- & Hin). apply filter_In in Hin. destruct Hin as [Hin Hf].
      split; [exists k; exact Hin |]. apply in_range_spec. exact Hf.
    + intros ((k & Hin) & Hr). exists (k, m). split; [reflexivity |].
      apply filter_In. split; [exact Hin |]. apply in_range_spec. exact Hr.
  - apply sort_dated. exact Hdated.
  - intro t. apply sort_dated. exact Hdated.
  - rewrite sort_by_length, length_map.
    apply filter_length_le.
  - intro Hbound.
    assert (Hnone : filter f (memories s) = []).
    { unfold f. clear Hdated. induction (memories s) as [| e r IH]; [reflexivity |].
      cbn [filter]. rewrite IH.
      destruct Hbound as [-> | ->]; unfold in_range;
        destruct (time_of clk (snd e)); try reflexivity;
        destruct (Date_getTime clk startDate); reflexivity. }
    rewrite Hnone. reflexivity.
  - intro Hall. unfold getAll. f_equal. f_equal. clear Hdated.
    induction (memories s) as [| [k m] r IH]; [reflexivity |].
    cbn [filter]. unfold f at 1. cbn [snd].
    rewrite (Hall k m (or_introl eq_refl)).
    rewrite IH; [reflexivity |].
    intros k' m' Hin. apply (Hall k' m'). right. exact Hin.
Qed.

(** The demonstration, asked for a range whose start is no date. *)
Lemma getByDateRange_results_witness :
  getByDateRange Example.clock (VStr "soon") (VStr "30") Demo.returned = [].
Proof.
  apply (getByDateRange_results Example.clock (VStr "soon") (VStr "30")
           Demo.returned).
  left. vm_compute. reflexivity.
Defined.

(** X12.  [getAll] returns the records of the store, each once.  When
    every record carries a date, the newest comes first and records of
    one instant keep the order of the store. *)
Theorem getAll_results (clk : Clock) (s : Mem0) :
  Permutation (getAll clk s) (map snd (memories s))
  /\ (all_dated clk s = true ->
      StronglySorted (newest_first clk) (getAll clk s)
      /\ forall t,
           filter (at_instant clk t) (getAll clk s)
           = filter (at_instant clk t) (map snd (memories s))).
Proof.
  unfold getAll. split; [apply sort_by_perm |].
  intro Hd. apply sort_dated.
  apply Forall_forall. intros m Hm. apply in_map_iff in Hm.
  destruct Hm as ([k m'] & <- & Hin).
  unfold all_dated in Hd. rewrite forallb_forall in Hd.
  specialize (Hd _ Hin). simpl in *. destruct (time_of clk m'); [discriminate | discriminate].
Qed.

(** The records of the demonstration, newest first. *)
Lemma getAll_results_witness :
  StronglySorted (newest_first Example.clock) (getAll Example.clock Demo.returned).
Proof.
  apply (proj2 (getAll_results Example.clock Demo.returned)).
  vm_compute. reflexivity.
Defined.

End Dates.

(** ** Tags *)

Module TagFacts.

Import SimpleEmbedding Store Tags Queries Conditions.

Lemma is_tag_spec (tag : string) (x : value) :
  is_tag tag x = true <-> x = VStr tag.
Proof.
  destruct x; simpl; split; try discriminate.
  - intro H. apply String.eqb_eq in H. subst. reflexivity.
  - intros [= ->]. apply String.eqb_refl.
Qed.

Lemma filter_absent (tag : string) (l : list value) :
  existsb (is_tag tag) l = false ->
  filter (fun t => negb (is_tag tag t)) l = l.
Proof.
  induction l as [| x r IH]; simpl; [reflexivity |].
  intro H. apply orb_false_iff in H. destruct H as [Hx Hr].
  rewrite Hx. simpl. rewrite (IH Hr). reflexivity.
Qed.

Lemma existsb_filter_tag (tag : string) (l : list value) :
  existsb (is_tag tag) (filter (fun t => negb (is_tag tag t)) l) = false.
Proof.
  induction l as [| x r IH]; simpl; [reflexivity |].
  destruct (is_tag tag x) eqn:Hx; simpl; [exact IH |].
  rewrite Hx, IH. reflexivity.
Qed.

(** [addTag] on an array. *)
Lemma addTag_array (tag : string) (l : list value) :
  exists l',
    addTag tag (VArr l) = Ret (VArr l')
    /\ l' = (if existsb (is_tag tag) l then l else l ++ [VStr tag])
    /\ includes (VArr l') tag = Ret true
    /\ addTag tag (VArr l') = Ret (VArr l')
    /\ (forall x, In x l' <-> In x l \/ x = VStr tag)
    /\ removeTag tag (VArr l') = removeTag tag (VArr l).
Proof.
  unfold addTag, includes, removeTag.
  destruct (existsb (is_tag tag) l) eqn:Hin.
  - exists l. rewrite Hin. repeat split; try reflexivity.
    + intro H. left. exact H.
    + intros [H | ->]; [exact H |].
      apply existsb_exists in Hin. destruct Hin as (x & Hx & Ht).
      apply is_tag_spec in Ht. subst. exact Hx.
  - exists (l ++ [VStr tag]).
    assert (Hnew : existsb (is_tag tag) (l ++ [VStr tag]) = true).
    { rewrite existsb_app. simpl. rewrite String.eqb_refl.
      rewrite orb_true_r. reflexivity. }
    rewrite Hnew. repeat split; try reflexivity.
    + intro H. apply in_app_or in H. destruct H as [H | [<- | []]];
        [left; exact H | right; reflexivity].
    + intros [H | ->]; apply in_or_app; [left; exact H | right; left; reflexivity].
    + rewrite filter_app. simpl. rewrite String.eqb_refl. simpl.
      rewrite app_nil_r. reflexivity.
Qed.

(** [removeTag] on an array. *)
Lemma removeTag_array (tag : string) (l : list value) :
  exists l',
    removeTag tag (VArr l) = Ret (VArr l')
    /\ includes (VArr l') tag = Ret false
    /\ (forall x, In x l' <-> In x l /\ x <> VStr tag)
    /\ removeTag tag (VArr l') = Ret (VArr l')
    /\ (includes (VArr l) tag = Ret false -> l' = l)
    /\ (includes (VArr l) tag = Ret false ->
        exists l2, addTag tag (VArr l) = Ret (VArr l2)
                   /\ removeTag tag (VArr l2) = Ret (VArr l)).
Proof.
  unfold removeTag, includes, addTag.
  exists (filter (fun t => negb (is_tag tag t)) l).
  split; [reflexivity |]. split; [rewrite existsb_filter_tag; reflexivity |].
  split; [| split; [| split]].
  - intro x. rewrite filter_In. split; intros [Hin Hx]; (split; [exact Hin |]).
    + intros ->. simpl in Hx. rewrite String.eqb_refl in Hx. discriminate.
    + apply negb_true_iff. destruct (is_tag tag x) eqn:Ht; [| reflexivity].
      apply is_tag_spec in Ht. contradiction.
  - rewrite (filter_absent tag _ (existsb_filter_tag tag l)). reflexivity.
  - intros [= H]. exact (filter_absent tag l H).
  - intros [= H]. exists (l ++ [VStr tag]). unfold includes. rewrite H.
    split; [reflexivity |].
    rewrite filter_app. simpl. rewrite String.eqb_refl. simpl.
    rewrite app_nil_r, (filter_absent tag l H). reflexivity.
Qed.

(** X13.  [addTag] on an array of tags: afterwards the array includes
    the tag, once more than before if it did not include it and as
    before if it did; the other tags stay, in their order; a second
    call changes nothing.  On a string of tags the call does nothing
    when the tag occurs in the string and throws a TypeError when it
    does not; on any other value it throws a TypeError. *)
Theorem addTag_adds_once (tag : string) :
  (forall l, exists l',
      addTag tag (VArr l) = Ret (VArr l')
      /\ l' = (if existsb (is_tag tag) l then l else l ++ [VStr tag])
      /\ includes (VArr l') tag = Ret true
      /\ addTag tag (VArr l') = Ret (VArr l')
      /\ (forall x, In x l' <-> In x l \/ x = VStr tag))
  /\ (forall v,
        match v with
        | VArr _ => True
        | VStr str =>
            addTag tag v = if occurs tag str then Ret v else Throw TypeError
        | _ => addTag tag v = Throw TypeError
        end).
Proof.
  split.
  - intro l. destruct (addTag_array tag l) as (l' & H1 & H2 & H3 & H4 & H5 & _).
    exists l'. split; [exact H1 |]. split; [exact H2 |]. split; [exact H3 |].
    split; [exact H4 | exact H5].
  - intros [| b | n | x | str | l | o]; try reflexivity; exact I.
Qed.

(** X14.  [removeTag] on an array of tags removes every occurrence of
    the tag and keeps the other tags; a second call changes nothing; a
    tag that the array does not include leaves the array as it is, and
    [removeTag] then undoes [addTag]; after [addTag] it leaves what it
    leaves without.  On a value that is no array it throws a
    TypeError. *)
Theorem removeTag_removes_all (tag : string) :
  (forall l, exists l',
      removeTag tag (VArr l) = Ret (VArr l')
      /\ includes (VArr l') tag = Ret false
      /\ (forall x, In x l' <-> In x l /\ x <> VStr tag)
      /\ removeTag tag (VArr l') = Ret (VArr l'))
  /\ (forall l,
        includes (VArr l) tag = Ret false ->
        removeTag tag (VArr l) = Ret (VArr l)
        /\ exists l2, addTag tag (VArr l) = Ret (VArr l2)
                      /\ removeTag tag (VArr l2) = Ret (VArr l))
  /\ (forall l, exists l1,
        addTag tag (VArr l) = Ret (VArr l1)
        /\ removeTag tag (VArr l1) = removeTag tag (VArr l))
  /\ (forall v,
        match v with
        | VArr _ => True
        | _ => removeTag tag v = Throw TypeError
        end).
Proof.
  split; [| split; [| split]].
  - intro l. destruct (removeTag_array tag l) as (l' & H1 & H2 & H3 & H4 & _).
    exists l'. split; [exact H1 |]. split; [exact H2 |]. split; [exact H3 | exact H4].
  - intros l Hl. destruct (removeTag_array tag l) as (l' & H1 & _ & _ & _ & H5 & H6).
    split; [rewrite H1, (H5 Hl); reflexivity | exact (H6 Hl)].
  - intro l. destruct (addTag_array tag l) as (l' & H1 & _ & _ & _ & _ & H6).
    exists l'. split; assumption.
  - intros [| b | n | x | str | l | o]; try reflexivity; exact I.
Qed.

(** The tag "b" added to the tags ["a"] and removed again. *)
Lemma removeTag_removes_all_witness :
  exists l2,
    addTag "b" (VArr [VStr "a"]) = Ret (VArr l2)
    /\ removeTag "b" (VArr l2) = Ret (VArr [VStr "a"]).
Proof.
  apply (proj1 (proj2 (removeTag_removes_all "b")) [VStr "a"]).
  reflexivity.
Defined.

(** The tests of [searchByTags] on a record whose tags are listed. *)
Lemma includes_listed (m : Memory) (tag : string) :
  listed_tags m = true ->
  includes (or_empty_array (Some (tags m))) tag = Ret (has_tag m tag).
Proof.
  unfold listed_tags, has_tag, includes.
  destruct (or_empty_array (Some (tags m))); try discriminate; reflexivity.
Qed.

Lemma every_listed (m : Memory) (tags0 : list string) :
  listed_tags m = true ->
  every (or_empty_array (Some (tags m))) tags0 = Ret (forallb (has_tag m) tags0).
Proof.
  intro Hm. induction tags0 as [| tag r IH]; cbn [every forallb]; [reflexivity |].
  rewrite (includes_listed m tag Hm). destruct (has_tag m tag); [exact IH | reflexivity].
Qed.

Lemma some_listed (m : Memory) (tags0 : list string) :
  listed_tags m = true ->
  some (or_empty_array (Some (tags m))) tags0 = Ret (existsb (has_tag m) tags0).
Proof.
  intro Hm. induction tags0 as [| tag r IH]; cbn [some existsb]; [reflexivity |].
  rewrite (includes_listed m tag Hm). destruct (has_tag m tag); [reflexivity | exact IH].
Qed.

(** [searchByTags] on records whose tags are listed: the records that
    carry every tag, or some tag, in the order of the store. *)
Lemma tagged_listed (tags0 : list string) (matchAll : bool)
    (ms : list (string * Memory)) :
  forallb (fun entry => listed_tags (snd entry)) ms = true ->
  tagged tags0 matchAll ms
  = Ret (map snd
           (filter
              (fun entry =>
                 if matchAll then forallb (has_tag (snd entry)) tags0
                 else existsb (has_tag (snd entry)) tags0)
              ms)).
Proof.
  induction ms as [| [k m] r IH]; cbn [tagged forallb filter map snd]; intro H;
    [reflexivity |].
  apply andb_prop in H. destruct H as [Hm Hr]. rewrite (IH Hr).
  destruct matchAll.
  - rewrite (every_listed m tags0 Hm). destruct (forallb (has_tag m) tags0); reflexivity.
  - rewrite (some_listed m tags0 Hm). destruct (existsb (has_tag m) tags0); reflexivity.
Qed.

(** Without a tag to look for, no test is made. *)
Lemma tagged_nil (matchAll : bool) (ms : list (string * Memory)) :
  tagged [] matchAll ms = Ret (if matchAll then map snd ms else []).
Proof.
  induction ms as [| [k m] r IH]; simpl; [destruct matchAll; reflexivity |].
  rewrite IH. destruct matchAll; reflexivity.
Qed.

(** A record whose tags are neither listed nor falsy makes the search
    for a tag throw. *)
Lemma tagged_throws (tag : string) (rest : list string) (matchAll : bool)
    (ms : list (string * Memory)) :
  forallb (fun entry => listed_tags (snd entry)) ms = false ->
  tagged (tag :: rest) matchAll ms = Throw TypeError.
Proof.
  induction ms as [| [k m] r IH]; cbn [tagged forallb snd every some];
    [discriminate |].
  intro H. apply andb_false_iff in H.
  destruct (listed_tags m) eqn:Hm.
  - destruct H as [H | H]; [discriminate |]. rewrite (IH H).
    rewrite (includes_listed m tag Hm).
    destruct matchAll.
    + destruct (has_tag m tag); [| reflexivity].
      rewrite (every_listed m rest Hm). reflexivity.
    + destruct (has_tag m tag); [reflexivity |].
      rewrite (some_listed m rest Hm). reflexivity.
  - unfold listed_tags in Hm. unfold includes.
    destruct (or_empty_array (Some (tags m))); try discriminate;
      destruct matchAll; reflexivity.
Qed.

(** Records with the same ids and tags are found by the same searches. *)
Lemma tagged_same (tags0 : list string) (matchAll : bool) :
  forall ms ms',
    Forall2 (fun e e' => tags (snd e) = tags (snd e') /\ id (snd e) = id (snd e'))
      ms ms' ->
    match tagged tags0 matchAll ms with
    | Ret l =>
        exists l', tagged tags0 matchAll ms' = Ret l'
                   /\ map id l' = map id l /\ map tags l' = map tags l
    | Throw err => tagged tags0 matchAll ms' = Throw err
    end.
Proof.
  induction 1 as [| [k m] [k' m'] r r' [Ht Hi] _ IH]; cbn [tagged].
  - exists []. repeat split.
  - simpl in Ht, Hi. rewrite <- Ht.
    destruct (if matchAll
              then every (or_empty_array (Some (tags m))) tags0
              else some (or_empty_array (Some (tags m))) tags0)
      as [matches | err]; [| reflexivity].
    destruct (tagged tags0 matchAll r) as [l | err]; [| rewrite IH; reflexivity].
    destruct IH as (l' & -> & Hid & Htags).
    eexists. split; [reflexivity |].
    destruct matches; simpl; rewrite ?Hid, ?Htags, ?Ht, ?Hi; split; reflexivity.
Qed.

Lemma Forall2_same (ms : list (string * Memory)) :
  Forall2 (fun e e' => tags (snd e) = tags (snd e') /\ id (snd e) = id (snd e'))
    ms ms.
Proof. induction ms; constructor; [split; reflexivity | assumption]. Qed.

Lemma mset_same_tags (k : string) (m' : Memory) (ms : list (string * Memory)) :
  forall m, mget ms k = Some m -> tags m' = tags m -> id m' = id m ->
  Forall2 (fun e e' => tags (snd e) = tags (snd e') /\ id (snd e) = id (snd e'))
    ms (mset k m' ms).
Proof.
  induction ms as [| [k0 m0] r IH]; simpl; intros m Hget Ht Hi; [discriminate |].
  destruct (String.eqb k k0).
  - injection Hget as <-. constructor; [split; symmetry; assumption | apply Forall2_same].
  - constructor; [split; reflexivity | exact (IH m Hget Ht Hi)].
Qed.

(** X15.  [searchByTags] on a store in which the tags of every record
    are an array, a string or a falsy value: it returns, in the order
    of the store, the records that carry every tag asked for, or some
    tag asked for; a string of tags carries the tags that occur in it.
    Asked for no tag, it returns every record, or none, whatever the
    tags are.  Asked for a tag in a store where the tags of some record
    are anything else, it throws a TypeError. *)
Theorem searchByTags_results (tags0 : list string) (matchAll : bool) (s : Mem0) :
  (tags_listed s = true ->
   searchByTags tags0 matchAll s
   = Ret (map snd
            (filter
               (fun entry =>
                  if matchAll then forallb (has_tag (snd entry)) tags0
                  else existsb (has_tag (snd entry)) tags0)
               (memories s))))
  /\ searchByTags [] matchAll s
     = Ret (if matchAll then map snd (memories s) else [])
  /\ (tags_listed s = false ->
      forall tag rest,
        searchByTags (tag :: rest) matchAll s = Throw TypeError).
Proof.
  unfold searchByTags, tags_listed. split; [| split].
  - apply tagged_listed.
  - apply tagged_nil.
  - intros H tag rest. apply tagged_throws. exact H.
Qed.

(** The records of the demonstration that carry the tag "food". *)
Lemma searchByTags_results_witness :
  exists l,
    searchByTags ["food"%string] false Demo.returned = Ret l
    /\ map id l = ["mem_1"; "mem_3"]%string.
Proof.
  eexists. split.
  - apply (proj1 (searchByTags_results ["food"%string] false Demo.returned)).
    vm_compute. reflexivity.
  - vm_compute. reflexivity.
Defined.

(** X16.  [update] does not change what [searchByTags] finds: the tags
    that a search tests are the ones that the record was made with,
    and tags in the metadata of [update] do not replace them. *)
Theorem update_keeps_tags (clk : Clock) (now : Z) (k content0 : string)
    (props : obj value) (s : Mem0) (tags0 : list string) (matchAll : bool) :
  match searchByTags tags0 matchAll s with
  | Ret l =>
      exists l',
        searchByTags tags0 matchAll (snd (update clk now k content0 props s))
          = Ret l'
        /\ map id l' = map id l /\ map tags l' = map tags l
  | Throw err =>
      searchByTags tags0 matchAll (snd (update clk now k content0 props s))
        = Throw err
  end.
Proof.
  unfold searchByTags. apply tagged_same. unfold update.
  destruct (mget (memories s) k) as [m |] eqn:Hget; cbn [snd memories with_memories];
    [| apply Forall2_same].
  apply (mset_same_tags k _ (memories s) m Hget); reflexivity.
Qed.

(** In the demonstration, [update] is given the tag "italian", and a
    search for that tag finds nothing. *)
Example italian_not_found :
  searchByTags ["italian"%string] false Demo.returned = Ret []
  /\ option_map (fun m => oget (metadata m) "tags") (get "mem_1" Demo.returned)
     = Some (Some (VArr [VStr "food"; VStr "preferences"; VStr "italian"]))
  /\ option_map tags (get "mem_1" Demo.returned)
     = Some (VArr [VStr "food"; VStr "preferences"]).
Proof. repeat split; vm_compute; reflexivity. Qed.

End TagFacts.

(** ** Statistics *)

Module Statistics.

Import SimpleEmbedding Store Queries Conditions.

Lemma fold_earlier_None (r : list (option Z)) : fold_left earlier r None = None.
Proof. induction r as [| a r IH]; simpl; [reflexivity | exact IH]. Qed.

Lemma fold_latest_None (r : list (option Z)) : fold_left latest r None = None.
Proof. induction r as [| a r IH]; simpl; [reflexivity | exact IH]. Qed.

(** One argument that is NaN makes the minimum and the maximum NaN. *)
Lemma fold_earlier_undated (r : list (option Z)) : forall a,
  In None r -> fold_left earlier r a = None.
Proof.
  induction r as [| b r IH]; intros a Hin; [contradiction |].
  simpl. destruct Hin as [-> | Hin]; [| exact (IH _ Hin)].
  destruct a; simpl; apply fold_earlier_None.
Qed.

Lemma fold_latest_undated (r : list (option Z)) : forall a,
  In None r -> fold_left latest r a = None.
Proof.
  induction r as [| b r IH]; intros a Hin; [contradiction |].
  simpl. destruct Hin as [-> | Hin]; [| exact (IH _ Hin)].
  destruct a; simpl; apply fold_latest_None.
Qed.

(** The minimum of dates is a lower bound that is attained. *)
Lemma fold_earlier_dated (r : list (option Z)) : forall t,
  ~ In None r ->
  exists lo,
    fold_left earlier r (Some t) = Some lo
    /\ (lo <= t)%Z /\ (forall t', In (Some t') r -> (lo <= t')%Z)
    /\ (lo = t \/ In (Some lo) r).
Proof.
  induction r as [| [b |] r IH]; intros t Hnone; simpl.
  - exists t. split; [reflexivity |]. split; [lia |].
    split; [intros t' [] | left; reflexivity].
  - destruct (IH (Z.min t b) (fun H => Hnone (or_intror H)))
      as (lo & Hfold & Hle & Hall & Hatt).
    exists lo. split; [exact Hfold |]. split; [lia |]. split.
    + intros t' [[= <-] | Hin]; [lia | exact (Hall t' Hin)].
    + destruct Hatt as [-> | Hin]; [| right; right; exact Hin].
      destruct (Z.min_spec t b) as [[_ ->] | [_ ->]];
        [left; reflexivity | right; left; reflexivity].
  - contradiction Hnone. left. reflexivity.
Qed.

Lemma fold_latest_dated (r : list (option Z)) : forall t,
  ~ In None r ->
  exists hi,
    fold_left latest r (Some t) = Some hi
    /\ (t <= hi)%Z /\ (forall t', In (Some t') r -> (t' <= hi)%Z)
    /\ (hi = t \/ In (Some hi) r).
Proof.
  induction r as [| [b |] r IH]; intros t Hnone; simpl.
  - exists t. split; [reflexivity |]. split; [lia |].
    split; [intros t' [] | left; reflexivity].
  - destruct (IH (Z.max t b) (fun H => Hnone (or_intror H)))
      as (hi & Hfold & Hle & Hall & Hatt).
    exists hi. split; [exact Hfold |]. split; [lia |]. split.
    + intros t' [[= <-] | Hin]; [lia | exact (Hall t' Hin)].
    + destruct Hatt as [-> | Hin]; [| right; right; exact Hin].
      destruct (Z.max_spec t b) as [[_ ->] | [_ ->]];
        [right; left; reflexivity | left; reflexivity].
  - contradiction Hnone. left. reflexivity.
Qed.

Lemma dates_In (clk : Clock) (ms : list (string * Memory)) (d : option Z) :
  In d (map (time_of clk) (map snd ms))
  <-> exists k m, In (k, m) ms /\ time_of clk m = d.
Proof.
  rewrite map_map, in_map_iff. split.
  - intros ([k m] & Hd & Hin). exists k, m. split; assumption.
  - intros (k & m & Hin & Hd). exists (k, m). split; assumption.
Qed.

Lemma all_dated_spec (clk : Clock) (s : Mem0) :
  all_dated clk s = true
  <-> ~ In None (map (time_of clk) (map snd (memories s))).
Proof.
  unfold all_dated. rewrite forallb_forall, dates_In. split.
  - intros H (k & m & Hin & Hd). specialize (H _ Hin). simpl in H.
    rewrite Hd in H. discriminate.
  - intros H [k m] Hin. simpl. destruct (time_of clk m) eqn:Hd; [reflexivity |].
    contradiction H. exists k, m. split; assumption.
Qed.

Lemma undated_record (clk : Clock) (s : Mem0) :
  all_dated clk s = false ->
  exists k m, In (k, m) (memories s) /\ time_of clk m = None.
Proof.
  unfold all_dated. induction (memories s) as [| [k m] r IH]; simpl;
    [discriminate |].
  destruct (time_of clk m) eqn:Hd; simpl.
  - intro H. destruct (IH H) as (k' & m' & Hin & Hd').
    exists k', m'. split; [right; exact Hin | exact Hd'].
  - intros _. exists k, m. split; [left; reflexivity | exact Hd].
Qed.

(** X17.  The dates that [getStats] reports.  Without records both are
    [null].  With records of which one carries no date, both are NaN.
    With records that all carry a date, they are the earliest and the
    latest instant of a record, and the earliest is the instant of the
    record that [evictOldest] picks. *)
Theorem getStats_dates (clk : Clock) (s : Mem0) :
  (memories s = [] ->
   oldestMemory (getStats clk s) = None /\ newestMemory (getStats clk s) = None)
  /\ (memories s <> [] -> all_dated clk s = false ->
      oldestMemory (getStats clk s) = Some None
      /\ newestMemory (getStats clk s) = Some None)
  /\ (memories s <> [] -> all_dated clk s = true ->
      exists lo hi,
        oldestMemory (getStats clk s) = Some (Some lo)
        /\ newestMemory (getStats clk s) = Some (Some hi)
        /\ (lo <= hi)%Z
        /\ (forall k m t,
              In (k, m) (memories s) -> time_of clk m = Some t ->
              (lo <= t <= hi)%Z)
        /\ (exists k m, In (k, m) (memories s) /\ time_of clk m = Some lo)
        /\ (exists k m, In (k, m) (memories s) /\ time_of clk m = Some hi)
        /\ snd (oldest clk (memories s)) = Some lo).
Proof.
  unfold getStats. cbn [oldestMemory newestMemory].
  split; [intros ->; split; reflexivity |].
  split.
  - intros Hne Hd.
    assert (Hin : In None (map (time_of clk) (map snd (memories s))))
      by (apply dates_In, undated_record; exact Hd).
    destruct (memories s) as [| [k m] r]; [contradiction |]. cbn [map snd] in *.
    unfold Math_min_dates, Math_max_dates.
    destruct Hin as [-> | Hin].
    + rewrite fold_earlier_None, fold_latest_None. split; reflexivity.
    + rewrite (fold_earlier_undated _ _ Hin), (fold_latest_undated _ _ Hin).
      split; reflexivity.
  - intros Hne Hd. pose proof (proj1 (all_dated_spec clk s) Hd) as Hnone.
    pose proof (Capacity.oldest_spec clk (memories s)) as Hold.
    destruct (memories s) as [| [k m] r] eqn:Hms; [contradiction |].
    cbn [map snd] in *. unfold Math_min_dates, Math_max_dates.
    destruct (time_of clk m) as [t |] eqn:Ht;
      [| contradiction Hnone; left; reflexivity].
    assert (Hr : ~ In None (map (time_of clk) (map snd r)))
      by (intro H; apply Hnone; right; exact H).
    destruct (fold_earlier_dated _ t Hr) as (lo & -> & Hlo1 & Hlo2 & Hlo3).
    destruct (fold_latest_dated _ t Hr) as (hi & -> & Hhi1 & Hhi2 & Hhi3).
    assert (Hbounds : forall k' m' t',
               In (k', m') ((k, m) :: r) -> time_of clk m' = Some t' ->
               (lo <= t' <= hi)%Z).
    { intros k' m' t' [[= <- <-] | Hin] Ht'.
      - rewrite Ht in Ht'. injection Ht' as <-. lia.
      - assert (Hd' : In (Some t') (map (time_of clk) (map snd r)))
          by (apply dates_In; exists k', m'; split; assumption).
        specialize (Hlo2 t' Hd'). specialize (Hhi2 t' Hd'). lia. }
    assert (Hlo : exists k' m', In (k', m') ((k, m) :: r) /\ time_of clk m' = Some lo).
    { destruct Hlo3 as [-> | Hin]; [exists k, m; split; [left; reflexivity | exact Ht] |].
      apply dates_In in Hin. destruct Hin as (k' & m' & Hin & Hd').
      exists k', m'. split; [right; exact Hin | exact Hd']. }
    assert (Hhi : exists k' m', In (k', m') ((k, m) :: r) /\ time_of clk m' = Some hi).
    { destruct Hhi3 as [-> | Hin]; [exists k, m; split; [left; reflexivity | exact Ht] |].
      apply dates_In in Hin. destruct Hin as (k' & m' & Hin & Hd').
      exists k', m'. split; [right; exact Hin | exact Hd']. }
    exists lo, hi. repeat split; try reflexivity; try assumption; try lia;
      try (apply (Hbounds k0 m0 t0); assumption).
    destruct Hold as [[_ Hall] | (k0 & m0 & t0 & -> & Hin0 & Ht0 & Hmin0)].
    + specialize (Hall k m (or_introl eq_refl)). rewrite Ht in Hall. discriminate.
    + simpl. f_equal. destruct Hlo as (k1 & m1 & Hin1 & Ht1).
      pose proof (Hmin0 k1 m1 lo Hin1 Ht1).
      pose proof (Hbounds k0 m0 t0 Hin0 Ht0). lia.
Qed.

(** The dates of the demonstration. *)
Lemma getStats_dates_witness :
  exists lo hi,
    oldestMemory (getStats Example.clock Demo.returned) = Some (Some lo)
    /\ newestMemory (getStats Example.clock Demo.returned) = Some (Some hi)
    /\ (lo <= hi)%Z.
Proof.
  destruct (proj2 (proj2 (getStats_dates Example.clock Demo.returned)))
    as (lo & hi & Hlo & Hhi & Hle & _).
  - vm_compute. discriminate.
  - vm_compute. reflexivity.
  - exists lo, hi. split; [exact Hlo |]. split; [exact Hhi | exact Hle].
Defined.

(** A [Set] of strings holds each string once. *)
Lemma SameValueZero_string (x y : value) :
  is_string x = true -> (SameValueZero x y = true <-> x = y).
Proof.
  destruct x; try discriminate. intros _. destruct y; simpl; split;
    try discriminate.
  - intro H. apply String.eqb_eq in H. subst. reflexivity.
  - intros [= ->]. apply String.eqb_refl.
Qed.

Lemma Set_of_strings (elements : list value) : forall members,
  forallb is_string elements = true -> NoDup members ->
  NoDup (fold_left Set_add elements members)
  /\ forall x, In x (fold_left Set_add elements members)
               <-> In x members \/ In x elements.
Proof.
  induction elements as [| v r IH]; intros members Hs Hnd; simpl.
  - split; [exact Hnd |]. intro x. split; [left; assumption | intros [H | []]; exact H].
  - simpl in Hs. apply andb_prop in Hs. destruct Hs as [Hv Hr].
    unfold Set_add at 2 4.
    destruct (existsb (SameValueZero v) members) eqn:Hex.
    + destruct (IH members Hr Hnd) as [H1 H2]. split; [exact H1 |].
      intro x. rewrite H2. split; [intros [H | H]; [left | right; right]; exact H |].
      intros [H | [<- | H]]; [left; exact H | | right; exact H].
      left. apply existsb_exists in Hex. destruct Hex as (y & Hy & Hsame).
      apply (SameValueZero_string v y Hv) in Hsame. subst. exact Hy.
    + assert (Hnew : ~ In v members).
      { intro Hin. apply Bool.not_true_iff_false in Hex. apply Hex.
        apply existsb_exists. exists v. split; [exact Hin |].
        apply (SameValueZero_string v v Hv). reflexivity. }
      assert (Hnd' : NoDup (members ++ [v])).
      { apply NoDup_app; [exact Hnd | repeat constructor; intros [] |].
        intros x Hx [<- | []]. contradiction. }
      destruct (IH (members ++ [v]) Hr Hnd') as [H1 H2]. split; [exact H1 |].
      intro x. rewrite H2, in_app_iff. simpl. tauto.
Qed.

(** X18.  The counts that [getStats] reports: the number of records
    and the capacity; without records, no tags and an average length of
    zero; and when every tag is a string, the number of different tags
    among the tags of all records. *)
Theorem getStats_counts (clk : Clock) (s : Mem0) :
  totalMemories (getStats clk s) = size s
  /\ memoryLimit (getStats clk s) = maxMemories (config s)
  /\ (memories s = [] ->
      totalTags (getStats clk s) = Some 0%Z
      /\ averageContentLength (getStats clk s) = 0%float)
  /\ (string_tags s = true ->
      exists distinct_tags,
        totalTags (getStats clk s) = Some (Z.of_nat (List.length distinct_tags))
        /\ NoDup distinct_tags
        /\ forall x, In x distinct_tags
                     <-> exists k m, In (k, m) (memories s) /\ In x (flat_tags m)).
Proof.
  unfold getStats, size. cbn [totalMemories memoryLimit totalTags averageContentLength].
  split; [rewrite length_map; reflexivity |]. split; [reflexivity |].
  split; [intros ->; split; reflexivity |].
  intro Hs. unfold string_tags in Hs.
  assert (Hall : forallb is_string (flat_map flat_tags (map snd (memories s))) = true).
  { apply forallb_forall. intros x Hx. apply in_flat_map in Hx.
    destruct Hx as (m & Hm & Hx). apply in_map_iff in Hm.
    destruct Hm as ([k m'] & <- & Hin).
    rewrite forallb_forall in Hs. specialize (Hs _ Hin).
    rewrite forallb_forall in Hs. exact (Hs x Hx). }
  assert (Hprim : forallb primitive (flat_map flat_tags (map snd (memories s))) = true).
  { apply forallb_forall. intros x Hx. rewrite forallb_forall in Hall.
    specialize (Hall x Hx). destruct x; try discriminate; reflexivity. }
  rewrite Hprim.
  destruct (Set_of_strings _ [] Hall (NoDup_nil _)) as [Hnd Hin].
  exists (Set_of (flat_map flat_tags (map snd (memories s)))).
  split; [reflexivity |]. split; [exact Hnd |].
  intro x. unfold Set_of. rewrite Hin, in_flat_map. split.
  - intros [[] | (m & Hm & Hx)]. apply in_map_iff in Hm.
    destruct Hm as ([k m'] & <- & Hm). exists k, m'. split; assumption.
  - intros (k & m & Hm & Hx). right. exists m. split; [| exact Hx].
    apply in_map_iff. exists (k, m). split; [reflexivity | exact Hm].
Qed.

(** The tags of the demonstration. *)
Lemma getStats_counts_witness :
  exists distinct_tags : list value,
    totalTags (getStats Example.clock Demo.returned)
      = Some (Z.of_nat (List.length distinct_tags))
    /\ NoDup distinct_tags.
Proof.
  destruct (proj2 (proj2 (proj2 (getStats_counts Example.clock Demo.returned))))
    as (distinct_tags & Htotal & Hnd & _).
  - vm_compute. reflexivity.
  - exists distinct_tags. split; [exact Htotal | exact Hnd].
Defined.

End Statistics.

(** ** Tokens *)

Module Tokens.

Import SimpleEmbedding Props Conditions.

(** A word character that [toLowerCase] leaves is a character of a
    token. *)
Lemma word_lower (c : ascii) :
  is_word (lower c) = true -> token_char (lower c) = true.
Proof.
  destruct c as [[|] [|] [|] [|] [|] [|] [|] [|]]; vm_compute;
    intro H; first [reflexivity | discriminate H].
Qed.

Lemma token_char_fixed (c : ascii) :
  token_char c = true ->
  lower c = c /\ is_word c = true /\ is_space c = false.
Proof.
  destruct c as [[|] [|] [|] [|] [|] [|] [|] [|]]; vm_compute;
    intro H; first [discriminate H | repeat split].
Qed.

(** The pieces of [split] are made of the characters that are no white
    space. *)
Lemma split_ws_chars (Q : ascii -> Prop) (cs : list ascii) :
  forall cur in_run,
    (forall c, In c cs -> is_space c = false -> Q c) ->
    (forall c, In c cur -> Q c) ->
    forall piece, In piece (split_ws cs cur in_run) ->
      forall c, In c (list_ascii_of_string piece) -> Q c.
Proof.
  induction cs as [| c0 r IH]; intros cur in_run Hcs Hcur piece Hp c Hc.
  - destruct Hp as [<- | []].
    rewrite list_ascii_of_string_of_list_ascii in Hc.
    apply Hcur, in_rev. exact Hc.
  - simpl in Hp. destruct (is_space c0) eqn:Hs.
    + destruct in_run.
      * apply (IH cur true (fun c' H => Hcs c' (or_intror H)) Hcur piece Hp c Hc).
      * destruct Hp as [<- | Hp].
        -- rewrite list_ascii_of_string_of_list_ascii in Hc.
           apply Hcur, in_rev. exact Hc.
        -- apply (IH [] true (fun c' H => Hcs c' (or_intror H))
                    (fun c' (H : In c' []) => match H with end) piece Hp c Hc).
    + apply (IH (c0 :: cur) false (fun c' H => Hcs c' (or_intror H))) with piece;
        try assumption.
      intros c' [<- | H]; [apply Hcs; [left; reflexivity | exact Hs] | exact (Hcur c' H)].
Qed.

(** Text without white space is one piece. *)
Lemma split_ws_word (cs : list ascii) : forall cur in_run,
  forallb (fun c => negb (is_space c)) cs = true ->
  split_ws cs cur in_run = [string_of_list_ascii (rev cur ++ cs)].
Proof.
  induction cs as [| c r IH]; intros cur in_run H; simpl.
  - rewrite app_nil_r. reflexivity.
  - simpl in H. apply andb_prop in H. destruct H as [Hc Hr].
    apply negb_true_iff in Hc. rewrite Hc, (IH _ _ Hr). simpl.
    rewrite <- app_assoc. reflexivity.
Qed.

Lemma map_lower_tokens (l : list ascii) :
  forallb token_char l = true -> map lower l = l.
Proof.
  induction l as [| c r IH]; simpl; intro H; [reflexivity |].
  apply andb_prop in H. destruct H as [Hc Hr].
  rewrite (proj1 (token_char_fixed c Hc)), (IH Hr). reflexivity.
Qed.

Lemma filter_tokens (l : list ascii) :
  forallb token_char l = true ->
  filter (fun c => is_word c || is_space c) l = l.
Proof.
  induction l as [| c r IH]; simpl; intro H; [reflexivity |].
  apply andb_prop in H. destruct H as [Hc Hr].
  destruct (token_char_fixed c Hc) as (_ & -> & _). simpl.
  rewrite (IH Hr). reflexivity.
Qed.

(** X19.  Every token that [tokenize] returns is a string, not empty, of
    lower-case letters, digits and underscores, and is its own
    tokenization. *)
Theorem tokenize_tokens (text : string) :
  Forall
    (fun t =>
       t <> ""%string
       /\ forallb token_char (list_ascii_of_string t) = true
       /\ tokenize t = [t])
    (tokenize text).
Proof.
  apply Forall_forall. intros t Ht. unfold tokenize in Ht.
  apply filter_In in Ht. destruct Ht as [Hin Hlen].
  assert (Hne : t <> ""%string) by (intros ->; discriminate Hlen).
  assert (Hchars : forallb token_char (list_ascii_of_string t) = true).
  { apply forallb_forall. intros c Hc.
    refine (split_ws_chars (fun c => token_char c = true) _ [] false _ _ t Hin c Hc);
      [| intros c' []].
    intros c' Hc' Hs. apply filter_In in Hc'. destruct Hc' as [Hc' Hkeep].
    apply in_map_iff in Hc'. destruct Hc' as (c0 & <- & _).
    rewrite Hs, orb_false_r in Hkeep. apply word_lower. exact Hkeep. }
  split; [exact Hne |]. split; [exact Hchars |].
  unfold tokenize.
  rewrite (map_lower_tokens _ Hchars), (filter_tokens _ Hchars), split_ws_word.
  - simpl. rewrite string_of_list_ascii_of_string.
    destruct t; [contradiction Hne; reflexivity | reflexivity].
  - rewrite forallb_forall in Hchars. apply forallb_forall. intros c Hc.
    destruct (token_char_fixed c (Hchars c Hc)) as (_ & _ & ->). reflexivity.
Qed.

Section Keys.
Context {V : Type}.

Lemma existsb_okeys_oset (k0 k : string) (v : V) (o : obj V) :
  existsb (String.eqb k0) (okeys (oset k v o))
  = String.eqb k0 k || existsb (String.eqb k0) (okeys o).
Proof.
  unfold oset. destruct (oget o k) as [v' |] eqn:Hget.
  - rewrite WellFormed.okeys_oreplace.
    destruct (String.eqb_spec k0 k) as [-> | Hne]; [| reflexivity].
    simpl. apply Similarity.existsb_In.
    apply Cosine.oget_present in Hget. apply in_map_iff.
    exists (k, v'). split; [reflexivity | exact Hget].
  - apply WellFormed.existsb_oinsert.
Qed.

End Keys.

(** The keys of the dictionary of counts: the tokens, but for
    [__proto__]. *)
Lemma keys_fold_count (k : string) (tokens : list string) : forall freq,
  existsb (String.eqb k) (okeys (fold_left count_token tokens freq))
  = existsb (String.eqb k) (okeys freq)
    || (existsb (String.eqb k) tokens && negb (String.eqb k "__proto__")).
Proof.
  induction tokens as [| t r IH]; intro freq; simpl.
  - rewrite orb_false_r. reflexivity.
  - rewrite IH. unfold count_token.
    destruct (String.eqb_spec t "__proto__") as [-> | Hne].
    + destruct (String.eqb_spec k "__proto__") as [-> | Hk]; simpl.
      * rewrite !andb_false_r. reflexivity.
      * reflexivity.
    + rewrite existsb_okeys_oset.
      destruct (String.eqb_spec k t) as [-> | Hkt]; simpl.
      * destruct (String.eqb_spec t "__proto__"); [contradiction |].
        simpl. rewrite !orb_true_r. reflexivity.
      * reflexivity.
Qed.

Lemma distinct_fold_count (tokens : list string) : forall freq,
  distinct (okeys freq) = true ->
  distinct (okeys (fold_left count_token tokens freq)) = true.
Proof.
  induction tokens as [| t r IH]; intros freq Hd; simpl; [exact Hd |].
  apply IH. unfold count_token. destruct (String.eqb t "__proto__"); [exact Hd |].
  apply WellFormed.distinct_oset. exact Hd.
Qed.

(** The keys of the vector made from a dictionary of counts. *)
Lemma keys_of_freq (freq : obj fval) (maxFreq : float) (k : string)
    (keys : list string) : forall emb : embedding,
  (forall k', In k' keys -> oget freq k' <> None) ->
  existsb (String.eqb k)
    (okeys
       (fold_left
          (fun (emb : embedding) token =>
             match oget freq token with
             | Some v => oset token (to_number v / maxFreq)%float emb
             | None => emb
             end) keys emb))
  = existsb (String.eqb k) (okeys emb) || existsb (String.eqb k) keys.
Proof.
  induction keys as [| t r IH]; intros emb Hkeys; simpl.
  - rewrite orb_false_r. reflexivity.
  - rewrite IH by (intros k' Hk'; apply Hkeys; right; exact Hk').
    destruct (oget freq t) as [v |] eqn:Hget;
      [| contradiction (Hkeys t (or_introl eq_refl))].
    rewrite existsb_okeys_oset.
    destruct (String.eqb k t), (existsb (String.eqb k) (okeys emb)),
      (existsb (String.eqb k) r); reflexivity.
Qed.

Lemma distinct_of_freq (freq : obj fval) (maxFreq : float)
    (keys : list string) : forall emb : embedding,
  distinct (okeys emb) = true ->
  distinct
    (okeys
       (fold_left
          (fun (emb : embedding) token =>
             match oget freq token with
             | Some v => oset token (to_number v / maxFreq)%float emb
             | None => emb
             end) keys emb)) = true.
Proof.
  induction keys as [| t r IH]; intros emb Hd; simpl; [exact Hd |].
  apply IH. destruct (oget freq t); [| exact Hd].
  apply WellFormed.distinct_oset. exact Hd.
Qed.

Lemma existsb_eqb_In (k : string) (ks : list string) :
  existsb (String.eqb k) ks = true <-> In k ks.
Proof.
  rewrite existsb_exists. split.
  - intros (x & Hx & He). apply String.eqb_eq in He. subst. exact Hx.
  - intro H. exists k. split; [exact H | apply String.eqb_refl].
Qed.

(** X20.  The vector of a text has one weight for each of its different
    tokens, but for the token [__proto__], which it leaves out. *)
Theorem computeEmbedding_keys (text : string) :
  distinct (okeys (computeEmbedding text)) = true
  /\ forall k,
       In k (okeys (computeEmbedding text))
       <-> In k (tokenize text) /\ k <> "__proto__"%string.
Proof.
  unfold computeEmbedding. split.
  - apply distinct_of_freq. reflexivity.
  - intro k. rewrite <- !existsb_eqb_In.
    rewrite keys_of_freq.
    + simpl. rewrite keys_fold_count. simpl.
      rewrite andb_true_iff, negb_true_iff.
      destruct (String.eqb_spec k "__proto__") as [-> | Hk];
        split; intros [H1 H2]; try discriminate; try contradiction;
        (split; [exact H1 |]); [exact Hk | reflexivity].
    + intros k' Hk'. destruct (EmptyText.In_okeys_oget _ _ Hk') as [v ->]. discriminate.
Qed.

End Tokens.

(** ** The demonstration *)

Module DemoRun.

Import SimpleEmbedding Store Queries Demo.

(** The run of [demo()] with the clock of the examples: no call
    throws, the ids are [mem_1], [mem_2] and [mem_3], and the last
    search finds the first record only. *)
Example demo_run :
  demo Example.clock 10 20 30 40 = Ret returned
  /\ option_map (fun r => fst r)
       (match added Example.clock 10 20 30 with
        | Ret r => Some r
        | Throw _ => None
        end)
     = Some ("mem_1", "mem_2", "mem_3")%string
  /\ map fst (memories returned) = ["mem_1"; "mem_2"; "mem_3"]%string
  /\ option_map (map hit_id)
       (match search "italian food" 10 returned with
        | Ret hits => Some hits
        | Throw _ => None
        end)
     = Some ["mem_1"%string].
Proof. repeat split; vm_compute; reflexivity. Qed.

End DemoRun.
